(** * uproot4.source.futures: Futures and Executors bound to Resources

    A shallow embedding of [uproot4/source/futures.py] and the properties of
    its futures, its single-resource executor and its thread pool.

    Python objects that the module mutates in place are threaded explicitly:
    a method takes the object (and whatever else it touches) and returns the
    updated one next to its Python-level outcome, which is either a returned
    value or a raised exception. *)

From Stdlib Require Import ZArith String List Bool Lia.
From stdpp Require Import base list.

Set Warnings "-register-all".
Open Scope string_scope.
Open Scope list_scope.

(* ===================================================================== *)
(** ** Python values, exceptions and call outcomes *)
(* ===================================================================== *)

(** A class of exceptions: its name and the names of the classes it derives
    from, nearest first (the tail of its method resolution order). *)
Record exc_class := ExcClass {
  cls_name : string;
  cls_bases : list string
}.

(** One frame of a traceback, innermost last. *)
Definition traceback := list string.

(** An exception instance: its class, message, [__cause__] and
    [__traceback__]. *)
Inductive exception :=
  | Exc (cls : exc_class) (msg : string)
        (cause : option exception) (tb : traceback).

Definition exc_cls (e : exception) : exc_class :=
  match e with Exc c _ _ _ => c end.
Definition exc_msg (e : exception) : string :=
  match e with Exc _ m _ _ => m end.
Definition exc_cause (e : exception) : option exception :=
  match e with Exc _ _ c _ => c end.
Definition exc_traceback (e : exception) : traceback :=
  match e with Exc _ _ _ t => t end.

(** [err.with_traceback(trc)] *)
Definition with_traceback (e : exception) (trc : traceback) : exception :=
  match e with Exc c m ca _ => Exc c m ca trc end.

(** [issubclass(c, Exception)]: what an [except Exception:] clause catches. *)
Definition is_Exception (c : exc_class) : bool :=
  existsb (String.eqb "Exception") (cls_name c :: cls_bases c).

(** [isinstance(err, cls)] *)
Definition isinstance_exc (err : exception) (cls : exc_class) : bool :=
  existsb (String.eqb (cls_name cls))
          (cls_name (exc_cls err) :: cls_bases (exc_cls err)).

Inductive value :=
  | PyNone
  | PyBool (b : bool)
  | PyInt (n : Z)
  | PyStr (s : string)
  | PyList (xs : list value)
  | PyType (c : exc_class)
  | PyExc (e : exception)
  | PyTraceback (t : traceback).

(** How a Python call ends. *)
Inductive outcome (A : Type) :=
  | Returned (a : A)
  | Raised (e : exception).
Arguments Returned {A} a.
Arguments Raised {A} e.

(** Keyword arguments, in the order they were passed. *)
Definition kwargs := list (string * value).

(** A timeout in milliseconds; [None] is Python's [timeout=None]. *)
Definition timeout_t := option Z.

(** The builtin classes the module meets. *)
Definition BaseException_cls : exc_class := ExcClass "BaseException" [].
Definition Exception_cls : exc_class := ExcClass "Exception" ["BaseException"].
Definition TypeError_cls : exc_class :=
  ExcClass "TypeError" ["Exception"; "BaseException"].
Definition AssertionError_cls : exc_class :=
  ExcClass "AssertionError" ["Exception"; "BaseException"].
Definition NotImplementedError_cls : exc_class :=
  ExcClass "NotImplementedError" ["RuntimeError"; "Exception"; "BaseException"].
Definition ZeroDivisionError_cls : exc_class :=
  ExcClass "ZeroDivisionError" ["ArithmeticError"; "Exception"; "BaseException"].
Definition SystemExit_cls : exc_class := ExcClass "SystemExit" ["BaseException"].
Definition KeyboardInterrupt_cls : exc_class :=
  ExcClass "KeyboardInterrupt" ["BaseException"].
Definition RuntimeError_cls : exc_class :=
  ExcClass "RuntimeError" ["Exception"; "BaseException"].
Definition StopIteration_cls : exc_class :=
  ExcClass "StopIteration" ["Exception"; "BaseException"].
Definition OverflowError_cls : exc_class :=
  ExcClass "OverflowError" ["ArithmeticError"; "Exception"; "BaseException"].

(** Binding a call's positional arguments to a method that declares exactly
    three parameters after [self], none with a default: any other number of
    arguments is a [TypeError] raised before the body runs. *)
Definition bind3 {A S : Type} (name : string)
    (body : value -> value -> value -> S -> outcome A * S)
    (args : list value) (s : S) : outcome A * S :=
  match args with
  | [a; b; c] => body a b c s
  | _ => (Raised (Exc TypeError_cls
            (String.append name "() requires exactly 3 positional arguments") None [name]), s)
  end.

(** Binding a call's keyword arguments to a function whose parameters
    [params] are bound by position and that collects the other keywords
    in [**kwargs]: a keyword named like one of [params] is a [TypeError],
    raised before the body runs. The result is the first such keyword. *)
Definition keyword_clash (params : list string) (kw : kwargs)
  : option string :=
  List.find (fun k => existsb (String.eqb k) params) (List.map fst kw).

Definition multiple_values (callee name : string) : exception :=
  Exc TypeError_cls
      (String.append callee
         (String.append "() got multiple values for argument " name))
      None [callee].

(** An exception [e] that leaves the body of a generator, as [next] hands
    it to its caller. [generator_stop] says that the interpreter applies
    PEP 479, as Python 3.7 and later do: a [StopIteration] is then
    replaced by a [RuntimeError] that has it as its cause. Earlier
    interpreters let the [StopIteration] through, and the caller takes it
    for the end of the iteration: [None]. *)
Definition generator_exit (generator_stop : bool) (e : exception)
  : option exception :=
  if isinstance_exc e StopIteration_cls then
    if generator_stop then
      Some (Exc RuntimeError_cls "generator raised StopIteration" (Some e)
                ["map"])
    else None
  else Some e.

(** What is left of the error that ended a generator, for the caller that
    drained it. *)
Definition leaked (generator_stop : bool) (e : option exception)
  : option exception :=
  match e with
  | Some e' => generator_exit generator_stop e'
  | None => None
  end.

(* ===================================================================== *)
(** ** Resources *)
(* ===================================================================== *)

(** What the executors ask of a Resource: the context-manager protocol.
    Both methods may change the resource. *)
Class Resource (R : Type) := {
  resource_enter : R -> outcome value * R;
  resource_exit : value -> value -> value -> R -> outcome value * R
}.

(** A callable submitted to an executor: it receives the resource first,
    then [*args] and [**kwargs], and may change the resource. *)
Definition callable (R : Type) : Type :=
  R -> list value -> kwargs -> outcome value * R.

(* ===================================================================== *)
(** ** class TrivialFuture *)
(* ===================================================================== *)

Module TrivialFuture.

Record t := __init__ { _result : value }.

Definition cancel (self : t) : bool := false.
Definition cancelled (self : t) : bool := false.
Definition running (self : t) : bool := false.
Definition done (self : t) : bool := true.

(** [timeout] is accepted and never looked at. *)
Definition result (self : t) (timeout : timeout_t) : value := _result self.
Definition exception (self : t) (timeout : timeout_t) : value := PyNone.

Section Callbacks.
(** Whatever a callback can change. *)
Context {W : Type}.

Definition callback : Type := t -> W -> outcome value * W.

Definition add_done_callback (self : t) (fn : callback) (w : W)
  : outcome value * W :=
  fn self w.
End Callbacks.

(** A callback instrumented to log the argument of each of its invocations,
    in order, before it runs. *)
Definition logged {W : Type} (fn : @callback W) : @callback (list t * W) :=
  fun fut lw =>
    let (o, w') := fn fut (snd lw) in (o, (fst lw ++ [fut], w')).

(** The methods as one interface, to speak of sequences of calls. *)
Inductive call {W : Type} :=
  | Cancel | Cancelled | Running | Done
  | Result (timeout : timeout_t)
  | Exception (timeout : timeout_t)
  | AddDoneCallback (fn : @callback W).
Arguments call : clear implicits.

Definition invoke {W : Type} (c : call W) (self : t) (w : W)
  : outcome value * W :=
  match c with
  | Cancel => (Returned (PyBool (cancel self)), w)
  | Cancelled => (Returned (PyBool (cancelled self)), w)
  | Running => (Returned (PyBool (running self)), w)
  | Done => (Returned (PyBool (done self)), w)
  | Result timeout => (Returned (result self timeout), w)
  | Exception timeout => (Returned (exception self timeout), w)
  | AddDoneCallback fn => add_done_callback self fn w
  end.

(** The world after a sequence of calls on the same future. *)
Fixpoint after {W : Type} (cs : list (call W)) (self : t) (w : W) : W :=
  match cs with
  | [] => w
  | c :: cs' => after cs' self (snd (invoke c self w))
  end.

End TrivialFuture.

(* ===================================================================== *)
(** ** class ResourceExecutor *)
(* ===================================================================== *)

Module ResourceExecutor.
Section WithResource.
Context {R : Type} `{Resource R}.

Record t := __init__ { _resource : R }.

Definition num_workers (self : t) : Z := 0.

(** The Python-level result of a method that discards what its last call
    returned. *)
Definition discard (o : outcome value) : outcome value :=
  match o with
  | Returned _ => Returned PyNone
  | Raised e => Raised e
  end.

Definition __enter__ (self : t) : outcome value * t :=
  let (o, r) := resource_enter (_resource self) in
  (discard o, __init__ r).

Definition __exit__ (exception_type exception_value traceback : value)
    (self : t) : outcome value * t :=
  let (o, r) :=
    resource_exit exception_type exception_value traceback (_resource self) in
  (discard o, __init__ r).

(** [submit(self, fn, *args, **kwargs)]: a keyword named [self] or [fn]
    cannot be passed on to [fn]; the call fails before [fn] is called. *)
Definition submit (self : t) (fn : callable R) (args : list value)
    (kw : kwargs) : outcome TrivialFuture.t * t :=
  match keyword_clash ["self"; "fn"] kw with
  | Some name => (Raised (multiple_values "submit" name), self)
  | None =>
      let (o, r) := fn (_resource self) args kw in
      (match o with
       | Returned v => Returned (TrivialFuture.__init__ v)
       | Raised e => Raised e
       end, __init__ r)
  end.

(** The generator object that [map] returns: suspended with the part of
    the [iterables] tuple its [for] loop has not reached yet, or finished.
    Creating it runs nothing. *)
Inductive generator :=
  | Suspended (func : callable R) (rest : list value)
  | Finished.

Inductive next_result :=
  | Yield (v : value)
  | StopIteration
  | Raise (e : exception).

(** [map(self, func, *iterables)]: [iterables] is the tuple of the
    positional arguments after [func]. *)
Definition map (self : t) (func : callable R) (iterables : list value)
  : generator :=
  Suspended func iterables.

(** How an exception that leaves the body of the generator reaches the
    caller of [next]. *)
Definition leave (generator_stop : bool) (e : exception) : next_result :=
  match generator_exit generator_stop e with
  | Some e' => Raise e'
  | None => StopIteration
  end.

(** [next(gen)]: the loop [for x in iterables: yield func(self._resource, x)]
    advanced to its next [yield]. *)
Definition next (generator_stop : bool) (g : generator) (self : t)
  : next_result * generator * t :=
  match g with
  | Finished => (StopIteration, Finished, self)
  | Suspended func [] => (StopIteration, Finished, self)
  | Suspended func (x :: rest) =>
      let (o, r) := func (_resource self) [x] [] in
      match o with
      | Returned v => (Yield v, Suspended func rest, __init__ r)
      | Raised e => (leave generator_stop e, Finished, __init__ r)
      end
  end.

(** [list(gen)]: every value the generator yields until it stops; an
    exception ends the iteration and is reported next to the values
    yielded so far. *)
Fixpoint drain (generator_stop : bool) (fuel : nat) (g : generator)
    (self : t) : list value * option exception * generator * t :=
  match fuel with
  | O => ([], None, g, self)
  | S fuel' =>
      match next generator_stop g self with
      | (Yield v, g', self') =>
          let '(vs, e, g'', self'') :=
            drain generator_stop fuel' g' self' in
          (v :: vs, e, g'', self'')
      | (StopIteration, g', self') => ([], None, g', self')
      | (Raise e, g', self') => ([], Some e, g', self')
      end
  end.

(** Enough fuel for [drain] to reach the end of the generator. *)
Definition size (g : generator) : nat :=
  match g with
  | Suspended _ rest => S (length rest)
  | Finished => 1
  end.

(** What draining [map] amounts to: one call of [func] per element of the
    [iterables] tuple, that is, per positional argument after [func],
    each on the resource as the call before left it. *)
Fixpoint calls (func : callable R) (iterables : list value) (r : R)
  : list value * option exception * R :=
  match iterables with
  | [] => ([], None, r)
  | x :: rest =>
      match func r [x] [] with
      | (Returned v, r') =>
          let '(vs, e, r'') := calls func rest r' in (v :: vs, e, r'')
      | (Raised e, r') => ([], Some e, r')
      end
  end.

(** [self.__exit__()]: a call with no arguments to the three-parameter
    method above. *)
Definition shutdown (self : t) (wait : bool) : outcome value * t :=
  bind3 "__exit__" __exit__ [] self.

End WithResource.
Arguments t R : clear implicits.
Arguments generator R : clear implicits.
End ResourceExecutor.

(* ===================================================================== *)
(** ** class TaskFuture *)
(* ===================================================================== *)

(** [sys.exc_info()] inside an [except] clause that caught [e]. *)
Definition excinfo : Type := exc_class * exception * traceback.

Definition sys_exc_info (e : exception) : excinfo :=
  (exc_cls e, e, exc_traceback e).

(** Python 2's three-argument [raise cls, err, trc]: an [err] that is an
    instance of [cls] is raised itself, with traceback [trc]; otherwise
    [cls] is instantiated from it. *)
Definition raise3 (cls : exc_class) (err : exception) (trc : traceback)
  : exception :=
  if isinstance_exc err cls then with_traceback err trc
  else Exc cls (exc_msg err) None trc.

(** [threading.TIMEOUT_MAX] in milliseconds, where a lock timeout is a
    64-bit count of nanoseconds (9223372036 s). *)
Definition TIMEOUT_MAX : Z := 9223372036000.

Definition timeout_too_large : exception :=
  Exc OverflowError_cls "timeout value is too large" None ["wait"].

(** [threading.Event.wait(timeout)] on an event whose flag is [flag]: it
    returns [True] at once when the flag is set. Otherwise it waits on the
    condition of the event: a timeout above [TIMEOUT_MAX] is an
    [OverflowError], a timeout of zero or less returns [False] without
    waiting, any other returns [False] when it has [expired], and [None]
    means that the caller stays blocked. *)
Definition Event_wait (flag : bool) (timeout : timeout_t) (expired : bool)
  : option (outcome bool) :=
  if flag then Some (Returned true)
  else match timeout with
       | None => None
       | Some ms =>
           if Z.ltb TIMEOUT_MAX ms then Some (Raised timeout_too_large)
           else if Z.leb ms 0 then Some (Returned false)
           else if expired then Some (Returned false)
           else None
       end.

Module TaskFuture.
Section WithResource.
Context {R : Type}.

Record t := mk {
  _task : callable R;
  _args : list value;
  _kwargs : kwargs;
  _finished : bool;
  _result : value;
  _excinfo : option excinfo
}.

Definition __init__ (task : callable R) (args : list value) (kw : kwargs)
  : t :=
  mk task args kw false PyNone None.

(** The call [TaskFuture(task, *args, **kwargs)] of the constructor
    [__init__(self, task, *args, **kwargs)]: a keyword named [self] or
    [task] is a [TypeError], and no future is made. *)
Definition new (task : callable R) (args : list value) (kw : kwargs)
  : outcome t :=
  match keyword_clash ["self"; "task"] kw with
  | Some name => Raised (multiple_values "__init__" name)
  | None => Returned (__init__ task args kw)
  end.

Definition not_implemented (method : string) : exception :=
  Exc NotImplementedError_cls "" None [method].

Definition cancel (self : t) : outcome value :=
  Raised (not_implemented "cancel").
Definition cancelled (self : t) : outcome value :=
  Raised (not_implemented "cancelled").
Definition running (self : t) : outcome value :=
  Raised (not_implemented "running").
Definition done (self : t) : outcome value :=
  Raised (not_implemented "done").
Definition exception (self : t) (timeout : timeout_t) : outcome value :=
  Raised (not_implemented "exception").
Definition add_done_callback (self : t) (fn : value) : outcome value :=
  Raised (not_implemented "add_done_callback").

(** [result(timeout)]. [py2] is the interpreter flag [uproot4._util.py2];
    [expired] says whether a given timeout runs out before the event is set.
    [None] means that the caller is still blocked in [wait]. What [wait]
    returns is dropped: the slots are read whenever it returns. An error
    of [wait] leaves [result]. *)
Definition result (py2 : bool) (self : t) (timeout : timeout_t)
    (expired : bool) : option (outcome value) :=
  match Event_wait (_finished self) timeout expired with
  | None => None
  | Some (Raised e) => Some (Raised e)
  | Some (Returned _) =>
      match _excinfo self with
      | None => Some (Returned (_result self))
      | Some (cls, err, trc) =>
          if py2 then Some (Raised (raise3 cls err trc))
          else Some (Raised (with_traceback err trc))
      end
  end.

(** The three stores that the worker performs on a future. *)
Definition set_result (v : value) (self : t) : t :=
  mk (_task self) (_args self) (_kwargs self) (_finished self) v
     (_excinfo self).
Definition set_excinfo (ei : excinfo) (self : t) : t :=
  mk (_task self) (_args self) (_kwargs self) (_finished self)
     (_result self) (Some ei).
Definition set_finished (self : t) : t :=
  mk (_task self) (_args self) (_kwargs self) true (_result self)
     (_excinfo self).

End WithResource.
Arguments t R : clear implicits.
End TaskFuture.

(* ===================================================================== *)
(** ** Shared objects of a thread pool *)
(* ===================================================================== *)

(** A Python object as the work queue holds it: [None], a reference to a
    [TaskFuture] on the heap, or anything else. *)
Inductive object :=
  | ONone
  | OTaskFuture (ref : nat)
  | OValue (v : value).

(** [isinstance(x, TaskFuture)] *)
Definition isinstance_TaskFuture (x : object) : bool :=
  match x with OTaskFuture _ => true | _ => false end.

(** What the threads do to the shared objects, in the order it happens
    (a history kept next to the program state; the program never reads
    it). *)
Inductive event :=
  | EvPut (x : object)
  | EvGet (w : nat) (x : object)
  | EvCall (w : nat) (ref : nat) (o : outcome value)
  | EvWriteResult (w : nat) (ref : nat) (v : value)
  | EvWriteExcinfo (w : nat) (ref : nat) (ei : excinfo)
  | EvSet (w : nat) (ref : nat).

(* ===================================================================== *)
(** ** class ThreadResourceWorker *)
(* ===================================================================== *)

Module ThreadResourceWorker.
Section WithResource.
Context {R : Type}.

(** Where the thread stands in [run]. *)
Inductive pc :=
  | AtGet                      (* [future = self._work_queue.get()] *)
  | AtTry (future : nat)       (* the [try] statement, future in hand *)
  | AtSet (future : nat)       (* [future._finished.set()] *)
  | Returned_run               (* left the loop by [break] *)
  | Died (e : exception).      (* an exception left [run] *)

Record t := mk {
  _resource : R;
  at_ : pc
}.

(** The thread as [ThreadResourceExecutor.__init__] leaves it: created
    and started. *)
Definition __init__ (resource : R) : t := mk resource AtGet.

Definition is_alive (self : t) : bool :=
  match at_ self with
  | AtGet | AtTry _ | AtSet _ => true
  | Returned_run | Died _ => false
  end.

Definition assertion_error : exception :=
  Exc AssertionError_cls "" None ["run"].

(** One statement of [run], executed by the thread with index [w]. The
    queue and the heap of futures are shared with the other threads. *)
Definition run_step (w : nat) (self : t) (work_queue : list object)
    (heap : list (TaskFuture.t R))
  : t * list object * list (TaskFuture.t R) * list event :=
  match at_ self with
  | AtGet =>
      match work_queue with
      | [] => (self, work_queue, heap, [])
      | future :: rest =>
          match future with
          | ONone =>
              (mk (_resource self) Returned_run, rest, heap, [EvGet w future])
          | OTaskFuture ref =>
              (mk (_resource self) (AtTry ref), rest, heap, [EvGet w future])
          | OValue _ =>
              (mk (_resource self) (Died assertion_error), rest, heap,
               [EvGet w future])
          end
      end
  | AtTry ref =>
      match heap !! ref with
      | None => (self, work_queue, heap, [])
      | Some future =>
          let (o, r) :=
            TaskFuture._task future (_resource self)
              (TaskFuture._args future) (TaskFuture._kwargs future) in
          match o with
          | Returned v =>
              (mk r (AtSet ref), work_queue,
               <[ref := TaskFuture.set_result v future]> heap,
               [EvCall w ref o; EvWriteResult w ref v])
          | Raised e =>
              if is_Exception (exc_cls e) then
                (mk r (AtSet ref), work_queue,
                 <[ref := TaskFuture.set_excinfo (sys_exc_info e) future]> heap,
                 [EvCall w ref o; EvWriteExcinfo w ref (sys_exc_info e)])
              else
                (mk r (Died e), work_queue, heap, [EvCall w ref o])
          end
      end
  | AtSet ref =>
      match heap !! ref with
      | None => (self, work_queue, heap, [])
      | Some future =>
          (mk (_resource self) AtGet, work_queue,
           <[ref := TaskFuture.set_finished future]> heap, [EvSet w ref])
      end
  | Returned_run | Died _ => (self, work_queue, heap, [])
  end.

End WithResource.
Arguments t R : clear implicits.
End ThreadResourceWorker.

(* ===================================================================== *)
(** ** class ThreadResourceExecutor *)
(* ===================================================================== *)

Module ThreadResourceExecutor.
Section WithResource.
Context {R : Type}.

(** Where a thread that called [shutdown] stands in it. *)
Inductive shutdown_pc :=
  | AtWhile                    (* [while any(thread.is_alive() ...)] *)
  | AtPut (todo : nat)         (* the [for] loop, [todo] puts to go *)
  | AtSleep.                   (* [time.sleep(0.001)] *)

(** The executor together with the objects it shares with its threads:
    the queue, the threads, every [TaskFuture] made so far (a reference is
    an index into [heap]), the position of the thread that is inside
    [shutdown], if any, and the history. *)
Record t := mk {
  _work_queue : list object;
  _workers : list (ThreadResourceWorker.t R);
  heap : list (TaskFuture.t R);
  in_shutdown : option shutdown_pc;
  history : list event
}.

Definition __init__ (resources : list R) : t :=
  mk [] (List.map ThreadResourceWorker.__init__ resources) [] None [].

Definition num_workers (self : t) : nat := length (_workers self).

Definition workers (self : t) : list (ThreadResourceWorker.t R) :=
  _workers self.

(** [self._work_queue.put(x)] *)
Definition put (x : object) (self : t) : t :=
  mk (_work_queue self ++ [x]) (_workers self) (heap self)
     (in_shutdown self) (history self ++ [EvPut x]).

(** [submit(self, fn, *args, **kwargs)]: the new future's reference, and
    the executor with the future on the heap and at the back of the
    queue. A keyword named [self] or [fn] fails the call of [submit], one
    named [task] that of the constructor of the future: either way the
    error leaves [submit] and nothing is put on the queue. *)
Definition submit (self : t) (fn : callable R) (args : list value)
    (kw : kwargs) : outcome nat * t :=
  match keyword_clash ["self"; "fn"] kw with
  | Some name => (Raised (multiple_values "submit" name), self)
  | None =>
      match TaskFuture.new fn args kw with
      | Raised e => (Raised e, self)
      | Returned future =>
          let task := length (heap self) in
          let self' :=
            mk (_work_queue self) (_workers self) (heap self ++ [future])
               (in_shutdown self) (history self) in
          (Returned task, put (OTaskFuture task) self')
      end
  end.

(** [any(thread.is_alive() for thread in self._workers)] *)
Definition any_alive (self : t) : bool :=
  existsb ThreadResourceWorker.is_alive (_workers self).

(** One statement of [shutdown], executed by the thread that called it;
    with no call in progress, the call is entered at its [while] test.
    Returning leaves no call in progress. *)
Definition shutdown_step (self : t) : t :=
  match in_shutdown self with
  | None | Some AtWhile =>
      if any_alive self then
        mk (_work_queue self) (_workers self) (heap self)
           (Some (AtPut (length (_workers self)))) (history self)
      else
        mk (_work_queue self) (_workers self) (heap self) None (history self)
  | Some (AtPut (S todo)) =>
      let self' := put ONone self in
      mk (_work_queue self') (_workers self') (heap self')
         (Some (AtPut todo)) (history self')
  | Some (AtPut O) =>
      mk (_work_queue self) (_workers self) (heap self) (Some AtSleep)
         (history self)
  | Some AtSleep =>
      mk (_work_queue self) (_workers self) (heap self) (Some AtWhile)
         (history self)
  end.

(** Worker thread [w] executes one statement of its [run]. *)
Definition work (w : nat) (self : t) : t :=
  match _workers self !! w with
  | None => self
  | Some thread =>
      let '(thread', q, h, evs) :=
        ThreadResourceWorker.run_step w thread (_work_queue self) (heap self) in
      mk q (<[w := thread']> (_workers self)) h (in_shutdown self)
         (history self ++ evs)
  end.

(** What can happen next in a program that uses the executor through its
    methods: a worker thread runs a statement, some thread calls [submit],
    or the thread in [shutdown] runs a statement of it. *)
Inductive action :=
  | Work (w : nat)
  | Submit (fn : callable R) (args : list value) (kw : kwargs)
  | Shutdown.

Definition step (a : action) (self : t) : t :=
  match a with
  | Work w => work w self
  | Submit fn args kw => snd (submit self fn args kw)
  | Shutdown => shutdown_step self
  end.

(** An interleaving, executed from left to right. *)
Fixpoint run (acts : list action) (self : t) : t :=
  match acts with
  | [] => self
  | a :: acts' => run acts' (step a self)
  end.

(** [future.result()] on the future behind [ref]. *)
Definition result_of (py2 : bool) (self : t) (ref : nat)
    (timeout : timeout_t) (expired : bool) : option (outcome value) :=
  match heap self !! ref with
  | None => None
  | Some future => TaskFuture.result py2 future timeout expired
  end.

(** The generator object that [map] returns. Creating it runs nothing.
    The first [next] starts the comprehension
    [[self.submit(func, x) for x in iterables]], which the thread can be
    in the middle of, with [rest] still to submit and [futures] made so
    far; each [yield] is reached when the [result()] in front of it has
    returned. *)
Inductive generator :=
  | Created (func : callable R) (iterables : list value)
  | Submitting (func : callable R) (rest : list value) (futures : list nat)
  | Waiting (futures : list nat)
  | Finished.

Inductive next_result :=
  | Yield (v : value)
  | StopIteration
  | Raise (e : exception).

Definition map (self : t) (func : callable R) (iterables : list value)
  : generator :=
  Created func iterables.

(** How an exception that leaves the body of the generator reaches the
    caller of [next]. *)
Definition leave (generator_stop : bool) (e : exception) : next_result :=
  match generator_exit generator_stop e with
  | Some e' => Raise e'
  | None => StopIteration
  end.

(** The loop [for future in futures: yield future.result()], from a
    [result()] to the [yield] behind it. *)
Definition await (py2 generator_stop : bool) (futures : list nat) (self : t)
  : option next_result * generator * t :=
  match futures with
  | [] => (Some StopIteration, Finished, self)
  | future :: rest =>
      match result_of py2 self future None false with
      | None => (None, Waiting futures, self)
      | Some (Returned v) => (Some (Yield v), Waiting rest, self)
      | Some (Raised e) => (Some (leave generator_stop e), Finished, self)
      end
  end.

(** The comprehension, one call of [submit] further. *)
Definition submit_next (generator_stop : bool) (func : callable R)
    (x : value) (rest : list value) (futures : list nat) (self : t)
  : option next_result * generator * t :=
  match submit self func [x] [] with
  | (Returned future, self') =>
      (None, Submitting func rest (futures ++ [future]), self')
  | (Raised e, self') => (Some (leave generator_stop e), Finished, self')
  end.

(** One leg of the thread inside [next(gen)]: one call of [submit] of the
    comprehension, or, behind the comprehension, from a [result()] to the
    [yield] behind it. [None] when the leg ends without a [yield]: a
    future was only just submitted, or the thread is still blocked in
    [result()]. Other threads can run between two legs. *)
Definition next (py2 generator_stop : bool) (g : generator) (self : t)
  : option next_result * generator * t :=
  match g with
  | Created func (x :: rest) => submit_next generator_stop func x rest [] self
  | Created func [] => await py2 generator_stop [] self
  | Submitting func (x :: rest) futures =>
      submit_next generator_stop func x rest futures self
  | Submitting func [] futures => await py2 generator_stop futures self
  | Waiting futures => await py2 generator_stop futures self
  | Finished => (Some StopIteration, Finished, self)
  end.

(** The call [shutdown()] as a whole, along an interleaving [sched] of
    the statements of its caller (the [Shutdown] steps) and of what the
    other threads do in between: the executor as it is when the call
    returns, or [None] when the caller is still inside [shutdown] at the
    end of [sched]. The call returns from the [while] test that finds no
    thread alive. *)
Fixpoint shutdown (sched : list action) (self : t) : option t :=
  match sched with
  | [] => None
  | a :: rest =>
      let self' := step a self in
      match a with
      | Shutdown =>
          match in_shutdown self' with
          | None => Some self'
          | Some _ => shutdown rest self'
          end
      | _ => shutdown rest self'
      end
  end.

End WithResource.
Arguments t R : clear implicits.
Arguments action R : clear implicits.
Arguments generator R : clear implicits.

Section ContextManager.
Context {R : Type} `{Resource R}.

(** The loop [for thread in self._workers: thread.resource.m(...)] of
    [__enter__] and [__exit__], run by their caller; [call] is the method
    [m] with its arguments. The calls are made in the order of
    [_workers]; an error ends the loop and leaves the method. *)
Fixpoint for_thread_in (call : R -> outcome value * R)
    (workers : list (ThreadResourceWorker.t R))
  : outcome value * list (ThreadResourceWorker.t R) :=
  match workers with
  | [] => (Returned PyNone, [])
  | thread :: rest =>
      match call (ThreadResourceWorker._resource thread) with
      | (Returned _, r) =>
          let (o, rest') := for_thread_in call rest in
          (o, ThreadResourceWorker.mk r (ThreadResourceWorker.at_ thread)
              :: rest')
      | (Raised e, r) =>
          (Raised e,
           ThreadResourceWorker.mk r (ThreadResourceWorker.at_ thread)
           :: rest)
      end
  end.

Definition __enter__ (self : t R) : outcome value * t R :=
  let (o, workers) := for_thread_in resource_enter (_workers self) in
  (o, mk (_work_queue self) workers (heap self) (in_shutdown self)
         (history self)).

(** [__exit__], along the interleaving [sched] that its call of
    [self.shutdown()] runs in: [None] while the caller is inside
    [shutdown]; once that has returned, the loop over the resources. *)
Definition __exit__ (exception_type exception_value traceback : value)
    (sched : list (action R)) (self : t R) : option (outcome value * t R) :=
  match shutdown sched self with
  | None => None
  | Some self' =>
      let (o, workers) :=
        for_thread_in
          (resource_exit exception_type exception_value traceback)
          (_workers self') in
      Some (o, mk (_work_queue self') workers (heap self')
                  (in_shutdown self') (history self'))
  end.

(** What can happen to the pool, one thing at a time: a statement of a
    thread (a worker, or a caller of [submit] or [shutdown]), or a call
    of [__enter__] or of [__exit__] as a whole, the latter along the
    interleaving that its [shutdown] runs in. *)
Inductive move :=
  | Step (a : action R)
  | Enter
  | Exit (exception_type exception_value traceback : value)
         (sched : list (action R)).

(** The pool after a move. A call of [__exit__] that is still inside
    [shutdown] at the end of its interleaving has touched no resource. *)
Definition move_to (m : move) (self : t R) : t R :=
  match m with
  | Step a => step a self
  | Enter => snd (__enter__ self)
  | Exit exception_type exception_value traceback sched =>
      match __exit__ exception_type exception_value traceback sched self with
      | Some (_, self') => self'
      | None => run sched self
      end
  end.

Definition moves (ms : list move) (self : t R) : t R :=
  fold_left (fun s m => move_to m s) ms self.

End ContextManager.
Arguments move R : clear implicits.

End ThreadResourceExecutor.

(* ===================================================================== *)
(** ** Book-keeping for the pool's invariants *)
(* ===================================================================== *)

Section Accounting.
Context {R : Type}.

Definition ind (b : bool) : nat := if b then 1 else 0.

(** How often the queue holds a reference to future [ref]. *)
Definition in_queue (ref : nat) (x : object) : nat :=
  match x with OTaskFuture g => ind (Nat.eqb g ref) | _ => 0 end.
Definition queued (ref : nat) (q : list object) : nat :=
  sum_list_with (in_queue ref) q.

(** How many threads stand at their [try] with future [ref] in hand, and
    how many stand before its [set()]. *)
Definition at_try (ref : nat) (th : ThreadResourceWorker.t R) : nat :=
  match ThreadResourceWorker.at_ th with
  | ThreadResourceWorker.AtTry g => ind (Nat.eqb g ref)
  | _ => 0
  end.
Definition at_set (ref : nat) (th : ThreadResourceWorker.t R) : nat :=
  match ThreadResourceWorker.at_ th with
  | ThreadResourceWorker.AtSet g => ind (Nat.eqb g ref)
  | _ => 0
  end.
Definition trying (ref : nat) (ws : list (ThreadResourceWorker.t R)) : nat :=
  sum_list_with (at_try ref) ws.
Definition setting (ref : nat) (ws : list (ThreadResourceWorker.t R)) : nat :=
  sum_list_with (at_set ref) ws.

(** How often the history records a call of the task of [ref], a store to
    one of its two slots, and a [set()] of its event. *)
Definition is_call (ref : nat) (ev : event) : nat :=
  match ev with EvCall _ g _ => ind (Nat.eqb g ref) | _ => 0 end.
Definition is_write (ref : nat) (ev : event) : nat :=
  match ev with
  | EvWriteResult _ g _ | EvWriteExcinfo _ g _ => ind (Nat.eqb g ref)
  | _ => 0
  end.
Definition is_set (ref : nat) (ev : event) : nat :=
  match ev with EvSet _ g => ind (Nat.eqb g ref) | _ => 0 end.
Definition called (ref : nat) (h : list event) : nat :=
  sum_list_with (is_call ref) h.
Definition written (ref : nat) (h : list event) : nat :=
  sum_list_with (is_write ref) h.
Definition signalled (ref : nat) (h : list event) : nat :=
  sum_list_with (is_set ref) h.

(** A future as [TaskFuture.__init__] leaves it. *)
Definition fresh (future : TaskFuture.t R) : Prop :=
  TaskFuture._finished future = false
  /\ TaskFuture._result future = PyNone
  /\ TaskFuture._excinfo future = None.

(** The result slot counts as populated when it holds something else than
    the initial [None]; the error slot when it holds an [excinfo]. *)
Definition both_populated (future : TaskFuture.t R) : bool :=
  match TaskFuture._result future, TaskFuture._excinfo future with
  | PyNone, _ => false
  | _, None => false
  | _, Some _ => true
  end.

(** The slots of [future] hold the outcome [o] of its task, and nothing
    else. *)
Definition slots_hold (o : outcome value) (future : TaskFuture.t R) : Prop :=
  match o with
  | Returned v =>
      TaskFuture._result future = v /\ TaskFuture._excinfo future = None
  | Raised e =>
      TaskFuture._result future = PyNone
      /\ TaskFuture._excinfo future = Some (sys_exc_info e)
      /\ is_Exception (exc_cls e) = true
  end.

(** [o] is how a call of the task of [future] ended, on some resource. *)
Definition outcome_of (future : TaskFuture.t R) (o : outcome value) : Prop :=
  exists r : R,
    o = fst (TaskFuture._task future r (TaskFuture._args future)
               (TaskFuture._kwargs future)).

(** The [try] statement of [run] handles the outcome: the task returned,
    or raised what [except Exception:] catches. *)
Definition caught (o : outcome value) : bool :=
  match o with
  | Returned _ => true
  | Raised e => is_Exception (exc_cls e)
  end.

(** In the history [h], read from a point where [writes] stores to the
    slots of [ref] have happened, every [set()] of the event of [ref] comes
    when exactly one store has. *)
Fixpoint set_after_write (ref : nat) (writes : nat) (h : list event) : bool :=
  match h with
  | [] => true
  | ev :: h' =>
      (if Nat.eqb (is_set ref ev) 1 then Nat.eqb writes 1 else true)
      && set_after_write ref (writes + is_write ref ev) h'
  end.

(** The life of a future in a pool. *)
Inductive phase :=
  | Queued        (* on the queue *)
  | Running       (* taken off the queue, its task not yet called *)
  | Filled        (* a slot written, the event not yet set *)
  | Done          (* the event set *)
  | Lost.         (* its task took the thread down *)

(** Where the references to the future are, and what the history says
    about it, in each phase: queued, trying, setting; called, written,
    signalled. *)
Definition census_of (p : phase) : nat * nat * nat * (nat * nat * nat) :=
  match p with
  | Queued => (1, 0, 0, (0, 0, 0))
  | Running => (0, 1, 0, (0, 0, 0))
  | Filled => (0, 0, 1, (1, 1, 0))
  | Done => (0, 0, 0, (1, 1, 1))
  | Lost => (0, 0, 0, (1, 0, 0))
  end.

Definition census (self : ThreadResourceExecutor.t R) (ref : nat)
  : nat * nat * nat * (nat * nat * nat) :=
  (queued ref (ThreadResourceExecutor._work_queue self),
   trying ref (ThreadResourceExecutor._workers self),
   setting ref (ThreadResourceExecutor._workers self),
   (called ref (ThreadResourceExecutor.history self),
    written ref (ThreadResourceExecutor.history self),
    signalled ref (ThreadResourceExecutor.history self))).

(** The history holds the one call of the task of [ref], and the slots of
    [future] hold its outcome. *)
Definition filled_from (h : list event) (ref : nat)
    (future : TaskFuture.t R) : Prop :=
  exists w o,
    In (EvCall w ref o) h /\ outcome_of future o /\ slots_hold o future.

Definition lost_from (h : list event) (ref : nat)
    (future : TaskFuture.t R) : Prop :=
  exists w e,
    In (EvCall w ref (Raised e)) h /\ outcome_of future (Raised e)
    /\ is_Exception (exc_cls e) = false.

Definition in_phase (self : ThreadResourceExecutor.t R) (ref : nat)
    (future : TaskFuture.t R) (p : phase) : Prop :=
  census self ref = census_of p
  /\ match p with
     | Queued | Running => fresh future
     | Filled =>
         TaskFuture._finished future = false
         /\ filled_from (ThreadResourceExecutor.history self) ref future
     | Done =>
         TaskFuture._finished future = true
         /\ filled_from (ThreadResourceExecutor.history self) ref future
     | Lost =>
         fresh future
         /\ lost_from (ThreadResourceExecutor.history self) ref future
     end.

(** Every future on the heap is in one of the phases, and nothing refers
    to a future that is not on the heap. *)
Definition accounted (self : ThreadResourceExecutor.t R) : Prop :=
  forall ref,
    match ThreadResourceExecutor.heap self !! ref with
    | Some future => exists p, in_phase self ref future p
    | None => census self ref = (0, 0, 0, (0, 0, 0))
    end.

(** The statements of [run] one by one: what [work w] does to the
    executor, by the position of thread [w] and what it finds. *)
Inductive worked (w : nat) (self : ThreadResourceExecutor.t R)
  : ThreadResourceExecutor.t R -> Prop :=
  | worked_nothing : worked w self self
  | worked_get (th : ThreadResourceWorker.t R) (x : object)
      (rest : list object) :
      ThreadResourceExecutor._workers self !! w = Some th ->
      ThreadResourceWorker.at_ th = ThreadResourceWorker.AtGet ->
      ThreadResourceExecutor._work_queue self = x :: rest ->
      worked w self
        (ThreadResourceExecutor.mk rest
           (<[w := ThreadResourceWorker.mk (ThreadResourceWorker._resource th)
                     (match x with
                      | ONone => ThreadResourceWorker.Returned_run
                      | OTaskFuture ref => ThreadResourceWorker.AtTry ref
                      | OValue _ =>
                          ThreadResourceWorker.Died
                            ThreadResourceWorker.assertion_error
                      end)]> (ThreadResourceExecutor._workers self))
           (ThreadResourceExecutor.heap self)
           (ThreadResourceExecutor.in_shutdown self)
           (ThreadResourceExecutor.history self ++ [EvGet w x]))
  | worked_return (th : ThreadResourceWorker.t R) (ref : nat)
      (future : TaskFuture.t R) (v : value) (r : R) :
      ThreadResourceExecutor._workers self !! w = Some th ->
      ThreadResourceWorker.at_ th = ThreadResourceWorker.AtTry ref ->
      ThreadResourceExecutor.heap self !! ref = Some future ->
      TaskFuture._task future (ThreadResourceWorker._resource th)
        (TaskFuture._args future) (TaskFuture._kwargs future)
      = (Returned v, r) ->
      worked w self
        (ThreadResourceExecutor.mk (ThreadResourceExecutor._work_queue self)
           (<[w := ThreadResourceWorker.mk r (ThreadResourceWorker.AtSet ref)]>
              (ThreadResourceExecutor._workers self))
           (<[ref := TaskFuture.set_result v future]>
              (ThreadResourceExecutor.heap self))
           (ThreadResourceExecutor.in_shutdown self)
           (ThreadResourceExecutor.history self
              ++ [EvCall w ref (Returned v); EvWriteResult w ref v]))
  | worked_except (th : ThreadResourceWorker.t R) (ref : nat)
      (future : TaskFuture.t R) (e : exception) (r : R) :
      ThreadResourceExecutor._workers self !! w = Some th ->
      ThreadResourceWorker.at_ th = ThreadResourceWorker.AtTry ref ->
      ThreadResourceExecutor.heap self !! ref = Some future ->
      TaskFuture._task future (ThreadResourceWorker._resource th)
        (TaskFuture._args future) (TaskFuture._kwargs future)
      = (Raised e, r) ->
      is_Exception (exc_cls e) = true ->
      worked w self
        (ThreadResourceExecutor.mk (ThreadResourceExecutor._work_queue self)
           (<[w := ThreadResourceWorker.mk r (ThreadResourceWorker.AtSet ref)]>
              (ThreadResourceExecutor._workers self))
           (<[ref := TaskFuture.set_excinfo (sys_exc_info e) future]>
              (ThreadResourceExecutor.heap self))
           (ThreadResourceExecutor.in_shutdown self)
           (ThreadResourceExecutor.history self
              ++ [EvCall w ref (Raised e);
                  EvWriteExcinfo w ref (sys_exc_info e)]))
  | worked_die (th : ThreadResourceWorker.t R) (ref : nat)
      (future : TaskFuture.t R) (e : exception) (r : R) :
      ThreadResourceExecutor._workers self !! w = Some th ->
      ThreadResourceWorker.at_ th = ThreadResourceWorker.AtTry ref ->
      ThreadResourceExecutor.heap self !! ref = Some future ->
      TaskFuture._task future (ThreadResourceWorker._resource th)
        (TaskFuture._args future) (TaskFuture._kwargs future)
      = (Raised e, r) ->
      is_Exception (exc_cls e) = false ->
      worked w self
        (ThreadResourceExecutor.mk (ThreadResourceExecutor._work_queue self)
           (<[w := ThreadResourceWorker.mk r (ThreadResourceWorker.Died e)]>
              (ThreadResourceExecutor._workers self))
           (ThreadResourceExecutor.heap self)
           (ThreadResourceExecutor.in_shutdown self)
           (ThreadResourceExecutor.history self ++ [EvCall w ref (Raised e)]))
  | worked_set (th : ThreadResourceWorker.t R) (ref : nat)
      (future : TaskFuture.t R) :
      ThreadResourceExecutor._workers self !! w = Some th ->
      ThreadResourceWorker.at_ th = ThreadResourceWorker.AtSet ref ->
      ThreadResourceExecutor.heap self !! ref = Some future ->
      worked w self
        (ThreadResourceExecutor.mk (ThreadResourceExecutor._work_queue self)
           (<[w := ThreadResourceWorker.mk (ThreadResourceWorker._resource th)
                     ThreadResourceWorker.AtGet]>
              (ThreadResourceExecutor._workers self))
           (<[ref := TaskFuture.set_finished future]>
              (ThreadResourceExecutor.heap self))
           (ThreadResourceExecutor.in_shutdown self)
           (ThreadResourceExecutor.history self ++ [EvSet w ref])).

(** Nothing but [None] and TaskFutures went through the queue. *)
Definition expected_object (x : object) : bool :=
  match x with ONone | OTaskFuture _ => true | OValue _ => false end.

Definition expected_event (ev : event) : bool :=
  match ev with
  | EvPut x | EvGet _ x => expected_object x
  | _ => true
  end.

(** The thread ended on the [assert] of [run]: the [try] lets no error
    derived from [Exception] out, so a thread that died of one died outside
    of it. *)
Definition assertion_failed (th : ThreadResourceWorker.t R) : bool :=
  match ThreadResourceWorker.at_ th with
  | ThreadResourceWorker.Died e => is_Exception (exc_cls e)
  | _ => false
  end.

(** The queue holds, the history records and the threads have met nothing
    but [None] and TaskFutures. *)
Definition clean (self : ThreadResourceExecutor.t R) : Prop :=
  Forall (fun x => expected_object x = true)
         (ThreadResourceExecutor._work_queue self)
  /\ Forall (fun ev => expected_event ev = true)
            (ThreadResourceExecutor.history self)
  /\ Forall (fun th => assertion_failed th = false)
            (ThreadResourceExecutor._workers self).

(** How many stop sentinels the history has seen put on the queue. *)
Definition is_stop_put (ev : event) : nat :=
  match ev with EvPut ONone => 1 | _ => 0 end.
Definition stops (h : list event) : nat := sum_list_with is_stop_put h.

(** How many threads of the pool are alive. *)
Definition alive_count (self : ThreadResourceExecutor.t R) : nat :=
  sum_list_with (fun th => ind (ThreadResourceWorker.is_alive th))
                (ThreadResourceExecutor._workers self).

(** How many statements of [shutdown] an interleaving runs. *)
Definition is_shutdown (a : ThreadResourceExecutor.action R) : nat :=
  match a with ThreadResourceExecutor.Shutdown => 1 | _ => 0 end.
Definition shutdown_steps (acts : list (ThreadResourceExecutor.action R))
  : nat :=
  sum_list_with is_shutdown acts.

(** The thread in [shutdown], if any, is at the [while] test. *)
Definition at_while (self : ThreadResourceExecutor.t R) : Prop :=
  ThreadResourceExecutor.in_shutdown self = None
  \/ ThreadResourceExecutor.in_shutdown self
     = Some ThreadResourceExecutor.AtWhile.

(** *** Progress *)

(** How many statements a thread has to run before it is back at [get]. *)
Definition remaining (th : ThreadResourceWorker.t R) : nat :=
  match ThreadResourceWorker.at_ th with
  | ThreadResourceWorker.AtTry _ => 2
  | ThreadResourceWorker.AtSet _ => 1
  | _ => 0
  end.
Definition backlog (ws : list (ThreadResourceWorker.t R)) : nat :=
  sum_list_with remaining ws.

(** How many items the queue holds in front of the first reference to
    future [ref]. *)
Fixpoint ahead (ref : nat) (q : list object) : nat :=
  match q with
  | [] => 0
  | x :: q' =>
      match in_queue ref x with
      | O => S (ahead ref q')
      | S _ => 0
      end
  end.

(** How far future [ref] is from having its event set, in statements of
    the threads that can bring it there: three per item in front of it and
    for itself while it is queued, and what the threads have in hand. *)
Definition distance (self : ThreadResourceExecutor.t R) (ref : nat) : nat :=
  if Nat.ltb 0 (queued ref (ThreadResourceExecutor._work_queue self)) then
    3 + 3 * ahead ref (ThreadResourceExecutor._work_queue self)
    + backlog (ThreadResourceExecutor._workers self)
  else if Nat.ltb 0 (trying ref (ThreadResourceExecutor._workers self)) then 2
  else if Nat.ltb 0 (setting ref (ThreadResourceExecutor._workers self)) then 1
  else 0.

(** A task that returns or raises an error derived from [Exception],
    whatever the state of the resource it is called on. *)
Definition catchable (fn : callable R) (args : list value) (kw : kwargs)
  : Prop :=
  forall r : R, caught (fst (fn r args kw)) = true.

(** An action of a pool that is not being shut down and whose tasks are
    all catchable. *)
Definition calm (a : ThreadResourceExecutor.action R) : Prop :=
  match a with
  | ThreadResourceExecutor.Work _ => True
  | ThreadResourceExecutor.Submit fn args kw => catchable fn args kw
  | ThreadResourceExecutor.Shutdown => False
  end.

Definition is_work (w : nat) (a : ThreadResourceExecutor.action R) : bool :=
  match a with
  | ThreadResourceExecutor.Work w' => Nat.eqb w' w
  | _ => false
  end.

(** A round is a stretch of an interleaving in which each of the [n]
    worker threads runs at least one statement. *)
Definition round (n : nat) (acts : list (ThreadResourceExecutor.action R))
  : bool :=
  forallb (fun w => existsb (is_work w) acts) (seq 0 n).

(** The pool runs undisturbed: no stop sentinel and nothing unexpected on
    the queue, every task on the heap catchable, every thread alive. *)
Definition healthy (self : ThreadResourceExecutor.t R) : Prop :=
  accounted self
  /\ Forall (fun x => isinstance_TaskFuture x = true)
            (ThreadResourceExecutor._work_queue self)
  /\ Forall (fun future =>
               catchable (TaskFuture._task future) (TaskFuture._args future)
                         (TaskFuture._kwargs future))
            (ThreadResourceExecutor.heap self)
  /\ Forall (fun th => ThreadResourceWorker.is_alive th = true)
            (ThreadResourceExecutor._workers self).

(** What an item of the queue may cost the pool: a thread, unless the item
    is a future known to hold a catchable task. [safe] tells the
    references of these futures; a stop sentinel ends the thread that
    takes it, another object or a task that is not catchable kills it. *)
Definition hazard (safe : nat -> bool) (x : object) : nat :=
  match x with
  | OTaskFuture ref => if safe ref then 0 else 1
  | _ => 1
  end.

(** What the statement a thread is at may cost: the thread itself, when
    it is about to call a task that is not known to be catchable. *)
Definition armed (safe : nat -> bool) (th : ThreadResourceWorker.t R) : nat :=
  match ThreadResourceWorker.at_ th with
  | ThreadResourceWorker.AtTry ref => if safe ref then 0 else 1
  | _ => 0
  end.

(** The threads that the items ahead of future [ref] may cost. *)
Fixpoint hazards_ahead (safe : nat -> bool) (ref : nat) (q : list object)
  : nat :=
  match q with
  | [] => 0
  | x :: q' =>
      match in_queue ref x with
      | O => hazard safe x + hazards_ahead safe ref q'
      | S _ => 0
      end
  end.

Definition armed_count (safe : nat -> bool)
    (ws : list (ThreadResourceWorker.t R)) : nat :=
  sum_list_with (armed safe) ws.

(** The threads that the pool may lose with what is on its queue and in
    the hands of its threads. *)
Definition exposure (safe : nat -> bool) (self : ThreadResourceExecutor.t R)
  : nat :=
  sum_list_with (hazard safe) (ThreadResourceExecutor._work_queue self)
  + armed_count safe (ThreadResourceExecutor._workers self).

(** [safe] is right about the pool: every reference it tells is to a
    future on the heap whose task is catchable. *)
Definition sound (safe : nat -> bool) (self : ThreadResourceExecutor.t R)
  : Prop :=
  forall ref, safe ref = true ->
    exists future,
      ThreadResourceExecutor.heap self !! ref = Some future
      /\ catchable (TaskFuture._task future) (TaskFuture._args future)
                   (TaskFuture._kwargs future).

(** Future [ref] is on its way to its [set()]: its task is catchable, it
    is stored to if its task was called, and while it is queued more
    threads are alive than the items ahead of it and the tasks in hand
    may cost. *)
Definition guarded (safe : nat -> bool) (self : ThreadResourceExecutor.t R)
    (ref : nat) : Prop :=
  accounted self
  /\ sound safe self
  /\ safe ref = true
  /\ called ref (ThreadResourceExecutor.history self)
     = written ref (ThreadResourceExecutor.history self)
  /\ (0 < queued ref (ThreadResourceExecutor._work_queue self) ->
      hazards_ahead safe ref (ThreadResourceExecutor._work_queue self)
      + armed_count safe (ThreadResourceExecutor._workers self)
      < alive_count self).

(** Two futures are for the same call. *)
Definition same_call (future future' : TaskFuture.t R) : Prop :=
  TaskFuture._task future' = TaskFuture._task future
  /\ TaskFuture._args future' = TaskFuture._args future
  /\ TaskFuture._kwargs future' = TaskFuture._kwargs future.

(** Thread [w] is the one, or one of those, whose next statement brings
    future [ref] closer to its [set()]: any live thread while the future
    is queued, the thread that holds it afterwards. *)
Definition leads (w : nat) (self : ThreadResourceExecutor.t R)
    (ref : nat) : Prop :=
  exists th,
    ThreadResourceExecutor._workers self !! w = Some th
    /\ (if Nat.ltb 0 (queued ref (ThreadResourceExecutor._work_queue self))
        then ThreadResourceWorker.is_alive th = true
        else if Nat.ltb 0 (trying ref (ThreadResourceExecutor._workers self))
        then ThreadResourceWorker.at_ th = ThreadResourceWorker.AtTry ref
        else ThreadResourceWorker.at_ th = ThreadResourceWorker.AtSet ref).

(** *** The queue and the calls, as the history shows them *)

Definition put_of (ev : event) : option object :=
  match ev with EvPut x => Some x | _ => None end.
Definition get_of (ev : event) : option object :=
  match ev with EvGet _ x => Some x | _ => None end.
Definition call_of (ev : event) : option (nat * outcome value) :=
  match ev with EvCall _ ref o => Some (ref, o) | _ => None end.
Definition task_ref (x : object) : option nat :=
  match x with OTaskFuture ref => Some ref | _ => None end.

(** Every object put on the queue, every object taken from it, and every
    call of a task with its outcome, each in the order it happened. *)
Definition puts (h : list event) : list object := omap put_of h.
Definition gets (h : list event) : list object := omap get_of h.
Definition calls (h : list event) : list (nat * outcome value) :=
  omap call_of h.

(** The references among a list of objects. *)
Definition task_refs (xs : list object) : list nat := omap task_ref xs.

(** The reference that a thread has taken and not yet called. *)
Definition in_hand (th : ThreadResourceWorker.t R) : list nat :=
  match ThreadResourceWorker.at_ th with
  | ThreadResourceWorker.AtTry ref => [ref]
  | _ => []
  end.

(** The call that a future stands for, and what it does to a resource. *)
Definition call_sig : Type := callable R * list value * kwargs.
Definition sig_of (future : TaskFuture.t R) : call_sig :=
  (TaskFuture._task future, TaskFuture._args future,
   TaskFuture._kwargs future).
Definition run_sig (c : call_sig) (r : R) : outcome value * R :=
  fst (fst c) r (snd (fst c)) (snd c).

(** The calls [cs] made one after the other on one resource, each on the
    resource as the call before left it: the outcomes, and the resource
    at the end. *)
Fixpoint sequential (cs : list call_sig) (r : R)
  : list (outcome value) * R :=
  match cs with
  | [] => ([], r)
  | c :: cs' =>
      let (o, r') := run_sig c r in
      let (os, r'') := sequential cs' r' in
      (o :: os, r'')
  end.

(** The queue is first in, first out, and [submit] numbers the futures
    as it puts them: what was taken, followed by what is still there, is
    what was put, and the references put are 0, 1, 2, ... in this
    order. *)
Definition fifo (self : ThreadResourceExecutor.t R) : Prop :=
  gets (ThreadResourceExecutor.history self)
  ++ ThreadResourceExecutor._work_queue self
  = puts (ThreadResourceExecutor.history self)
  /\ task_refs (puts (ThreadResourceExecutor.history self))
     = seq 0 (length (ThreadResourceExecutor.heap self)).

(** In a pool with the one resource [r0], the calls made so far are those
    of the first futures, in the order of the heap, each on the resource
    as the call before left it. *)
Definition in_sequence (r0 : R) (self : ThreadResourceExecutor.t R) : Prop :=
  exists th,
    ThreadResourceExecutor._workers self = [th]
    /\ List.map fst (calls (ThreadResourceExecutor.history self))
       ++ in_hand th
       = task_refs (gets (ThreadResourceExecutor.history self))
    /\ sequential
         (take (length (calls (ThreadResourceExecutor.history self)))
               (List.map sig_of (ThreadResourceExecutor.heap self))) r0
       = (List.map snd (calls (ThreadResourceExecutor.history self)),
          ThreadResourceWorker._resource th).

(** *** The stop sentinels *)

(** How many stop sentinels a list of objects holds. *)
Definition is_stop (x : object) : nat :=
  match x with ONone => 1 | _ => 0 end.
Definition stops_among (xs : list object) : nat := sum_list_with is_stop xs.

(** How many threads have left [run] by its [break]. *)
Definition left_by_break (th : ThreadResourceWorker.t R) : nat :=
  match ThreadResourceWorker.at_ th with
  | ThreadResourceWorker.Returned_run => 1
  | _ => 0
  end.
Definition stopped_by_break (ws : list (ThreadResourceWorker.t R)) : nat :=
  sum_list_with left_by_break ws.

(** Each stop sentinel taken has stopped one thread. *)
Definition one_stop_each (self : ThreadResourceExecutor.t R) : Prop :=
  stopped_by_break (ThreadResourceExecutor._workers self)
  = stops_among (gets (ThreadResourceExecutor.history self)).

(** *** How far [shutdown] is from returning *)

(** How many objects other than stop sentinels a list of objects holds. *)
Definition is_task (x : object) : nat :=
  match x with ONone => 0 | _ => 1 end.
Definition tasks_among (xs : list object) : nat := sum_list_with is_task xs.

(** What the threads still have to do before all of them have stopped,
    in statements: one [get] per thread alive, three statements per
    task on the queue, and what the threads have in hand. *)
Definition work_left (self : ThreadResourceExecutor.t R) : nat :=
  alive_count self
  + 3 * tasks_among (ThreadResourceExecutor._work_queue self)
  + backlog (ThreadResourceExecutor._workers self).

(** Every thread that is alive waits in [get] for an empty queue. *)
Definition stalled (self : ThreadResourceExecutor.t R) : bool :=
  match ThreadResourceExecutor._work_queue self with
  | [] => Nat.eqb (backlog (ThreadResourceExecutor._workers self)) 0
  | _ :: _ => false
  end.

(** How many statements of [shutdown] come before its next [put], while
    a thread is alive. *)
Definition to_next_put (pc : option ThreadResourceExecutor.shutdown_pc)
  : nat :=
  match pc with
  | Some (ThreadResourceExecutor.AtPut (S _)) => 0
  | None | Some ThreadResourceExecutor.AtWhile => 1
  | Some ThreadResourceExecutor.AtSleep => 2
  | Some (ThreadResourceExecutor.AtPut O) => 3
  end.

(** How many statements of [shutdown] come before it returns, once no
    thread is alive. *)
Definition to_return (pc : option ThreadResourceExecutor.shutdown_pc) : nat :=
  match pc with
  | None => 0
  | Some ThreadResourceExecutor.AtWhile => 1
  | Some ThreadResourceExecutor.AtSleep => 2
  | Some (ThreadResourceExecutor.AtPut todo) => 3 + todo
  end.

(** A bound on the rounds it takes until no thread is alive and
    [shutdown] has returned. *)
Definition until_return (self : ThreadResourceExecutor.t R) : nat :=
  match alive_count self with
  | O => to_return (ThreadResourceExecutor.in_shutdown self)
  | S _ =>
      5 * work_left self
      + (if stalled self
         then 1 + to_next_put (ThreadResourceExecutor.in_shutdown self)
         else 0)
      + length (ThreadResourceExecutor._workers self) + 4
  end.

(** The [for] loop of [shutdown] has no more puts to go than the pool has
    threads. *)
Definition todo_bounded (self : ThreadResourceExecutor.t R) : Prop :=
  match ThreadResourceExecutor.in_shutdown self with
  | Some (ThreadResourceExecutor.AtPut todo) =>
      todo <= length (ThreadResourceExecutor._workers self)
  | _ => True
  end.

(** Thread [w] is alive and its next statement does something: it has a
    future in hand, or the queue holds an object for it to take. *)
Definition busy (w : nat) (self : ThreadResourceExecutor.t R) : Prop :=
  exists th,
    ThreadResourceExecutor._workers self !! w = Some th
    /\ ThreadResourceWorker.is_alive th = true
    /\ (0 < remaining th \/ ThreadResourceExecutor._work_queue self <> []).

Definition is_submit (a : ThreadResourceExecutor.action R) : bool :=
  match a with
  | ThreadResourceExecutor.Submit _ _ _ => true
  | _ => false
  end.

(** A thread of the program: worker [w], or the thread in [shutdown]. *)
Definition turn (d : option nat) (a : ThreadResourceExecutor.action R)
  : bool :=
  match d with
  | Some w => is_work w a
  | None => Nat.eqb (is_shutdown a) 1
  end.

(** The next statement of thread [d] brings the return of [shutdown]
    closer. *)
Definition designated (d : option nat) (self : ThreadResourceExecutor.t R)
  : Prop :=
  match d with
  | Some w => busy w self
  | None => alive_count self = 0 \/ stalled self = true
  end.

(** A round of a pool that is being shut down: every worker thread and
    the thread in [shutdown] run at least one statement each, and nobody
    submits. *)
Definition shutdown_round (n : nat)
    (acts : list (ThreadResourceExecutor.action R)) : bool :=
  round n acts && Nat.ltb 0 (shutdown_steps acts)
  && forallb (fun a => negb (is_submit a)) acts.

(** *** Consuming the generator of [map] *)

(** The values among a list of outcomes up to the first error, and
    what a generator that lets this error out of its body raises. *)
Fixpoint until_raise (generator_stop : bool) (os : list (outcome value))
  : list value * option exception :=
  match os with
  | [] => ([], None)
  | Returned v :: os' =>
      let (vs, e) := until_raise generator_stop os' in (v :: vs, e)
  | Raised e :: _ => ([], generator_exit generator_stop e)
  end.

(** The thread inside [next(gen)] along an interleaving: before each of
    its legs the other threads run the statements of one element of
    [gaps]. It goes on until a leg ends in a [yield], a [StopIteration]
    or an exception, or the [gaps] run out. *)
Fixpoint legs (py2 generator_stop : bool)
    (gaps : list (list (ThreadResourceExecutor.action R)))
    (g : ThreadResourceExecutor.generator R)
    (self : ThreadResourceExecutor.t R)
  : option ThreadResourceExecutor.next_result
    * ThreadResourceExecutor.generator R * ThreadResourceExecutor.t R :=
  match gaps with
  | [] => (None, g, self)
  | acts :: gaps' =>
      match ThreadResourceExecutor.next py2 generator_stop g
              (ThreadResourceExecutor.run acts self) with
      | (None, g', self') => legs py2 generator_stop gaps' g' self'
      | (Some r, g', self') => (Some r, g', self')
      end
  end.

(** [list(gen)] on the generator of the pool's [map] while the worker
    threads stand still: the values yielded until the generator stops,
    raises, or comes to wait in a [result()]. *)
Fixpoint pool_drain (fuel : nat) (py2 generator_stop : bool)
    (g : ThreadResourceExecutor.generator R)
    (self : ThreadResourceExecutor.t R)
  : list value * option exception * ThreadResourceExecutor.generator R :=
  match fuel with
  | O => ([], None, g)
  | S fuel' =>
      match ThreadResourceExecutor.next py2 generator_stop g self with
      | (Some (ThreadResourceExecutor.Yield v), g', self') =>
          let '(vs, e, g'') :=
            pool_drain fuel' py2 generator_stop g' self' in
          (v :: vs, e, g'')
      | (Some ThreadResourceExecutor.StopIteration, g', _) => ([], None, g')
      | (Some (ThreadResourceExecutor.Raise e), g', _) => ([], Some e, g')
      | (None, g', _) => ([], None, g')
      end
  end.

(** The future behind [ref] is for the call [func(resource, x)], is done,
    and holds the outcome [o] of the one call of its task. *)
Definition done_with (self : ThreadResourceExecutor.t R) (func : callable R)
    (ref : nat) (x : value) (o : outcome value) : Prop :=
  outcome_of (TaskFuture.__init__ func [x] []) o
  /\ (exists w, In (EvCall w ref o) (ThreadResourceExecutor.history self))
  /\ forall py2 expired,
       ThreadResourceExecutor.result_of py2 self ref None expired = Some o.

(** *** The loops over the resources *)

(** The call of a method on the resource of [th] returned and left the
    thread as [th']. *)
Definition passed (call : R -> outcome value * R)
    (th th' : ThreadResourceWorker.t R) : Prop :=
  ThreadResourceWorker.at_ th' = ThreadResourceWorker.at_ th
  /\ exists v,
       call (ThreadResourceWorker._resource th)
       = (Returned v, ThreadResourceWorker._resource th').

(** What a loop that calls a method on the resource of each thread in
    turn does to the threads [ws]: with the result [None], the call has
    returned on every resource; with an error, the call has returned on
    the resources of the threads before some thread [k] and raised the
    error on that of thread [k], and the resources of the threads after
    [k] have not been touched. *)
Definition looped (call : R -> outcome value * R)
    (ws : list (ThreadResourceWorker.t R)) (o : outcome value)
    (ws' : list (ThreadResourceWorker.t R)) : Prop :=
  match o with
  | Returned v => v = PyNone /\ Forall2 (passed call) ws ws'
  | Raised e =>
      exists k th th',
        ws !! k = Some th /\ ws' !! k = Some th'
        /\ ThreadResourceWorker.at_ th' = ThreadResourceWorker.at_ th
        /\ call (ThreadResourceWorker._resource th)
           = (Raised e, ThreadResourceWorker._resource th')
        /\ Forall2 (passed call) (take k ws) (take k ws')
        /\ drop (S k) ws' = drop (S k) ws
  end.

(** *** The calls of one thread *)

(** The calls that thread [w] has made, with their outcomes, in the order
    it made them. *)
Definition call_by (w : nat) (ev : event) : option (nat * outcome value) :=
  match ev with
  | EvCall w' ref o => if Nat.eqb w' w then Some (ref, o) else None
  | _ => None
  end.
Definition calls_by (w : nat) (h : list event)
  : list (nat * outcome value) :=
  omap (call_by w) h.

(** Thread [w], whose resource was [r0] when the history was [h0], has
    since run its tasks one after the other on this resource: the
    outcomes of the calls it has made since are those of making them in
    sequence from [r0], and its resource is what they leave behind. *)
Definition serial (w : nat) (r0 : R) (h0 : list event)
    (self : ThreadResourceExecutor.t R) : Prop :=
  exists since th cs,
    ThreadResourceExecutor.history self = h0 ++ since
    /\ ThreadResourceExecutor._workers self !! w = Some th
    /\ Forall2 (fun ref c =>
                  List.map sig_of (ThreadResourceExecutor.heap self) !! ref
                  = Some c)
               (List.map fst (calls_by w since)) cs
    /\ sequential cs r0
       = (List.map snd (calls_by w since),
          ThreadResourceWorker._resource th).

End Accounting.

(* ===================================================================== *)
(** ** A resource and some tasks to run the definitions on *)
(* ===================================================================== *)

(** A file handle that counts how often it was entered and read. *)
Record handle := Handle { depth : Z; reads : Z }.

#[export] Instance handle_resource : Resource handle := {
  resource_enter h := (Returned PyNone, Handle (depth h + 1) (reads h));
  resource_exit _ _ _ h := (Returned PyNone, Handle (depth h - 1) (reads h))
}.

(** Returns its first argument and counts one read. *)
Definition echo : callable handle :=
  fun h args _ =>
    (Returned (match args with x :: _ => x | [] => PyNone end),
     Handle (depth h) (reads h + 1)).

(** Returns the number of reads so far and counts one more. *)
Definition tick : callable handle :=
  fun h _ _ => (Returned (PyInt (reads h)), Handle (depth h) (reads h + 1)).

Definition answer : callable handle :=
  fun h _ _ => (Returned (PyInt 42), h).

Definition division_by_zero : exception :=
  Exc ZeroDivisionError_cls "division by zero" None ["task"].

Definition divide : callable handle :=
  fun h _ _ => (Raised division_by_zero, h).

Definition system_exit : exception :=
  Exc SystemExit_cls "" None ["task"].

(** A task that calls [sys.exit()]. *)
Definition quit : callable handle :=
  fun h _ _ => (Raised system_exit, h).


(* ===================================================================== *)
(** ** TrivialFuture *)
(* ===================================================================== *)

Section TrivialFutureFacts.
Context {W : Type}.
Import TrivialFuture.

(** Registering a logging callback runs it once: the log grows by the
    future, and the callback's own outcome and effect are handed back. *)
Lemma logged_runs_callback (fn : @callback W) (self : t) (l : list t) (w : W) :
  add_done_callback self (logged fn) (l, w)
  = (fst (fn self w), (l ++ [self], snd (fn self w))).
Proof.
  unfold add_done_callback, logged. simpl. destruct (fn self w); reflexivity.
Qed.

(** C9: a TrivialFuture built from [r] answers, after any sequence [cs] of
    earlier calls and for every timeout: [done()] true, [result] equal to
    [r], [cancel], [cancelled] and [running] false, [exception] None; and
    [add_done_callback(fn)] is one application of [fn] to the future
    itself, whose outcome it hands back: a callback that logs its
    invocations has logged exactly one more, with the future as argument,
    when [add_done_callback] returns. Every method is a total function, so
    no call blocks. *)
Theorem TrivialFuture_contract (r : value) (cs : list (call W)) (w0 : W)
    (timeout : timeout_t) (fn : @callback W) (l : list t) :
  let self := __init__ r in
  let w := after cs self w0 in
  invoke Done self w = (Returned (PyBool true), w)
  /\ invoke (Result timeout) self w = (Returned r, w)
  /\ invoke Cancel self w = (Returned (PyBool false), w)
  /\ invoke Cancelled self w = (Returned (PyBool false), w)
  /\ invoke Running self w = (Returned (PyBool false), w)
  /\ invoke (Exception timeout) self w = (Returned PyNone, w)
  /\ invoke (AddDoneCallback fn) self w = fn self w
  /\ invoke (AddDoneCallback (logged fn)) self (l, w)
     = (fst (fn self w), (l ++ [self], snd (fn self w))).
Proof.
  intros self w. repeat split; try reflexivity.
  apply logged_runs_callback.
Qed.

End TrivialFutureFacts.

(* ===================================================================== *)
(** ** ResourceExecutor *)
(* ===================================================================== *)

Section ResourceExecutorFacts.
Context {R : Type} `{Resource R}.
Import ResourceExecutor.

(** C8 (amended): called with no keyword named [self] or [fn], [submit]
    is the call [fn(resource, *args, **kwargs)] made on the spot: when the
    call returns [v], [submit] returns a TrivialFuture whose [result()] is
    [v]; when it raises [e], [submit] raises [e] and returns no future.
    Either way the resource is as the call left it. *)
Theorem submit_runs_inline (self : t R) (fn : callable R)
    (args : list value) (kw : kwargs) (o : outcome value) (r : R) :
  keyword_clash ["self"; "fn"] kw = None ->
  fn (_resource self) args kw = (o, r) ->
  (forall v, o = Returned v ->
     submit self fn args kw = (Returned (TrivialFuture.__init__ v), __init__ r)
     /\ forall timeout,
          TrivialFuture.result (TrivialFuture.__init__ v) timeout = v)
  /\ (forall e, o = Raised e ->
     submit self fn args kw = (Raised e, __init__ r)).
Proof.
  intros Hkw Hcall. unfold submit. rewrite Hkw, Hcall.
  split; intros x ->; [split|]; reflexivity.
Qed.

(** A keyword named [self] or [fn] never reaches [fn]: [submit] raises a
    TypeError, calls nothing and leaves the executor as it was. *)
Lemma submit_keyword_clash (self : t R) (fn : callable R)
    (args : list value) (kw : kwargs) (name : string) :
  keyword_clash ["self"; "fn"] kw = Some name ->
  submit self fn args kw = (Raised (multiple_values "submit" name), self).
Proof. intros Hkw. unfold submit. rewrite Hkw. reflexivity. Qed.

(** C7: [shutdown] never reaches the resource: the call [self.__exit__()]
    passes none of the three arguments that [__exit__] requires, so it ends
    in a TypeError and the resource is left exactly as it was. *)
Theorem shutdown_raises_TypeError (self : t R) (wait : bool) :
  exists e,
    shutdown self wait = (Raised e, self)
    /\ exc_cls e = TypeError_cls
    /\ (forall a b c, fst (__exit__ a b c self)
                      = discard (fst (resource_exit a b c (_resource self)))).
Proof.
  eexists. split; [reflexivity|]. split; [reflexivity|].
  intros a b c. unfold __exit__.
  destruct (resource_exit a b c (_resource self)); reflexivity.
Qed.

Lemma drain_S (generator_stop : bool) (fuel : nat) (g : generator R)
    (self : t R) :
  drain generator_stop (S fuel) g self
  = match next generator_stop g self with
    | (Yield v, g', self') =>
        let '(vs, e, g'', self'') := drain generator_stop fuel g' self' in
        (v :: vs, e, g'', self'')
    | (StopIteration, g', self') => ([], None, g', self')
    | (Raise e, g', self') => ([], Some e, g', self')
    end.
Proof. reflexivity. Qed.

(** Draining the generator of [map] makes the calls of [calls]; of the
    error that ended them, the caller sees what the generator lets out. *)
Lemma drain_map (generator_stop : bool) (func : callable R)
    (iterables : list value) (self : t R) :
  let '(vs, e, g, self') :=
    drain generator_stop (size (map self func iterables))
          (map self func iterables) self in
  let '(vs0, e0, r0) := calls func iterables (_resource self) in
  vs = vs0 /\ e = leaked generator_stop e0 /\ _resource self' = r0
  /\ g = Finished.
Proof.
  unfold map, size. revert self.
  induction iterables as [|x rest IH]; intros self.
  - destruct self; repeat split; reflexivity.
  - cbn [length]. rewrite drain_S. cbn [next calls].
    destruct (func (_resource self) [x] []) as [[v|e] r'].
    + specialize (IH (__init__ r')).
      destruct (drain generator_stop (S (length rest)) (Suspended func rest)
                      (__init__ r')) as [[[vs e] g] self'].
      cbn [_resource] in IH.
      destruct (calls func rest r') as [[vs0 e0] r0].
      destruct IH as (-> & -> & -> & ->). repeat split; reflexivity.
    + unfold leave. cbn [leaked].
      destruct (generator_exit generator_stop e); repeat split; reflexivity.
Qed.

End ResourceExecutorFacts.

(** The call [ex.submit(answer)] on a fresh handle. *)
Lemma submit_runs_inline_witness :
  keyword_clash ["self"; "fn"] [] = None
  /\ answer (Handle 0 0) [] [] = (Returned (PyInt 42), Handle 0 0)
  /\ ResourceExecutor.submit (ResourceExecutor.__init__ (Handle 0 0))
       answer [] []
     = (Returned (TrivialFuture.__init__ (PyInt 42)),
        ResourceExecutor.__init__ (Handle 0 0)).
Proof.
  split; [reflexivity|]. split; [reflexivity|].
  apply (submit_runs_inline (ResourceExecutor.__init__ (Handle 0 0))
           answer [] [] (Returned (PyInt 42)) (Handle 0 0) eq_refl eq_refl).
  reflexivity.
Defined.

(** C8, as stated, fails: [ex.submit(tick, fn=1)] on a fresh handle. The
    call [tick(resource, fn=1)] returns 0 and counts a read, but [submit]
    takes the keyword [fn] for its own parameter, which is bound already:
    it raises a TypeError, [tick] is not called (no read is counted) and
    no future comes back. *)
Lemma submit_rejects_keyword_fn :
  let self := ResourceExecutor.__init__ (Handle 0 0) in
  let kw := [("fn", PyInt 1)] in
  tick (Handle 0 0) [] kw = (Returned (PyInt 0), Handle 0 1)
  /\ (exists e,
        ResourceExecutor.submit self tick [] kw = (Raised e, self)
        /\ exc_cls e = TypeError_cls)
  /\ ResourceExecutor.submit self tick [] kw
     <> (Returned (TrivialFuture.__init__ (PyInt 0)),
         ResourceExecutor.__init__ (Handle 0 1)).
Proof.
  cbv zeta. split; [reflexivity|]. split.
  - eexists. split; reflexivity.
  - intros Heq. discriminate Heq.
Qed.

(** A generator made from a single iterable argument yields at most one
    value, whatever the iterable holds. *)
Lemma map_single_argument (R : Type) (func : callable R) (x : value) (r : R) :
  length (fst (fst (ResourceExecutor.calls func [x] r))) <= 1.
Proof.
  cbn [ResourceExecutor.calls].
  destruct (func r [x] []) as [[v|e] r']; cbn; lia.
Qed.

(** C5: [map(echo, [1, 2, 3])] on a single-resource executor yields one
    value, [echo(resource, [1, 2, 3])], and stops: the loop runs over the
    tuple of arguments, not over the items of the argument. The three calls
    [echo(resource, 1)], [echo(resource, 2)], [echo(resource, 3)] are never
    made (the handle has counted one read, not three). *)
Theorem ResourceExecutor_map_per_argument (generator_stop : bool) :
  let self := ResourceExecutor.__init__ (Handle 0 0) in
  let items := [PyInt 1; PyInt 2; PyInt 3] in
  let g := ResourceExecutor.map self echo [PyList items] in
  ResourceExecutor.drain generator_stop (ResourceExecutor.size g) g self
  = ([PyList items], None, ResourceExecutor.Finished,
     ResourceExecutor.__init__ (Handle 0 1))
  /\ fst (fst (fst (ResourceExecutor.drain generator_stop
                      (ResourceExecutor.size g) g self)))
     <> items
  /\ fst (ResourceExecutor.calls echo items (Handle 0 0)) = (items, None).
Proof.
  cbv zeta. split; [reflexivity|]. split; [|reflexivity].
  cbn. intros Heq. discriminate Heq.
Qed.

(* ===================================================================== *)
(** ** TaskFuture *)
(* ===================================================================== *)

(** Re-raising what [sys.exc_info()] captured gives back the exception
    itself, under either interpreter. *)
Lemma with_traceback_own (e : exception) :
  with_traceback e (exc_traceback e) = e.
Proof. destruct e; reflexivity. Qed.

Lemma isinstance_own_class (e : exception) :
  isinstance_exc e (exc_cls e) = true.
Proof.
  unfold isinstance_exc. cbn [existsb]. rewrite String.eqb_refl. reflexivity.
Qed.

Lemma raise3_own (e : exception) :
  raise3 (exc_cls e) e (exc_traceback e) = e.
Proof.
  unfold raise3. rewrite isinstance_own_class. apply with_traceback_own.
Qed.

(** C4: on a future that no worker has touched yet, a [result(timeout)]
    whose timeout expires does not fail: it returns [None], the initial
    content of the result slot, as if the task had returned [None]; so for
    a timeout of 1 ms. (The only timeouts that make [result] raise are
    those above [TIMEOUT_MAX], which [wait] refuses with an OverflowError
    before it waits.) The future itself is not changed ([result] only
    reads it); as long as the timeout has not expired the call stays
    blocked, and so does the same call without a timeout. *)
Theorem result_timeout_returns_None (R : Type) (py2 : bool)
    (task : callable R) (args : list value) (kw : kwargs) (ms : Z) :
  let future := TaskFuture.__init__ task args kw in
  TaskFuture.result py2 future (Some ms) true
  = (if Z.ltb TIMEOUT_MAX ms then Some (Raised timeout_too_large)
     else Some (Returned PyNone))
  /\ TaskFuture.result py2 future (Some ms) false
     = (if Z.ltb TIMEOUT_MAX ms then Some (Raised timeout_too_large)
        else if Z.leb ms 0 then Some (Returned PyNone)
        else None)
  /\ TaskFuture.result py2 future None true = None
  /\ TaskFuture.result py2 future (Some 1%Z) true = Some (Returned PyNone).
Proof.
  cbv zeta. unfold TaskFuture.result, Event_wait.
  cbn [TaskFuture._finished TaskFuture.__init__ TaskFuture._excinfo
       TaskFuture._result].
  destruct (Z.ltb TIMEOUT_MAX ms), (Z.leb ms 0); repeat split.
Qed.

(* ===================================================================== *)
(** ** ThreadResourceExecutor: running the definitions *)
(* ===================================================================== *)

(** C6: [map(echo, [1, 2, 3])] on a pool with one worker submits one task,
    whose argument is the whole list, and yields one result, the list
    itself, before it stops: the comprehension runs over the tuple of
    arguments, not over the items of the argument. *)
Theorem ThreadResourceExecutor_map_per_argument (generator_stop : bool) :
  let pool := ThreadResourceExecutor.__init__ [Handle 0 0] in
  let items := [PyInt 1; PyInt 2; PyInt 3] in
  let g := ThreadResourceExecutor.map pool echo [PyList items] in
  let '(y0, g1, pool1) :=
    ThreadResourceExecutor.next false generator_stop g pool in
  let pool2 :=
    ThreadResourceExecutor.run
      [ThreadResourceExecutor.Work 0; ThreadResourceExecutor.Work 0;
       ThreadResourceExecutor.Work 0] pool1 in
  let '(y1, g2, _) :=
    ThreadResourceExecutor.next false generator_stop g1 pool2 in
  let '(y2, g3, _) :=
    ThreadResourceExecutor.next false generator_stop g2 pool2 in
  y0 = None
  /\ ThreadResourceExecutor._work_queue pool1 = [OTaskFuture 0]
  /\ List.map TaskFuture._args (ThreadResourceExecutor.heap pool1)
     = [[PyList items]]
  /\ y1 = Some (ThreadResourceExecutor.Yield (PyList items))
  /\ y2 = Some ThreadResourceExecutor.StopIteration
  /\ g3 = ThreadResourceExecutor.Finished.
Proof. cbv zeta. cbn. repeat split. Qed.

(* ===================================================================== *)
(** ** ThreadResourceExecutor: one step at a time *)
(* ===================================================================== *)

Section PoolSubmit.
Context {R : Type}.
Implicit Types (self st : ThreadResourceExecutor.t R).

(** A call of [submit] whose keywords bind. *)
Lemma submit_unfold st (fn : callable R) (args : list value) (kw : kwargs) :
  keyword_clash ["self"; "fn"] kw = None ->
  keyword_clash ["self"; "task"] kw = None ->
  ThreadResourceExecutor.submit st fn args kw
  = (Returned (length (ThreadResourceExecutor.heap st)),
     ThreadResourceExecutor.mk
       (ThreadResourceExecutor._work_queue st
          ++ [OTaskFuture (length (ThreadResourceExecutor.heap st))])
       (ThreadResourceExecutor._workers st)
       (ThreadResourceExecutor.heap st ++ [TaskFuture.__init__ fn args kw])
       (ThreadResourceExecutor.in_shutdown st)
       (ThreadResourceExecutor.history st
          ++ [EvPut (OTaskFuture (length (ThreadResourceExecutor.heap st)))])).
Proof.
  intros H1 H2. unfold ThreadResourceExecutor.submit, TaskFuture.new.
  rewrite H1, H2. reflexivity.
Qed.

(** A call of [submit] raises and leaves the executor as it was, or
    returns the reference of the future that it has put on the heap and
    on the queue. *)
Lemma submit_cases st (fn : callable R) (args : list value) (kw : kwargs) :
  (exists e, ThreadResourceExecutor.submit st fn args kw = (Raised e, st))
  \/ ThreadResourceExecutor.submit st fn args kw
     = (Returned (length (ThreadResourceExecutor.heap st)),
        ThreadResourceExecutor.mk
          (ThreadResourceExecutor._work_queue st
             ++ [OTaskFuture (length (ThreadResourceExecutor.heap st))])
          (ThreadResourceExecutor._workers st)
          (ThreadResourceExecutor.heap st ++ [TaskFuture.__init__ fn args kw])
          (ThreadResourceExecutor.in_shutdown st)
          (ThreadResourceExecutor.history st
             ++ [EvPut (OTaskFuture
                          (length (ThreadResourceExecutor.heap st)))])).
Proof.
  unfold ThreadResourceExecutor.submit, TaskFuture.new.
  destruct (keyword_clash ["self"; "fn"] kw); [left; eauto|].
  destruct (keyword_clash ["self"; "task"] kw); [left; eauto|].
  right. reflexivity.
Qed.

(** The calls of [submit] that [map] makes pass no keyword. *)
Lemma submit_positional st (func : callable R) (x : value) :
  ThreadResourceExecutor.submit st func [x] []
  = (Returned (length (ThreadResourceExecutor.heap st)),
     ThreadResourceExecutor.mk
       (ThreadResourceExecutor._work_queue st
          ++ [OTaskFuture (length (ThreadResourceExecutor.heap st))])
       (ThreadResourceExecutor._workers st)
       (ThreadResourceExecutor.heap st ++ [TaskFuture.__init__ func [x] []])
       (ThreadResourceExecutor.in_shutdown st)
       (ThreadResourceExecutor.history st
          ++ [EvPut (OTaskFuture (length (ThreadResourceExecutor.heap st)))])).
Proof. reflexivity. Qed.

End PoolSubmit.

(** Splits a step of [submit] into the call that raised, which [tac]
    settles, and the call that returned. *)
Ltac submitted tac :=
  match goal with
  | |- context [ThreadResourceExecutor.submit ?st ?fn ?args ?kw] =>
      destruct (submit_cases st fn args kw) as [[? ->]| ->];
      [cbn [snd fst]; tac|]
  end.

Section PoolSteps.
Context {R : Type}.
Implicit Types (self st : ThreadResourceExecutor.t R).
Implicit Types (th : ThreadResourceWorker.t R).
Implicit Types (future : TaskFuture.t R).

Lemma executor_eta st :
  ThreadResourceExecutor.mk (ThreadResourceExecutor._work_queue st)
    (ThreadResourceExecutor._workers st) (ThreadResourceExecutor.heap st)
    (ThreadResourceExecutor.in_shutdown st) (ThreadResourceExecutor.history st)
  = st.
Proof. destruct st; reflexivity. Qed.

Lemma work_idle w st th :
  ThreadResourceExecutor._workers st !! w = Some th ->
  ThreadResourceExecutor.mk (ThreadResourceExecutor._work_queue st)
    (<[w := th]> (ThreadResourceExecutor._workers st))
    (ThreadResourceExecutor.heap st) (ThreadResourceExecutor.in_shutdown st)
    (ThreadResourceExecutor.history st ++ [])
  = st.
Proof.
  intros Hw. rewrite list_insert_id by exact Hw. rewrite app_nil_r.
  apply executor_eta.
Qed.

Lemma work_worked w st : worked w st (ThreadResourceExecutor.work w st).
Proof.
  unfold ThreadResourceExecutor.work.
  destruct (ThreadResourceExecutor._workers st !! w) as [th|] eqn:Hw;
    [|constructor].
  unfold ThreadResourceWorker.run_step.
  destruct (ThreadResourceWorker.at_ th) as [|ref|ref| |e] eqn:Hat.
  - destruct (ThreadResourceExecutor._work_queue st) as [|x rest] eqn:Hq.
    + rewrite <- Hq, work_idle by exact Hw. constructor.
    + destruct x as [|ref|v].
      * exact (worked_get w st th ONone rest Hw Hat Hq).
      * exact (worked_get w st th (OTaskFuture ref) rest Hw Hat Hq).
      * exact (worked_get w st th (OValue v) rest Hw Hat Hq).
  - destruct (ThreadResourceExecutor.heap st !! ref) as [future|] eqn:Hf.
    + destruct (TaskFuture._task future _ _ _) as [[v|e] r] eqn:Hcall.
      * eapply worked_return; eauto.
      * destruct (is_Exception (exc_cls e)) eqn:He.
        -- eapply worked_except; eauto.
        -- eapply worked_die; eauto.
    + rewrite work_idle by exact Hw. constructor.
  - destruct (ThreadResourceExecutor.heap st !! ref) as [future|] eqn:Hf.
    + eapply worked_set; eauto.
    + rewrite work_idle by exact Hw. constructor.
  - rewrite work_idle by exact Hw. constructor.
  - rewrite work_idle by exact Hw. constructor.
Qed.

Lemma run_app (acts1 acts2 : list (ThreadResourceExecutor.action R)) st :
  ThreadResourceExecutor.run (acts1 ++ acts2) st
  = ThreadResourceExecutor.run acts2 (ThreadResourceExecutor.run acts1 st).
Proof.
  revert st. induction acts1 as [|a acts1 IH]; intros st; [reflexivity|].
  cbn. apply IH.
Qed.

(** The submissions of [map] are calls to [submit], one per leg of the
    comprehension: what a leg does to the executor is a [Submit] step. *)
Lemma submit_next_step (generator_stop : bool) (func : callable R)
    (x : value) (rest : list value) (futures : list nat) st :
  ThreadResourceExecutor.submit_next generator_stop func x rest futures st
  = (None,
     ThreadResourceExecutor.Submitting func rest
       (futures ++ [length (ThreadResourceExecutor.heap st)]),
     ThreadResourceExecutor.step
       (ThreadResourceExecutor.Submit func [x] []) st).
Proof. reflexivity. Qed.

(** A property that every step keeps holds after every interleaving. *)
Lemma run_invariant (P : ThreadResourceExecutor.t R -> Prop) :
  (forall a st, P st -> P (ThreadResourceExecutor.step a st)) ->
  forall acts st, P st -> P (ThreadResourceExecutor.run acts st).
Proof.
  intros Hstep acts. induction acts as [|a acts IH]; intros st HP;
    [exact HP|].
  cbn. apply IH, Hstep, HP.
Qed.

Lemma clean_init (resources : list R) :
  clean (ThreadResourceExecutor.__init__ resources).
Proof.
  unfold clean, ThreadResourceExecutor.__init__. cbn.
  repeat split; try constructor.
  induction resources; constructor; auto.
Qed.

Lemma clean_step (a : ThreadResourceExecutor.action R) st :
  clean st -> clean (ThreadResourceExecutor.step a st).
Proof.
  intros (Hq & Hh & Hw).
  destruct a as [w|fn args kw|]; cbn [ThreadResourceExecutor.step].
  - destruct (work_worked w st) as
      [ |th x rest Hth Hat Hqx |th ref fut v r Hth Hat Hf Hc
        |th ref fut e r Hth Hat Hf Hc He |th ref fut e r Hth Hat Hf Hc He
        |th ref fut Hth Hat Hf ];
      unfold clean; cbn.
    + auto.
    + rewrite Hqx in Hq. apply Forall_cons in Hq as [Hx Hrest].
      split; [exact Hrest|]. split.
      * apply Forall_app. split; [exact Hh|]. repeat constructor. exact Hx.
      * apply Forall_insert; [exact Hw|]. destruct x; try reflexivity.
        discriminate Hx.
    + split; [exact Hq|]. split.
      * apply Forall_app. split; [exact Hh|]. repeat constructor.
      * apply Forall_insert; [exact Hw|reflexivity].
    + split; [exact Hq|]. split.
      * apply Forall_app. split; [exact Hh|]. repeat constructor.
      * apply Forall_insert; [exact Hw|reflexivity].
    + split; [exact Hq|]. split.
      * apply Forall_app. split; [exact Hh|]. repeat constructor.
      * apply Forall_insert; [exact Hw|]. exact He.
    + split; [exact Hq|]. split.
      * apply Forall_app. split; [exact Hh|]. repeat constructor.
      * apply Forall_insert; [exact Hw|reflexivity].
  - submitted ltac:(repeat split; assumption).
    unfold clean; cbn. split; [|split; [|exact Hw]].
    + apply Forall_app. split; [exact Hq|]. repeat constructor.
    + apply Forall_app. split; [exact Hh|]. repeat constructor.
  - unfold ThreadResourceExecutor.shutdown_step.
    destruct (ThreadResourceExecutor.in_shutdown st) as [[|[|todo]|]|];
      try destruct (ThreadResourceExecutor.any_alive st);
      unfold clean; cbn; auto.
    all: split; [|split; [|exact Hw]].
    all: apply Forall_app; (split; [assumption|]); repeat constructor.
Qed.

(** C10: in every interleaving of calls to [submit] (those that [map]
    makes included), statements of a [shutdown] call and statements of the
    worker threads, started from a new pool, every object on the queue is
    [None] or a TaskFuture, so is every object that was ever put on it or
    taken from it, and no thread has ended on the [assert] of [run]. *)
Theorem assertion_never_fails (resources : list R)
    (acts : list (ThreadResourceExecutor.action R)) :
  let st :=
    ThreadResourceExecutor.run acts
      (ThreadResourceExecutor.__init__ resources) in
  Forall (fun x => expected_object x = true)
         (ThreadResourceExecutor._work_queue st)
  /\ Forall (fun ev => expected_event ev = true)
            (ThreadResourceExecutor.history st)
  /\ Forall (fun th => assertion_failed th = false)
            (ThreadResourceExecutor._workers st).
Proof.
  cbv zeta.
  apply (run_invariant clean clean_step acts), clean_init.
Qed.

End PoolSteps.

(* ===================================================================== *)
(** ** ThreadResourceExecutor: every future is accounted for *)
(* ===================================================================== *)

Section PoolAccounting.
Context {R : Type}.
Implicit Types (self st : ThreadResourceExecutor.t R).
Implicit Types (th : ThreadResourceWorker.t R).
Implicit Types (future : TaskFuture.t R).

Lemma sum_insert {A : Type} (g : A -> nat) (l : list A) (i : nat) (x y : A) :
  l !! i = Some y ->
  sum_list_with g (<[i := x]> l) + g y = sum_list_with g l + g x.
Proof.
  revert i. induction l as [|a l IH]; intros i Hi; [discriminate Hi|].
  destruct i as [|i]; cbn in Hi.
  - injection Hi as ->. cbn. lia.
  - specialize (IH i Hi).
    change (<[S i := x]> (a :: l)) with (a :: <[i := x]> l).
    change (g a + sum_list_with g (<[i := x]> l) + g y
            = g a + sum_list_with g l + g x).
    lia.
Qed.

Lemma sum_lookup_le {A : Type} (g : A -> nat) (l : list A) (i : nat) (y : A) :
  l !! i = Some y -> g y <= sum_list_with g l.
Proof.
  revert i. induction l as [|a l IH]; intros i Hi; [discriminate Hi|].
  destruct i as [|i]; cbn in Hi.
  - injection Hi as ->. cbn. lia.
  - specialize (IH i Hi).
    change (g y <= g a + sum_list_with g l). lia.
Qed.

Lemma ind_eqb_refl (n : nat) : ind (Nat.eqb n n) = 1.
Proof. rewrite Nat.eqb_refl. reflexivity. Qed.

Lemma ind_eqb_neq (n m : nat) : n <> m -> ind (Nat.eqb n m) = 0.
Proof. intros Hne. apply Nat.eqb_neq in Hne. rewrite Hne. reflexivity. Qed.

Lemma tuple6 (a b c d e f a' b' c' d' e' f' : nat) :
  a = a' -> b = b' -> c = c' -> d = d' -> e = e' -> f = f' ->
  (a, b, c, (d, e, f)) = (a', b', c', (d', e', f')).
Proof. intros; subst; reflexivity. Qed.

Lemma filled_from_app (h evs : list event) (ref : nat) future :
  filled_from h ref future -> filled_from (h ++ evs) ref future.
Proof.
  intros (w & o & Hin & Ho). exists w, o. split; [|exact Ho].
  apply in_or_app. left. exact Hin.
Qed.

Lemma lost_from_app (h evs : list event) (ref : nat) future :
  lost_from h ref future -> lost_from (h ++ evs) ref future.
Proof.
  intros (w & e & Hin & Ho). exists w, e. split; [|exact Ho].
  apply in_or_app. left. exact Hin.
Qed.

(** What a future is known to be in a phase does not depend on anything
    but the future and the history, and survives more history. *)
Lemma in_phase_mono st st' (ref : nat) future (p : phase) (evs : list event) :
  in_phase st ref future p ->
  census st' ref = census st ref ->
  ThreadResourceExecutor.history st'
  = ThreadResourceExecutor.history st ++ evs ->
  in_phase st' ref future p.
Proof.
  intros [Hc Hp] Hc' Hh. split; [congruence|]. rewrite Hh.
  destruct p; try exact Hp.
  - destruct Hp as [Hfin Hp]. split; [exact Hfin|].
    apply filled_from_app, Hp.
  - destruct Hp as [Hfin Hp]. split; [exact Hfin|].
    apply filled_from_app, Hp.
  - destruct Hp as [Hfin Hp]. split; [exact Hfin|].
    apply lost_from_app, Hp.
Qed.

Lemma census_split st (ref a b c d e f : nat) :
  census st ref = (a, b, c, (d, e, f)) <->
  queued ref (ThreadResourceExecutor._work_queue st) = a
  /\ trying ref (ThreadResourceExecutor._workers st) = b
  /\ setting ref (ThreadResourceExecutor._workers st) = c
  /\ called ref (ThreadResourceExecutor.history st) = d
  /\ written ref (ThreadResourceExecutor.history st) = e
  /\ signalled ref (ThreadResourceExecutor.history st) = f.
Proof.
  unfold census. split.
  - intros Heq. injection Heq. auto 10.
  - intros (-> & -> & -> & -> & -> & ->). reflexivity.
Qed.

Lemma census_same st st' (ref : nat) :
  queued ref (ThreadResourceExecutor._work_queue st')
  = queued ref (ThreadResourceExecutor._work_queue st) ->
  trying ref (ThreadResourceExecutor._workers st')
  = trying ref (ThreadResourceExecutor._workers st) ->
  setting ref (ThreadResourceExecutor._workers st')
  = setting ref (ThreadResourceExecutor._workers st) ->
  called ref (ThreadResourceExecutor.history st')
  = called ref (ThreadResourceExecutor.history st) ->
  written ref (ThreadResourceExecutor.history st')
  = written ref (ThreadResourceExecutor.history st) ->
  signalled ref (ThreadResourceExecutor.history st')
  = signalled ref (ThreadResourceExecutor.history st) ->
  census st' ref = census st ref.
Proof. unfold census. intros -> -> -> -> -> ->. reflexivity. Qed.

(** Replacing thread [w] moves its references, and only its. *)
Lemma swap_thread (ws : list (ThreadResourceWorker.t R)) (w : nat) th th'
    (ref : nat) :
  ws !! w = Some th ->
  trying ref (<[w := th']> ws) + at_try ref th = trying ref ws + at_try ref th'
  /\ setting ref (<[w := th']> ws) + at_set ref th
     = setting ref ws + at_set ref th'
  /\ at_try ref th <= trying ref ws
  /\ at_set ref th <= setting ref ws.
Proof.
  intros Hw. unfold trying, setting. repeat split.
  - apply sum_insert, Hw.
  - apply sum_insert, Hw.
  - eapply sum_lookup_le, Hw.
  - eapply sum_lookup_le, Hw.
Qed.

Lemma called_app (ref : nat) (h evs : list event) :
  called ref (h ++ evs) = called ref h + called ref evs.
Proof. apply sum_list_with_app. Qed.

Lemma written_app (ref : nat) (h evs : list event) :
  written ref (h ++ evs) = written ref h + written ref evs.
Proof. apply sum_list_with_app. Qed.

Lemma signalled_app (ref : nat) (h evs : list event) :
  signalled ref (h ++ evs) = signalled ref h + signalled ref evs.
Proof. apply sum_list_with_app. Qed.

Lemma queued_app (ref : nat) (q q' : list object) :
  queued ref (q ++ q') = queued ref q + queued ref q'.
Proof. apply sum_list_with_app. Qed.

Lemma queued_cons (ref : nat) (x : object) (q : list object) :
  queued ref (x :: q) = in_queue ref x + queued ref q.
Proof. reflexivity. Qed.

(** The census of a future read off its phase. *)
Lemma phase_census st (ref : nat) future (p : phase) :
  in_phase st ref future p ->
  queued ref (ThreadResourceExecutor._work_queue st) = fst (fst (fst (census_of p)))
  /\ trying ref (ThreadResourceExecutor._workers st)
     = snd (fst (fst (census_of p)))
  /\ setting ref (ThreadResourceExecutor._workers st)
     = snd (fst (census_of p))
  /\ called ref (ThreadResourceExecutor.history st)
     = fst (fst (snd (census_of p)))
  /\ written ref (ThreadResourceExecutor.history st)
     = snd (fst (snd (census_of p)))
  /\ signalled ref (ThreadResourceExecutor.history st)
     = snd (snd (census_of p)).
Proof.
  intros [Hc _]. destruct (census_of p) as [[[a b] c] [[d e] f]].
  apply census_split in Hc. exact Hc.
Qed.

Lemma called_cons (ref : nat) (ev : event) (h : list event) :
  called ref (ev :: h) = is_call ref ev + called ref h.
Proof. reflexivity. Qed.

Lemma written_cons (ref : nat) (ev : event) (h : list event) :
  written ref (ev :: h) = is_write ref ev + written ref h.
Proof. reflexivity. Qed.

Lemma signalled_cons (ref : nat) (ev : event) (h : list event) :
  signalled ref (ev :: h) = is_set ref ev + signalled ref h.
Proof. reflexivity. Qed.

Lemma called_nil (ref : nat) : called ref [] = 0.
Proof. reflexivity. Qed.

Lemma written_nil (ref : nat) : written ref [] = 0.
Proof. reflexivity. Qed.

Lemma signalled_nil (ref : nat) : signalled ref [] = 0.
Proof. reflexivity. Qed.

Lemma queued_nil (ref : nat) : queued ref [] = 0.
Proof. reflexivity. Qed.

(** A future that the step leaves alone stays in its phase. *)
Lemma accounted_other st st' (ref : nat) (evs : list event) :
  accounted st ->
  ThreadResourceExecutor.heap st' !! ref
  = ThreadResourceExecutor.heap st !! ref ->
  census st' ref = census st ref ->
  ThreadResourceExecutor.history st'
  = ThreadResourceExecutor.history st ++ evs ->
  match ThreadResourceExecutor.heap st' !! ref with
  | Some future => exists p, in_phase st' ref future p
  | None => census st' ref = (0, 0, 0, (0, 0, 0))
  end.
Proof.
  intros Hacc Hheap Hcensus Hhist. specialize (Hacc ref).
  rewrite Hheap.
  destruct (ThreadResourceExecutor.heap st !! ref) as [future|].
  - destruct Hacc as [p Hp]. exists p.
    eapply in_phase_mono; eassumption.
  - congruence.
Qed.

End PoolAccounting.

Create Rewrite HintDb census.
#[local] Hint Rewrite @called_app @written_app @signalled_app @queued_app
  @called_cons @written_cons @signalled_cons @queued_cons
  @called_nil @written_nil @signalled_nil @queued_nil : census.

(** Reduces the counts of explicit events, queue items and threads. *)
Ltac count :=
  cbn [ThreadResourceWorker.at_ ThreadResourceExecutor._work_queue
       ThreadResourceExecutor._workers ThreadResourceExecutor.heap
       ThreadResourceExecutor.history ThreadResourceExecutor.in_shutdown
       ThreadResourceExecutor.put fst snd census_of] in *;
  autorewrite with census in *;
  unfold at_try, at_set, in_queue, is_call, is_write, is_set in *;
  cbn [ThreadResourceWorker.at_ ThreadResourceExecutor._work_queue
       ThreadResourceExecutor._workers ThreadResourceExecutor.heap
       ThreadResourceExecutor.history ThreadResourceExecutor.in_shutdown
       ThreadResourceExecutor.put fst snd census_of] in *.

Section PoolInvariant.
Context {R : Type}.
Implicit Types (self st : ThreadResourceExecutor.t R).
Implicit Types (th : ThreadResourceWorker.t R).
Implicit Types (future : TaskFuture.t R).

Lemma accounted_init (resources : list R) :
  accounted (ThreadResourceExecutor.__init__ resources).
Proof.
  intros ref. cbn. apply census_split. cbn. repeat split.
  - induction resources as [|r rs IH]; [reflexivity|exact IH].
  - induction resources as [|r rs IH]; [reflexivity|exact IH].
Qed.

Lemma accounted_get w st th (x : object) (rest : list object) :
  accounted st ->
  ThreadResourceExecutor._workers st !! w = Some th ->
  ThreadResourceWorker.at_ th = ThreadResourceWorker.AtGet ->
  ThreadResourceExecutor._work_queue st = x :: rest ->
  accounted
    (ThreadResourceExecutor.mk rest
       (<[w := ThreadResourceWorker.mk (ThreadResourceWorker._resource th)
                 (match x with
                  | ONone => ThreadResourceWorker.Returned_run
                  | OTaskFuture ref => ThreadResourceWorker.AtTry ref
                  | OValue _ =>
                      ThreadResourceWorker.Died
                        ThreadResourceWorker.assertion_error
                  end)]> (ThreadResourceExecutor._workers st))
       (ThreadResourceExecutor.heap st)
       (ThreadResourceExecutor.in_shutdown st)
       (ThreadResourceExecutor.history st ++ [EvGet w x])).
Proof.
  intros Hacc Hth Hat Hq ref.
  set (th' := ThreadResourceWorker.mk _ _).
  set (st' := ThreadResourceExecutor.mk _ _ _ _ _).
  destruct (swap_thread _ w th th' ref Hth) as (Ht & Hs & Hlt & Hls).
  assert (Hother :
    in_queue ref x = 0 ->
    match ThreadResourceExecutor.heap st' !! ref with
    | Some future => exists p, in_phase st' ref future p
    | None => census st' ref = (0, 0, 0, (0, 0, 0))
    end).
  { intros Hx.
    apply (accounted_other st st' ref [EvGet w x] Hacc);
      [reflexivity| |reflexivity].
    apply census_same; subst st' th'; count; rewrite ?Hat, ?Hq in *; count;
      try lia.
    - destruct x; count; lia.
    - destruct x; count; lia. }
  destruct x as [|f|v]; try (apply Hother; reflexivity).
  destruct (Nat.eq_dec f ref) as [->|Hne];
    [|apply Hother; cbn; apply ind_eqb_neq, Hne].
  clear Hother. specialize (Hacc ref).
  change (ThreadResourceExecutor.heap st')
    with (ThreadResourceExecutor.heap st).
  destruct (ThreadResourceExecutor.heap st !! ref) as [future|].
  - destruct Hacc as [p Hp].
    pose proof (phase_census _ _ _ _ Hp) as (Hcq & Hct & Hcs & Hcc & Hcw & Hci).
    subst th'. count. rewrite ?Hat, ?Hq in *. count.
    rewrite ?ind_eqb_refl in *.
    destruct p; count; try lia.
    exists Running. split; [|apply Hp].
    apply census_split. subst st'. count.
    repeat split; lia.
  - apply census_split in Hacc as (Hcq & _). rewrite Hq in Hcq.
    count. rewrite ind_eqb_refl in Hcq. lia.
Qed.

(** The steps of a thread that holds future [f]: the thread moves on,
    the heap changes at [f] at most, and the events are about [f]. *)
Lemma accounted_holder_other w st th th' (f ref : nat) future'
    (evs : list event) :
  accounted st ->
  ThreadResourceExecutor._workers st !! w = Some th ->
  f <> ref ->
  at_try ref th = 0 -> at_set ref th = 0 ->
  at_try ref th' = 0 -> at_set ref th' = 0 ->
  called ref evs = 0 -> written ref evs = 0 -> signalled ref evs = 0 ->
  forall heap',
    heap' = ThreadResourceExecutor.heap st
    \/ heap' = <[f := future']> (ThreadResourceExecutor.heap st) ->
    let st' :=
      ThreadResourceExecutor.mk (ThreadResourceExecutor._work_queue st)
        (<[w := th']> (ThreadResourceExecutor._workers st)) heap'
        (ThreadResourceExecutor.in_shutdown st)
        (ThreadResourceExecutor.history st ++ evs) in
    match ThreadResourceExecutor.heap st' !! ref with
    | Some future => exists p, in_phase st' ref future p
    | None => census st' ref = (0, 0, 0, (0, 0, 0))
    end.
Proof.
  intros Hacc Hth Hne Ht1 Hs1 Ht2 Hs2 Hc Hw Hs heap' Hheap st'.
  destruct (swap_thread _ w th th' ref Hth) as (Ht & Hst & _ & _).
  apply (accounted_other st st' ref evs Hacc); [| |reflexivity].
  - subst st'. cbn [ThreadResourceExecutor.heap].
    destruct Hheap as [->| ->]; [reflexivity|].
    apply list_lookup_insert_ne, Hne.
  - apply census_same; subst st'; count; lia.
Qed.

Lemma fresh_running st (ref : nat) future w th :
  accounted st ->
  ThreadResourceExecutor._workers st !! w = Some th ->
  ThreadResourceWorker.at_ th = ThreadResourceWorker.AtTry ref ->
  ThreadResourceExecutor.heap st !! ref = Some future ->
  in_phase st ref future Running.
Proof.
  intros Hacc Hth Hat Hf. specialize (Hacc ref). rewrite Hf in Hacc.
  destruct Hacc as [p Hp].
  pose proof (phase_census _ _ _ _ Hp) as (_ & Hct & _).
  destruct (swap_thread _ w th th ref Hth) as (_ & _ & Hlt & _).
  count. rewrite Hat, ind_eqb_refl in Hlt.
  destruct p; count; try lia. exact Hp.
Qed.

Lemma filled_setting st (ref : nat) future w th :
  accounted st ->
  ThreadResourceExecutor._workers st !! w = Some th ->
  ThreadResourceWorker.at_ th = ThreadResourceWorker.AtSet ref ->
  ThreadResourceExecutor.heap st !! ref = Some future ->
  in_phase st ref future Filled.
Proof.
  intros Hacc Hth Hat Hf. specialize (Hacc ref). rewrite Hf in Hacc.
  destruct Hacc as [p Hp].
  pose proof (phase_census _ _ _ _ Hp) as (_ & _ & Hcs & _).
  destruct (swap_thread _ w th th ref Hth) as (_ & _ & _ & Hls).
  count. rewrite Hat, ind_eqb_refl in Hls.
  destruct p; count; try lia. exact Hp.
Qed.

Lemma accounted_worked w st st' :
  accounted st -> worked w st st' -> accounted st'.
Proof.
  intros Hacc Hstep.
  destruct Hstep as
    [ |th x rest Hth Hat Hqx |th f fut v r Hth Hat Hf Hc
      |th f fut e r Hth Hat Hf Hc He |th f fut e r Hth Hat Hf Hc He
      |th f fut Hth Hat Hf ].
  - exact Hacc.
  - apply accounted_get; assumption.
  - (* the task returned *)
    intros ref. destruct (Nat.eq_dec f ref) as [<-|Hne].
    + pose proof (fresh_running _ _ _ _ _ Hacc Hth Hat Hf) as Hp.
      pose proof (phase_census _ _ _ _ Hp) as (Hcq & Hct & Hcs & Hcc & Hcw & Hci).
      destruct Hp as [_ (Hfin & Hres & Hexc)].
      set (th' := ThreadResourceWorker.mk _ _).
      destruct (swap_thread _ w th th' f Hth) as (Ht & Hst & _ & _).
      cbn [ThreadResourceExecutor.heap].
      rewrite list_lookup_insert_eq by (eapply lookup_lt_Some, Hf).
      exists Filled. split.
      * apply census_split. subst th'. count. rewrite Hat in *.
        rewrite ?ind_eqb_refl in *. repeat split; lia.
      * split; [exact Hfin|]. exists w, (Returned v). split; [|split].
        -- cbn. apply in_or_app. right. left. reflexivity.
        -- exists (ThreadResourceWorker._resource th). cbn. rewrite Hc.
           reflexivity.
        -- cbn. split; [reflexivity|exact Hexc].
    + apply (accounted_holder_other w st th _ f ref
               (TaskFuture.set_result v fut)); auto; count;
        rewrite ?Hat, ?(ind_eqb_neq _ _ Hne); reflexivity.
  - (* the task raised an error that the [except] clause catches *)
    intros ref. destruct (Nat.eq_dec f ref) as [<-|Hne].
    + pose proof (fresh_running _ _ _ _ _ Hacc Hth Hat Hf) as Hp.
      pose proof (phase_census _ _ _ _ Hp) as (Hcq & Hct & Hcs & Hcc & Hcw & Hci).
      destruct Hp as [_ (Hfin & Hres & Hexc)].
      set (th' := ThreadResourceWorker.mk _ _).
      destruct (swap_thread _ w th th' f Hth) as (Ht & Hst & _ & _).
      cbn [ThreadResourceExecutor.heap].
      rewrite list_lookup_insert_eq by (eapply lookup_lt_Some, Hf).
      exists Filled. split.
      * apply census_split. subst th'. count. rewrite Hat in *.
        rewrite ?ind_eqb_refl in *. repeat split; lia.
      * split; [exact Hfin|]. exists w, (Raised e). split; [|split].
        -- cbn. apply in_or_app. right. left. reflexivity.
        -- exists (ThreadResourceWorker._resource th). cbn. rewrite Hc.
           reflexivity.
        -- cbn. split; [exact Hres|]. split; [reflexivity|exact He].
    + apply (accounted_holder_other w st th _ f ref
               (TaskFuture.set_excinfo (sys_exc_info e) fut)); auto; count;
        rewrite ?Hat, ?(ind_eqb_neq _ _ Hne); reflexivity.
  - (* the task raised an error that the [except] clause lets through *)
    intros ref. destruct (Nat.eq_dec f ref) as [<-|Hne].
    + pose proof (fresh_running _ _ _ _ _ Hacc Hth Hat Hf) as Hp.
      pose proof (phase_census _ _ _ _ Hp) as (Hcq & Hct & Hcs & Hcc & Hcw & Hci).
      destruct Hp as [_ Hfresh].
      set (th' := ThreadResourceWorker.mk _ _).
      destruct (swap_thread _ w th th' f Hth) as (Ht & Hst & _ & _).
      cbn [ThreadResourceExecutor.heap]. rewrite Hf.
      exists Lost. split.
      * apply census_split. subst th'. count. rewrite Hat in *.
        rewrite ?ind_eqb_refl in *. repeat split; lia.
      * split; [exact Hfresh|]. exists w, e. split; [|split].
        -- cbn. apply in_or_app. right. left. reflexivity.
        -- exists (ThreadResourceWorker._resource th). rewrite Hc.
           reflexivity.
        -- exact He.
    + apply (accounted_holder_other w st th _ f ref fut); auto; count;
        rewrite ?Hat, ?(ind_eqb_neq _ _ Hne); reflexivity.
  - (* the event is set *)
    intros ref. destruct (Nat.eq_dec f ref) as [<-|Hne].
    + pose proof (filled_setting _ _ _ _ _ Hacc Hth Hat Hf) as Hp.
      pose proof (phase_census _ _ _ _ Hp) as (Hcq & Hct & Hcs & Hcc & Hcw & Hci).
      destruct Hp as [_ (Hfin & w0 & o & Hin & Ho & Hslots)].
      set (th' := ThreadResourceWorker.mk _ _).
      destruct (swap_thread _ w th th' f Hth) as (Ht & Hst & _ & _).
      cbn [ThreadResourceExecutor.heap].
      rewrite list_lookup_insert_eq by (eapply lookup_lt_Some, Hf).
      exists Done. split.
      * apply census_split. subst th'. count. rewrite Hat in *.
        rewrite ?ind_eqb_refl in *. repeat split; lia.
      * split; [reflexivity|]. exists w0, o. split; [|split].
        -- cbn. apply in_or_app. left. exact Hin.
        -- exact Ho.
        -- destruct o; exact Hslots.
    + apply (accounted_holder_other w st th _ f ref
               (TaskFuture.set_finished fut)); auto; count;
        rewrite ?Hat, ?(ind_eqb_neq _ _ Hne); reflexivity.
Qed.

Lemma lookup_snoc_other {A : Type} (l : list A) (x : A) (i : nat) :
  i <> length l -> (l ++ [x]) !! i = l !! i.
Proof.
  intros Hne. destruct (lt_dec i (length l)) as [Hlt|Hge].
  - apply lookup_app_l, Hlt.
  - rewrite (lookup_ge_None_2 l i) by lia.
    apply lookup_ge_None_2. rewrite length_app. cbn. lia.
Qed.

Lemma accounted_submit st (fn : callable R) (args : list value) (kw : kwargs) :
  accounted st ->
  accounted (snd (ThreadResourceExecutor.submit st fn args kw)).
Proof.
  intros Hacc ref. submitted ltac:(apply Hacc). cbn [snd].
  set (f := length (ThreadResourceExecutor.heap st)).
  set (st' := ThreadResourceExecutor.mk _ _ _ _ _).
  destruct (Nat.eq_dec f ref) as [<-|Hne].
  - specialize (Hacc f).
    rewrite (lookup_ge_None_2 (ThreadResourceExecutor.heap st) f) in Hacc
      by (subst f; lia).
    apply census_split in Hacc as (Hcq & Hct & Hcs & Hcc & Hcw & Hci).
    subst st'. cbn [ThreadResourceExecutor.heap].
    rewrite list_lookup_middle by reflexivity.
    exists Queued. split.
    + apply census_split. count. rewrite ?ind_eqb_refl. repeat split; lia.
    + repeat split.
  - apply (accounted_other st st' ref [EvPut (OTaskFuture f)] Hacc);
      [|apply census_same|reflexivity]; subst st'; count;
      rewrite ?(ind_eqb_neq _ _ Hne); try lia.
    apply lookup_snoc_other. subst f. auto.
Qed.

Lemma accounted_shutdown_step st :
  accounted st -> accounted (ThreadResourceExecutor.shutdown_step st).
Proof.
  intros Hacc ref. unfold ThreadResourceExecutor.shutdown_step.
  destruct (ThreadResourceExecutor.in_shutdown st) as [[|[|todo]|]|];
    try destruct (ThreadResourceExecutor.any_alive st).
  all: try (eapply (accounted_other st _ ref [] Hacc);
            [reflexivity|reflexivity|symmetry; apply app_nil_r]).
  all: eapply (accounted_other st _ ref [EvPut ONone] Hacc);
         [reflexivity| |reflexivity].
  all: apply census_same; count; lia.
Qed.

Lemma accounted_step (a : ThreadResourceExecutor.action R) st :
  accounted st -> accounted (ThreadResourceExecutor.step a st).
Proof.
  intros Hacc. destruct a as [w|fn args kw|]; cbn.
  - eapply accounted_worked; [exact Hacc|apply work_worked].
  - apply accounted_submit, Hacc.
  - apply accounted_shutdown_step, Hacc.
Qed.

(** Every interleaving from a new pool keeps every future accounted for. *)
Lemma accounted_run (resources : list R)
    (acts : list (ThreadResourceExecutor.action R)) :
  accounted
    (ThreadResourceExecutor.run acts
       (ThreadResourceExecutor.__init__ resources)).
Proof.
  apply (run_invariant accounted accounted_step), accounted_init.
Qed.

End PoolInvariant.

(* ===================================================================== *)
(** ** TaskFuture: written once, then signalled, then left alone *)
(* ===================================================================== *)

Section FutureFacts.
Context {R : Type}.
Implicit Types (self st : ThreadResourceExecutor.t R).
Implicit Types (th : ThreadResourceWorker.t R).
Implicit Types (future : TaskFuture.t R).

Lemma call_counted (w ref : nat) (o : outcome value) (h : list event) :
  In (EvCall w ref o) h -> 1 <= called ref h.
Proof.
  induction h as [|ev h IH]; intros Hin; [destruct Hin|].
  rewrite called_cons. destruct Hin as [->|Hin].
  - cbn. rewrite ind_eqb_refl. lia.
  - specialize (IH Hin). lia.
Qed.

Lemma call_unique (w w' ref : nat) (o o' : outcome value) (h : list event) :
  called ref h = 1 ->
  In (EvCall w ref o) h -> In (EvCall w' ref o') h ->
  w = w' /\ o = o'.
Proof.
  induction h as [|ev h IH]; intros Hone Hin Hin'; [destruct Hin|].
  rewrite called_cons in Hone.
  destruct Hin as [->|Hin], Hin' as [Heq|Hin'].
  - injection Heq as -> ->. split; reflexivity.
  - apply call_counted in Hin'. cbn in Hone. rewrite ind_eqb_refl in Hone. lia.
  - apply call_counted in Hin. subst ev. cbn in Hone.
    rewrite ind_eqb_refl in Hone. lia.
  - pose proof (call_counted _ _ _ _ Hin) as Hge.
    apply IH; [lia|exact Hin|exact Hin'].
Qed.

Lemma slots_hold_caught (o : outcome value) future :
  slots_hold o future -> caught o = true.
Proof. destruct o as [v|e]; [reflexivity|]. intros (_ & _ & He). exact He. Qed.

Lemma slots_hold_not_both (o : outcome value) future :
  slots_hold o future -> both_populated future = false.
Proof.
  unfold both_populated. destruct o as [v|e].
  - intros [_ ->]. destruct (TaskFuture._result future); reflexivity.
  - intros (-> & _). reflexivity.
Qed.

Lemma fresh_not_both future : fresh future -> both_populated future = false.
Proof. unfold both_populated. intros (_ & -> & _). reflexivity. Qed.

(** The phase of a future whose event is set is [Done]. *)
Lemma finished_done st (ref : nat) future (p : phase) :
  in_phase st ref future p ->
  TaskFuture._finished future = true ->
  p = Done.
Proof.
  intros [_ Hp] Hfin. destruct p; try reflexivity.
  - destruct Hp as [Hf _]. congruence.
  - destruct Hp as [Hf _]. congruence.
  - destruct Hp as [Hf _]. congruence.
  - destruct Hp as [[Hf _] _]. congruence.
Qed.

(** Once the event of a future is set, no step changes the future. *)
Lemma done_stable_step (a : ThreadResourceExecutor.action R) st (ref : nat)
    future :
  accounted st ->
  ThreadResourceExecutor.heap st !! ref = Some future ->
  TaskFuture._finished future = true ->
  ThreadResourceExecutor.heap (ThreadResourceExecutor.step a st) !! ref
  = Some future.
Proof.
  intros Hacc Hf Hfin.
  pose proof (Hacc ref) as Href. rewrite Hf in Href. destruct Href as [p Hp].
  pose proof (finished_done _ _ _ _ Hp Hfin) as ->.
  pose proof (phase_census _ _ _ _ Hp) as (_ & Hct & Hcs & _).
  destruct a as [w|fn args kw|]; cbn [ThreadResourceExecutor.step].
  - destruct (work_worked w st) as
      [ |th x rest Hth Hat Hqx |th f fut v r Hth Hat Hg Hc
        |th f fut e r Hth Hat Hg Hc He |th f fut e r Hth Hat Hg Hc He
        |th f fut Hth Hat Hg ];
      cbn [ThreadResourceExecutor.heap]; try exact Hf.
    all: destruct (swap_thread _ w th th ref Hth) as (_ & _ & Hlt & Hls).
    all: destruct (Nat.eq_dec f ref) as [->|Hne];
      [ count; rewrite Hat, ind_eqb_refl in *; lia
      | rewrite list_lookup_insert_ne by exact Hne; exact Hf ].
  - submitted ltac:(exact Hf). cbn.
    rewrite lookup_app_l by (eapply lookup_lt_Some, Hf). exact Hf.
  - unfold ThreadResourceExecutor.shutdown_step.
    destruct (ThreadResourceExecutor.in_shutdown st) as [[|[|todo]|]|];
      try destruct (ThreadResourceExecutor.any_alive st); exact Hf.
Qed.

Lemma done_stable (acts : list (ThreadResourceExecutor.action R)) st
    (ref : nat) future :
  accounted st ->
  ThreadResourceExecutor.heap st !! ref = Some future ->
  TaskFuture._finished future = true ->
  ThreadResourceExecutor.heap (ThreadResourceExecutor.run acts st) !! ref
  = Some future.
Proof.
  revert st. induction acts as [|a acts IH]; intros st Hacc Hf Hfin;
    [exact Hf|].
  cbn. apply IH; [apply accounted_step, Hacc| |exact Hfin].
  apply done_stable_step; assumption.
Qed.

Lemma set_after_write_app (ref n : nat) (h evs : list event) :
  set_after_write ref n (h ++ evs)
  = set_after_write ref n h && set_after_write ref (n + written ref h) evs.
Proof.
  revert n. induction h as [|ev h IH]; intros n.
  - cbn. rewrite Nat.add_0_r. reflexivity.
  - cbn [app set_after_write]. rewrite IH, written_cons, andb_assoc.
    rewrite Nat.add_assoc. reflexivity.
Qed.

(** In every step, the events about a future come in the order call,
    store, set. *)
Lemma set_after_write_step (a : ThreadResourceExecutor.action R) st
    (ref : nat) :
  accounted st ->
  set_after_write ref 0 (ThreadResourceExecutor.history st) = true ->
  set_after_write ref 0
    (ThreadResourceExecutor.history (ThreadResourceExecutor.step a st))
  = true.
Proof.
  intros Hacc Hord.
  destruct a as [w|fn args kw|]; cbn [ThreadResourceExecutor.step].
  - destruct (work_worked w st) as
      [ |th x rest Hth Hat Hqx |th f fut v r Hth Hat Hg Hc
        |th f fut e r Hth Hat Hg Hc He |th f fut e r Hth Hat Hg Hc He
        |th f fut Hth Hat Hg ];
      cbn [ThreadResourceExecutor.history]; try exact Hord;
      rewrite set_after_write_app, Hord; cbn; try reflexivity.
    destruct (Nat.eq_dec f ref) as [->|Hne].
    + pose proof (filled_setting _ _ _ _ _ Hacc Hth Hat Hg) as Hp.
      pose proof (phase_census _ _ _ _ Hp) as (_ & _ & _ & _ & Hcw & _).
      cbn in Hcw. rewrite Hcw, ind_eqb_refl. reflexivity.
    + rewrite (ind_eqb_neq _ _ Hne). reflexivity.
  - submitted ltac:(exact Hord). cbn. rewrite set_after_write_app, Hord.
    reflexivity.
  - unfold ThreadResourceExecutor.shutdown_step.
    destruct (ThreadResourceExecutor.in_shutdown st) as [[|[|todo]|]|];
      try destruct (ThreadResourceExecutor.any_alive st);
      cbn; try exact Hord.
    all: rewrite set_after_write_app, Hord; reflexivity.
Qed.

Lemma set_after_write_run (resources : list R)
    (acts : list (ThreadResourceExecutor.action R)) (ref : nat) :
  set_after_write ref 0
    (ThreadResourceExecutor.history
       (ThreadResourceExecutor.run acts
          (ThreadResourceExecutor.__init__ resources))) = true.
Proof.
  enough (Hboth :
    accounted (ThreadResourceExecutor.run acts
                 (ThreadResourceExecutor.__init__ resources))
    /\ set_after_write ref 0
         (ThreadResourceExecutor.history
            (ThreadResourceExecutor.run acts
               (ThreadResourceExecutor.__init__ resources))) = true)
    by apply Hboth.
  apply (run_invariant
    (fun st => accounted st
       /\ set_after_write ref 0 (ThreadResourceExecutor.history st) = true)).
  - intros a st [Hacc Hord]. split.
    + apply accounted_step, Hacc.
    + apply set_after_write_step; assumption.
  - split; [apply accounted_init|reflexivity].
Qed.

(** What the history says of a call that the [try] statement handled. *)
Lemma caught_call_written st (ref w : nat) (o : outcome value) future :
  accounted st ->
  ThreadResourceExecutor.heap st !! ref = Some future ->
  In (EvCall w ref o) (ThreadResourceExecutor.history st) ->
  caught o = true ->
  written ref (ThreadResourceExecutor.history st) = 1
  /\ slots_hold o future.
Proof.
  intros Hacc Hf Hin Hcaught.
  pose proof (Hacc ref) as Href. rewrite Hf in Href. destruct Href as [p Hp].
  pose proof (phase_census _ _ _ _ Hp) as (_ & _ & _ & Hcc & Hcw & _).
  pose proof (call_counted _ _ _ _ Hin) as Hge.
  destruct Hp as [_ Hp].
  destruct p; cbn in Hcc, Hcw; try lia.
  - destruct Hp as (_ & w' & o' & Hin' & _ & Hslots).
    destruct (call_unique _ _ _ _ _ _ Hcc Hin Hin') as [_ ->].
    split; assumption.
  - destruct Hp as (_ & w' & o' & Hin' & _ & Hslots).
    destruct (call_unique _ _ _ _ _ _ Hcc Hin Hin') as [_ ->].
    split; assumption.
  - destruct Hp as (_ & w' & e & Hin' & _ & He).
    destruct (call_unique _ _ _ _ _ _ Hcc Hin Hin') as [_ ->].
    unfold caught in Hcaught. congruence.
Qed.

(** What the history says of a call that took its thread down. *)
Lemma uncaught_call_lost st (ref w : nat) (e : exception) future :
  accounted st ->
  ThreadResourceExecutor.heap st !! ref = Some future ->
  In (EvCall w ref (Raised e)) (ThreadResourceExecutor.history st) ->
  is_Exception (exc_cls e) = false ->
  written ref (ThreadResourceExecutor.history st) = 0
  /\ signalled ref (ThreadResourceExecutor.history st) = 0
  /\ fresh future.
Proof.
  intros Hacc Hf Hin He.
  pose proof (Hacc ref) as Href. rewrite Hf in Href. destruct Href as [p Hp].
  pose proof (phase_census _ _ _ _ Hp) as (_ & _ & _ & Hcc & Hcw & Hci).
  pose proof (call_counted _ _ _ _ Hin) as Hge.
  destruct Hp as [_ Hp].
  destruct p; cbn in Hcc, Hcw, Hci; try lia.
  - destruct Hp as (_ & w' & o' & Hin' & _ & Hslots).
    destruct (call_unique _ _ _ _ _ _ Hcc Hin Hin') as [_ <-].
    apply slots_hold_caught in Hslots. unfold caught in Hslots. congruence.
  - destruct Hp as (_ & w' & o' & Hin' & _ & Hslots).
    destruct (call_unique _ _ _ _ _ _ Hcc Hin Hin') as [_ <-].
    apply slots_hold_caught in Hslots. unfold caught in Hslots. congruence.
  - destruct Hp as [Hfresh _]. auto.
Qed.

(** The history only grows. *)
Lemma history_step (a : ThreadResourceExecutor.action R) st :
  exists evs,
    ThreadResourceExecutor.history (ThreadResourceExecutor.step a st)
    = ThreadResourceExecutor.history st ++ evs.
Proof.
  destruct a as [w|fn args kw|]; cbn [ThreadResourceExecutor.step].
  - destruct (work_worked w st); cbn [ThreadResourceExecutor.history];
      try (eexists; reflexivity).
    exists []. symmetry. apply app_nil_r.
  - submitted ltac:(exists []; symmetry; apply app_nil_r). cbn. eexists; reflexivity.
  - unfold ThreadResourceExecutor.shutdown_step.
    destruct (ThreadResourceExecutor.in_shutdown st) as [[|[|todo]|]|];
      try destruct (ThreadResourceExecutor.any_alive st); cbn;
      try (exists []; symmetry; apply app_nil_r).
    all: eexists; reflexivity.
Qed.

Lemma history_run (acts : list (ThreadResourceExecutor.action R)) st :
  exists evs,
    ThreadResourceExecutor.history (ThreadResourceExecutor.run acts st)
    = ThreadResourceExecutor.history st ++ evs.
Proof.
  revert st. induction acts as [|a acts IH]; intros st.
  - exists []. symmetry. apply app_nil_r.
  - cbn. destruct (IH (ThreadResourceExecutor.step a st)) as [evs2 ->].
    destruct (history_step a st) as [evs1 ->].
    exists (evs1 ++ evs2). symmetry. apply app_assoc.
Qed.

(** No step takes a future off the heap. *)
Lemma heap_step (a : ThreadResourceExecutor.action R) st (ref : nat) future :
  ThreadResourceExecutor.heap st !! ref = Some future ->
  exists future',
    ThreadResourceExecutor.heap (ThreadResourceExecutor.step a st) !! ref
    = Some future'.
Proof.
  intros Hf. apply lookup_lt_is_Some.
  apply lookup_lt_Some in Hf.
  destruct a as [w|fn args kw|]; cbn [ThreadResourceExecutor.step].
  - destruct (work_worked w st); cbn [ThreadResourceExecutor.heap];
      rewrite ?length_insert; exact Hf.
  - submitted ltac:(exact Hf). cbn. rewrite length_app. lia.
  - unfold ThreadResourceExecutor.shutdown_step.
    destruct (ThreadResourceExecutor.in_shutdown st) as [[|[|todo]|]|];
      try destruct (ThreadResourceExecutor.any_alive st); exact Hf.
Qed.

Lemma heap_run (acts : list (ThreadResourceExecutor.action R)) st
    (ref : nat) future :
  ThreadResourceExecutor.heap st !! ref = Some future ->
  exists future',
    ThreadResourceExecutor.heap (ThreadResourceExecutor.run acts st) !! ref
    = Some future'.
Proof.
  revert st future. induction acts as [|a acts IH]; intros st future Hf.
  - exists future. exact Hf.
  - cbn. destruct (heap_step a st ref future Hf) as [future' Hf'].
    eapply IH, Hf'.
Qed.

(** C3 (amended): in every interleaving from a new pool, for every future
    on the heap: the two slots are never both populated; at most one store
    to its slots has happened, and its event has not been set more often
    than that; every [set()] in the history comes after exactly one store;
    if a thread called the task and the task returned or raised an error
    derived from [Exception], exactly one store has happened and the slots
    hold that outcome and nothing else; and once the event is set, exactly
    one store and one [set()] have happened and no later step changes the
    future. *)
Theorem future_written_once (resources : list R)
    (acts more : list (ThreadResourceExecutor.action R)) (ref : nat) future :
  let st :=
    ThreadResourceExecutor.run acts
      (ThreadResourceExecutor.__init__ resources) in
  let h := ThreadResourceExecutor.history st in
  ThreadResourceExecutor.heap st !! ref = Some future ->
  both_populated future = false
  /\ written ref h <= 1
  /\ signalled ref h <= written ref h
  /\ set_after_write ref 0 h = true
  /\ (forall w o,
        In (EvCall w ref o) h -> caught o = true ->
        written ref h = 1 /\ slots_hold o future)
  /\ (TaskFuture._finished future = true ->
      signalled ref h = 1 /\ written ref h = 1
      /\ ThreadResourceExecutor.heap (ThreadResourceExecutor.run more st)
           !! ref = Some future).
Proof.
  intros st h Hf.
  pose proof (accounted_run resources acts) as Hacc. fold st in Hacc.
  pose proof (Hacc ref) as Href. rewrite Hf in Href. destruct Href as [p Hp].
  pose proof (phase_census _ _ _ _ Hp) as (_ & _ & _ & Hcc & Hcw & Hci).
  fold h in Hcc, Hcw, Hci.
  split; [|split; [|split; [|split; [|split]]]].
  - destruct Hp as [_ Hp]. destruct p.
    + apply fresh_not_both, Hp.
    + apply fresh_not_both, Hp.
    + destruct Hp as (_ & w & o & _ & _ & Hs).
      eapply slots_hold_not_both, Hs.
    + destruct Hp as (_ & w & o & _ & _ & Hs).
      eapply slots_hold_not_both, Hs.
    + apply fresh_not_both, Hp.
  - destruct p; cbn in Hcw; lia.
  - destruct p; cbn in Hcw, Hci; lia.
  - apply set_after_write_run.
  - intros w o Hin Hcaught. eapply caught_call_written; eassumption.
  - intros Hfin. pose proof (finished_done _ _ _ _ Hp Hfin) as ->.
    cbn in Hcw, Hci. split; [exact Hci|]. split; [exact Hcw|].
    apply done_stable; assumption.
Qed.

(** A task that took its thread down leaves its future as it was made,
    for good: no store, no [set()], and [result()] without a timeout stays
    blocked, whatever happens next. *)
Lemma lost_forever (resources : list R)
    (acts more : list (ThreadResourceExecutor.action R))
    (ref w : nat) (e : exception) :
  let st :=
    ThreadResourceExecutor.run acts
      (ThreadResourceExecutor.__init__ resources) in
  let st' := ThreadResourceExecutor.run more st in
  In (EvCall w ref (Raised e)) (ThreadResourceExecutor.history st) ->
  is_Exception (exc_cls e) = false ->
  written ref (ThreadResourceExecutor.history st') = 0
  /\ signalled ref (ThreadResourceExecutor.history st') = 0
  /\ forall py2 expired,
       ThreadResourceExecutor.result_of py2 st' ref None expired = None.
Proof.
  intros st st' Hin He.
  assert (Hacc' : accounted st').
  { subst st' st. rewrite <- run_app. apply accounted_run. }
  assert (Hin' : In (EvCall w ref (Raised e))
                    (ThreadResourceExecutor.history st')).
  { subst st'. destruct (history_run more st) as [evs ->].
    apply in_or_app. left. exact Hin. }
  pose proof (Hacc' ref) as Href.
  destruct (ThreadResourceExecutor.heap st' !! ref) as [future|] eqn:Hf.
  - clear Href.
    destruct (uncaught_call_lost _ _ _ _ _ Hacc' Hf Hin' He)
      as (Hw & Hs & Hfin & _).
    split; [exact Hw|]. split; [exact Hs|]. intros py2 expired.
    unfold ThreadResourceExecutor.result_of. rewrite Hf.
    unfold TaskFuture.result, Event_wait. rewrite Hfin. reflexivity.
  - apply census_split in Href as (_ & _ & _ & Hcc & _).
    apply call_counted in Hin'. lia.
Qed.

End FutureFacts.

(** A task that returns 42, run to the end on a pool with one worker. *)
Lemma future_written_once_witness :
  let st :=
    ThreadResourceExecutor.run
      [ThreadResourceExecutor.Submit answer [] [];
       ThreadResourceExecutor.Work 0; ThreadResourceExecutor.Work 0;
       ThreadResourceExecutor.Work 0]
      (ThreadResourceExecutor.__init__ [Handle 0 0]) in
  let future := TaskFuture.mk answer [] [] true (PyInt 42) None in
  ThreadResourceExecutor.heap st !! 0 = Some future
  /\ both_populated future = false
  /\ written 0 (ThreadResourceExecutor.history st) <= 1
  /\ signalled 0 (ThreadResourceExecutor.history st)
     <= written 0 (ThreadResourceExecutor.history st).
Proof.
  cbv zeta. split; [reflexivity|].
  pose proof (future_written_once [Handle 0 0]
    [ThreadResourceExecutor.Submit answer [] [];
     ThreadResourceExecutor.Work 0; ThreadResourceExecutor.Work 0;
     ThreadResourceExecutor.Work 0]
    [ThreadResourceExecutor.Work 0] 0
    (TaskFuture.mk answer [] [] true (PyInt 42) None) eq_refl)
    as (H1 & H2 & H3 & _).
  split; [exact H1|]. split; [exact H2|exact H3].
Defined.

(** C3, as stated, fails: a worker that processes a task calling
    [sys.exit()] writes neither slot, at that time or ever after, because
    [SystemExit] is not an [Exception] and passes the [except] clause. *)
Lemma SystemExit_leaves_future_unwritten :
  let st :=
    ThreadResourceExecutor.run
      [ThreadResourceExecutor.Submit quit [] [];
       ThreadResourceExecutor.Work 0; ThreadResourceExecutor.Work 0]
      (ThreadResourceExecutor.__init__ [Handle 0 0]) in
  In (EvCall 0 0 (Raised system_exit)) (ThreadResourceExecutor.history st)
  /\ (forall more,
        written 0
          (ThreadResourceExecutor.history
             (ThreadResourceExecutor.run more st)) = 0)
  /\ ~ (forall w o,
          In (EvCall w 0 o) (ThreadResourceExecutor.history st) ->
          written 0 (ThreadResourceExecutor.history st) = 1).
Proof.
  cbv zeta.
  assert (Hin : In (EvCall 0 0 (Raised system_exit))
    (ThreadResourceExecutor.history
       (ThreadResourceExecutor.run
          [ThreadResourceExecutor.Submit quit [] [];
           ThreadResourceExecutor.Work 0; ThreadResourceExecutor.Work 0]
          (ThreadResourceExecutor.__init__ [Handle 0 0])))).
  { cbn. right. right. left. reflexivity. }
  split; [exact Hin|]. split.
  - intros more.
    apply (lost_forever [Handle 0 0] _ more 0 0 system_exit Hin eq_refl).
  - intros Hall. specialize (Hall 0 (Raised system_exit) Hin).
    cbn in Hall. discriminate Hall.
Qed.

(* ===================================================================== *)
(** ** ThreadResourceExecutor.shutdown *)
(* ===================================================================== *)

Section ShutdownFacts.
Context {R : Type}.
Implicit Types (self st : ThreadResourceExecutor.t R).
Implicit Types (th : ThreadResourceWorker.t R).

Lemma stops_app (h evs : list event) : stops (h ++ evs) = stops h + stops evs.
Proof. apply sum_list_with_app. Qed.

(** Neither a worker nor [submit] puts a stop sentinel or moves the thread
    in [shutdown]. *)
Lemma bystander_step (a : ThreadResourceExecutor.action R) st :
  is_shutdown a = 0 ->
  ThreadResourceExecutor.in_shutdown (ThreadResourceExecutor.step a st)
  = ThreadResourceExecutor.in_shutdown st
  /\ stops (ThreadResourceExecutor.history (ThreadResourceExecutor.step a st))
     = stops (ThreadResourceExecutor.history st).
Proof.
  intros Ha. destruct a as [w|fn args kw|]; [| |discriminate Ha];
    cbn [ThreadResourceExecutor.step].
  - destruct (work_worked w st); cbn; rewrite ?stops_app; cbn;
      split; try reflexivity; lia.
  - submitted ltac:(split; reflexivity). cbn. rewrite stops_app. cbn. split; [reflexivity|lia].
Qed.

(** The [for] loop: with [todo] puts to go, the next [todo] statements of
    [shutdown] put [todo] stop sentinels, whatever the workers and other
    callers do in between. *)
Lemma for_loop_puts (acts : list (ThreadResourceExecutor.action R)) st
    (todo : nat) :
  ThreadResourceExecutor.in_shutdown st
  = Some (ThreadResourceExecutor.AtPut todo) ->
  shutdown_steps acts = todo ->
  ThreadResourceExecutor.in_shutdown (ThreadResourceExecutor.run acts st)
  = Some (ThreadResourceExecutor.AtPut 0)
  /\ stops (ThreadResourceExecutor.history
              (ThreadResourceExecutor.run acts st))
     = stops (ThreadResourceExecutor.history st) + todo.
Proof.
  revert st todo. induction acts as [|a acts IH]; intros st todo Hpc Hn.
  - cbn in *. subst todo. split; [exact Hpc|lia].
  - cbn [ThreadResourceExecutor.run]. unfold shutdown_steps in Hn.
    cbn [sum_list_with] in Hn. fold (shutdown_steps acts) in Hn.
    destruct (is_shutdown a) as [|[|k]] eqn:Ha.
    + destruct (bystander_step a st Ha) as [Hpc' Hstops].
      destruct (IH (ThreadResourceExecutor.step a st) todo) as [H1 H2];
        [congruence|lia|].
      split; [exact H1|lia].
    + destruct a; try discriminate Ha.
      destruct todo as [|todo]; [lia|].
      destruct (IH (ThreadResourceExecutor.step
                      ThreadResourceExecutor.Shutdown st) todo) as [H1 H2].
      * cbn. unfold ThreadResourceExecutor.shutdown_step. rewrite Hpc.
        reflexivity.
      * lia.
      * split; [exact H1|]. rewrite H2. cbn.
        unfold ThreadResourceExecutor.shutdown_step. rewrite Hpc. cbn.
        rewrite stops_app. cbn. lia.
    + destruct a; discriminate Ha.
Qed.

Lemma any_alive_false st :
  ThreadResourceExecutor.any_alive st = false <->
  Forall (fun th => ThreadResourceWorker.is_alive th = false)
         (ThreadResourceExecutor._workers st).
Proof.
  unfold ThreadResourceExecutor.any_alive.
  induction (ThreadResourceExecutor._workers st) as [|th ws IH]; cbn.
  - split; [constructor|reflexivity].
  - rewrite orb_false_iff, IH. split.
    + intros [H1 H2]. constructor; assumption.
    + intros Hall. apply Forall_cons in Hall. exact Hall.
Qed.

(** A thread that is not alive takes no step. *)
Lemma dead_step (a : ThreadResourceExecutor.action R) st :
  ThreadResourceExecutor.any_alive st = false ->
  ThreadResourceExecutor._workers (ThreadResourceExecutor.step a st)
  = ThreadResourceExecutor._workers st.
Proof.
  intros Hdead. apply any_alive_false in Hdead.
  destruct a as [w|fn args kw|]; cbn [ThreadResourceExecutor.step].
  - destruct (work_worked w st) as
      [ |th x rest Hth Hat Hqx |th f fut v r Hth Hat Hg Hc
        |th f fut e r Hth Hat Hg Hc He |th f fut e r Hth Hat Hg Hc He
        |th f fut Hth Hat Hg ]; [reflexivity|..].
    all: eapply Forall_lookup_1 in Hdead; [|exact Hth].
    all: unfold ThreadResourceWorker.is_alive in Hdead.
    all: rewrite Hat in Hdead; discriminate Hdead.
  - submitted ltac:(reflexivity). reflexivity.
  - unfold ThreadResourceExecutor.shutdown_step.
    destruct (ThreadResourceExecutor.in_shutdown st) as [[|[|todo]|]|];
      try destruct (ThreadResourceExecutor.any_alive st); reflexivity.
Qed.

Lemma dead_run (acts : list (ThreadResourceExecutor.action R)) st :
  ThreadResourceExecutor.any_alive st = false ->
  ThreadResourceExecutor.any_alive (ThreadResourceExecutor.run acts st)
  = false.
Proof.
  revert st. induction acts as [|a acts IH]; intros st Hdead; [exact Hdead|].
  cbn. apply IH. unfold ThreadResourceExecutor.any_alive.
  rewrite dead_step by exact Hdead. exact Hdead.
Qed.

(** C2 (amended): a pass of the loop of [shutdown] that finds a worker
    alive puts as many stop sentinels as the pool has workers, alive or
    not, whatever the workers and other callers do in between, then
    sleeps and tests again; [shutdown] returns only from a test that finds
    no worker alive, and none is alive at any later time; and a call made
    when no worker is alive returns at once and leaves the executor, its
    queue included, as it was. *)
Theorem shutdown_loop (acts more : list (ThreadResourceExecutor.action R)) st :
  at_while st ->
  shutdown_steps acts = length (ThreadResourceExecutor._workers st) ->
  let st1 := ThreadResourceExecutor.shutdown_step st in
  (ThreadResourceExecutor.any_alive st = true ->
     let st2 := ThreadResourceExecutor.run acts st1 in
     ThreadResourceExecutor.in_shutdown st1
     = Some (ThreadResourceExecutor.AtPut
               (length (ThreadResourceExecutor._workers st)))
     /\ ThreadResourceExecutor.in_shutdown st2
        = Some (ThreadResourceExecutor.AtPut 0)
     /\ stops (ThreadResourceExecutor.history st2)
        = stops (ThreadResourceExecutor.history st)
          + length (ThreadResourceExecutor._workers st)
     /\ ThreadResourceExecutor.in_shutdown
          (ThreadResourceExecutor.shutdown_step st2)
        = Some ThreadResourceExecutor.AtSleep
     /\ ThreadResourceExecutor.in_shutdown
          (ThreadResourceExecutor.shutdown_step
             (ThreadResourceExecutor.shutdown_step st2))
        = Some ThreadResourceExecutor.AtWhile)
  /\ (ThreadResourceExecutor.in_shutdown st1 = None ->
      ThreadResourceExecutor.any_alive st = false
      /\ ThreadResourceExecutor.any_alive
           (ThreadResourceExecutor.run more st1) = false
      /\ ThreadResourceExecutor._work_queue st1
         = ThreadResourceExecutor._work_queue st
      /\ ThreadResourceExecutor.history st1
         = ThreadResourceExecutor.history st)
  /\ (ThreadResourceExecutor.any_alive st = false ->
      ThreadResourceExecutor.in_shutdown st = None ->
      st1 = st /\ ThreadResourceExecutor.shutdown_step st1 = st).
Proof.
  intros Hpc Hn st1.
  assert (Hst1 : st1 =
    if ThreadResourceExecutor.any_alive st then
      ThreadResourceExecutor.mk (ThreadResourceExecutor._work_queue st)
        (ThreadResourceExecutor._workers st) (ThreadResourceExecutor.heap st)
        (Some (ThreadResourceExecutor.AtPut
                 (length (ThreadResourceExecutor._workers st))))
        (ThreadResourceExecutor.history st)
    else
      ThreadResourceExecutor.mk (ThreadResourceExecutor._work_queue st)
        (ThreadResourceExecutor._workers st) (ThreadResourceExecutor.heap st)
        None (ThreadResourceExecutor.history st)).
  { subst st1. unfold ThreadResourceExecutor.shutdown_step.
    destruct Hpc as [-> | ->]; reflexivity. }
  split; [|split].
  - intros Halive st2. rewrite Halive in Hst1.
    assert (Hpc1 : ThreadResourceExecutor.in_shutdown st1
      = Some (ThreadResourceExecutor.AtPut
                (length (ThreadResourceExecutor._workers st))))
      by (rewrite Hst1; reflexivity).
    destruct (for_loop_puts acts st1 _ Hpc1 Hn) as [Hpc2 Hstops].
    fold st2 in Hpc2, Hstops.
    split; [exact Hpc1|]. split; [exact Hpc2|]. split.
    + rewrite Hstops, Hst1. reflexivity.
    + unfold ThreadResourceExecutor.shutdown_step at 2.
      unfold ThreadResourceExecutor.shutdown_step at 1.
      unfold ThreadResourceExecutor.shutdown_step at 1.
      rewrite Hpc2. cbn. split; reflexivity.
  - intros Hret.
    destruct (ThreadResourceExecutor.any_alive st) eqn:Halive;
      [rewrite Hst1 in Hret; discriminate Hret|].
    split; [reflexivity|]. split.
    + apply dead_run. rewrite Hst1. exact Halive.
    + rewrite Hst1. split; reflexivity.
  - intros Hdead Hnone. rewrite Hdead in Hst1.
    assert (Heq : st1 = st).
    { rewrite Hst1, <- Hnone. apply executor_eta. }
    split; [exact Heq|]. rewrite Heq. exact Heq.
Qed.

End ShutdownFacts.

(** Two workers, one of them busy with a task when [shutdown] is called. *)
Lemma shutdown_loop_witness :
  let st :=
    ThreadResourceExecutor.run
      [ThreadResourceExecutor.Submit tick [] [];
       ThreadResourceExecutor.Work 0]
      (ThreadResourceExecutor.__init__ [Handle 0 0; Handle 0 0]) in
  let acts :=
    [ThreadResourceExecutor.Shutdown; ThreadResourceExecutor.Work 1;
     ThreadResourceExecutor.Shutdown] in
  at_while st
  /\ shutdown_steps acts = length (ThreadResourceExecutor._workers st)
  /\ ThreadResourceExecutor.any_alive st = true
  /\ stops (ThreadResourceExecutor.history
              (ThreadResourceExecutor.run acts
                 (ThreadResourceExecutor.shutdown_step st)))
     = stops (ThreadResourceExecutor.history st) + 2.
Proof.
  intros st acts.
  assert (H1 : at_while st) by (left; reflexivity).
  assert (H2 : shutdown_steps acts
               = length (ThreadResourceExecutor._workers st))
    by reflexivity.
  split; [exact H1|]. split; [exact H2|]. split; [reflexivity|].
  destruct (shutdown_loop acts [] st H1 H2) as [Hpass _].
  destruct (Hpass eq_refl) as (_ & _ & Hs & _). exact Hs.
Defined.

(** C2, as stated, fails: with two workers of which one has stopped and
    one is still busy, a pass of the loop puts two stop sentinels, one per
    worker of the pool, not one per worker still alive. *)
Lemma shutdown_puts_one_stop_per_worker :
  let st :=
    ThreadResourceExecutor.run
      [ThreadResourceExecutor.Submit tick [] [];
       ThreadResourceExecutor.Work 0;
       ThreadResourceExecutor.Shutdown; ThreadResourceExecutor.Shutdown;
       ThreadResourceExecutor.Shutdown; ThreadResourceExecutor.Work 1;
       ThreadResourceExecutor.Shutdown; ThreadResourceExecutor.Shutdown]
      (ThreadResourceExecutor.__init__ [Handle 0 0; Handle 0 0]) in
  let pass :=
    [ThreadResourceExecutor.Shutdown; ThreadResourceExecutor.Shutdown;
     ThreadResourceExecutor.Shutdown] in
  ThreadResourceExecutor.in_shutdown st
  = Some ThreadResourceExecutor.AtWhile
  /\ alive_count st = 1
  /\ ThreadResourceExecutor.in_shutdown (ThreadResourceExecutor.run pass st)
     = Some (ThreadResourceExecutor.AtPut 0)
  /\ stops (ThreadResourceExecutor.history
              (ThreadResourceExecutor.run pass st))
     = stops (ThreadResourceExecutor.history st) + 2
  /\ stops (ThreadResourceExecutor.history
              (ThreadResourceExecutor.run pass st))
     <> stops (ThreadResourceExecutor.history st) + alive_count st.
Proof.
  cbv zeta. repeat split. cbn. intros Heq. discriminate Heq.
Qed.

(* ===================================================================== *)
(** ** ThreadResourceExecutor: every task gets done *)
(* ===================================================================== *)

Section Progress.
Context {R : Type}.
Implicit Types (self st : ThreadResourceExecutor.t R).
Implicit Types (th : ThreadResourceWorker.t R).
Implicit Types (future : TaskFuture.t R).

Lemma healthy_init (resources : list R) :
  healthy (ThreadResourceExecutor.__init__ resources).
Proof.
  split; [apply accounted_init|]. cbn. repeat split; try constructor.
  induction resources; constructor; auto.
Qed.

(** A catchable task does not take its thread down. *)
Lemma catchable_not_die st (f : nat) future th (e : exception) (r : R) :
  healthy st ->
  ThreadResourceExecutor.heap st !! f = Some future ->
  TaskFuture._task future (ThreadResourceWorker._resource th)
    (TaskFuture._args future) (TaskFuture._kwargs future) = (Raised e, r) ->
  is_Exception (exc_cls e) = false ->
  False.
Proof.
  intros (_ & _ & Hheap & _) Hf Hc He.
  eapply Forall_lookup_1 in Hheap; [|exact Hf].
  specialize (Hheap (ThreadResourceWorker._resource th)).
  rewrite Hc in Hheap. unfold caught in Hheap. cbn [fst] in Hheap.
  congruence.
Qed.

Lemma healthy_step (a : ThreadResourceExecutor.action R) st :
  healthy st -> calm a -> healthy (ThreadResourceExecutor.step a st).
Proof.
  intros Hh Hcalm. pose proof Hh as (Hacc & Hq & Hheap & Hw).
  split; [apply accounted_step, Hacc|].
  destruct a as [w|fn args kw|]; [| |destruct Hcalm];
    cbn [ThreadResourceExecutor.step].
  - destruct (work_worked w st) as
      [ |th x rest Hth Hat Hqx |th f fut v r Hth Hat Hf Hc
        |th f fut e r Hth Hat Hf Hc He |th f fut e r Hth Hat Hf Hc He
        |th f fut Hth Hat Hf ];
      cbn [ThreadResourceExecutor._work_queue ThreadResourceExecutor.heap
           ThreadResourceExecutor._workers].
    + auto.
    + rewrite Hqx in Hq. apply Forall_cons in Hq as [Hx Hrest].
      split; [exact Hrest|]. split; [exact Hheap|].
      apply Forall_insert; [exact Hw|].
      destruct x; try discriminate Hx. reflexivity.
    + split; [exact Hq|]. split.
      * apply Forall_insert; [exact Hheap|].
        exact (Forall_lookup_1 _ _ _ _ Hheap Hf).
      * apply Forall_insert; [exact Hw|reflexivity].
    + split; [exact Hq|]. split.
      * apply Forall_insert; [exact Hheap|].
        exact (Forall_lookup_1 _ _ _ _ Hheap Hf).
      * apply Forall_insert; [exact Hw|reflexivity].
    + destruct (catchable_not_die st f fut th e r Hh Hf Hc He).
    + split; [exact Hq|]. split.
      * apply Forall_insert; [exact Hheap|].
        exact (Forall_lookup_1 _ _ _ _ Hheap Hf).
      * apply Forall_insert; [exact Hw|reflexivity].
  - submitted ltac:(split; [exact Hq|split; [exact Hheap|exact Hw]]). cbn. split; [|split; [|exact Hw]].
    + apply Forall_app. split; [exact Hq|]. repeat constructor.
    + apply Forall_app. split; [exact Hheap|]. repeat constructor.
      exact Hcalm.
Qed.

Lemma healthy_run (acts : list (ThreadResourceExecutor.action R)) st :
  healthy st -> Forall calm acts ->
  healthy (ThreadResourceExecutor.run acts st).
Proof.
  revert st. induction acts as [|a acts IH]; intros st Hh Hcalm; [exact Hh|].
  apply Forall_cons in Hcalm as [Ha Hrest].
  cbn. apply IH; [|exact Hrest]. apply healthy_step; assumption.
Qed.

Lemma backlog_swap (ws : list (ThreadResourceWorker.t R)) (w : nat) th th' :
  ws !! w = Some th ->
  backlog (<[w := th']> ws) + remaining th = backlog ws + remaining th'.
Proof. intros Hw. apply sum_insert, Hw. Qed.

Lemma ahead_app (ref : nat) (q q' : list object) :
  0 < queued ref q -> ahead ref (q ++ q') = ahead ref q.
Proof.
  induction q as [|x q IH]; intros Hq; [cbn in Hq; lia|].
  rewrite queued_cons in Hq. cbn [app ahead].
  destruct (in_queue ref x) as [|k]; [|reflexivity].
  rewrite IH by lia. reflexivity.
Qed.

(** A future that some thread called and that is not lost is on the
    heap, in one of the phases on the way to its [set()]. *)
Lemma on_course st (f : nat) :
  accounted st ->
  f < length (ThreadResourceExecutor.heap st) ->
  called f (ThreadResourceExecutor.history st)
  = written f (ThreadResourceExecutor.history st) ->
  exists future p,
    ThreadResourceExecutor.heap st !! f = Some future
    /\ in_phase st f future p /\ p <> Lost.
Proof.
  intros Hacc Hlen Hcw.
  destruct (lookup_lt_is_Some_2 _ _ Hlen) as [future Hf].
  pose proof (Hacc f) as Hp. rewrite Hf in Hp. destruct Hp as [p Hp].
  exists future, p. split; [exact Hf|]. split; [exact Hp|].
  intros ->. pose proof (phase_census _ _ _ _ Hp) as (_ & _ & _ & Hc & Hw & _).
  cbn in Hc, Hw. lia.
Qed.

(** A reference in the hand of a thread points to a future on the heap. *)
Lemma holder_on_heap st (w g : nat) th :
  accounted st ->
  ThreadResourceExecutor._workers st !! w = Some th ->
  ThreadResourceWorker.at_ th = ThreadResourceWorker.AtTry g
  \/ ThreadResourceWorker.at_ th = ThreadResourceWorker.AtSet g ->
  is_Some (ThreadResourceExecutor.heap st !! g).
Proof.
  intros Hacc Hth Hat. specialize (Hacc g).
  destruct (ThreadResourceExecutor.heap st !! g) as [future|]; [eauto|].
  apply census_split in Hacc as (_ & Ht & Hs & _).
  destruct (swap_thread _ w th th g Hth) as (_ & _ & Hlt & Hls).
  count. destruct Hat as [Hat|Hat]; rewrite Hat, ind_eqb_refl in *; lia.
Qed.

End Progress.

(** Splits on every comparison [0 <? n] in the goal. *)
Ltac split_ltb :=
  repeat match goal with
  | |- context [Nat.ltb ?a ?b] => destruct (Nat.ltb_spec a b)
  end.

(** Splits on whether [g] and [f] are the same reference, and reduces the
    indicators accordingly. *)
Ltac same_ref g f :=
  let Heq := fresh "Heq" in
  destruct (Nat.eq_dec g f) as [Heq|Heq];
  [ subst; rewrite ?ind_eqb_refl in *
  | rewrite ?(ind_eqb_neq _ _ Heq) in * ].

Section SameCall.
Context {R : Type}.
Implicit Types (self st : ThreadResourceExecutor.t R).
Implicit Types (th : ThreadResourceWorker.t R).
Implicit Types (future : TaskFuture.t R).

Lemma same_call_refl future : same_call future future.
Proof. repeat split. Qed.

(** No step changes the task or the arguments of a future. *)
Lemma same_call_step (a : ThreadResourceExecutor.action R) st (f : nat)
    future :
  ThreadResourceExecutor.heap st !! f = Some future ->
  exists future',
    ThreadResourceExecutor.heap (ThreadResourceExecutor.step a st) !! f
    = Some future'
    /\ same_call future future'.
Proof.
  intros Hf.
  destruct a as [w|fn args kw|]; cbn [ThreadResourceExecutor.step].
  - destruct (work_worked w st) as
      [ |th x rest Hth Hat Hqx |th g fut' v r Hth Hat Hg Hc
        |th g fut' e r Hth Hat Hg Hc He |th g fut' e r Hth Hat Hg Hc He
        |th g fut' Hth Hat Hg ];
      cbn [ThreadResourceExecutor.heap];
      try (exists future; split; [exact Hf|apply same_call_refl]).
    all: destruct (Nat.eq_dec g f) as [->|Hne];
      [ rewrite list_lookup_insert_eq by (eapply lookup_lt_Some, Hf);
        rewrite Hf in Hg; injection Hg as <-;
        eexists; split; [reflexivity|repeat split]
      | rewrite list_lookup_insert_ne by exact Hne;
        exists future; split; [exact Hf|apply same_call_refl] ].
  - submitted ltac:(exists future; split; [exact Hf|apply same_call_refl]). cbn.
    rewrite lookup_app_l by (eapply lookup_lt_Some, Hf).
    exists future. split; [exact Hf|apply same_call_refl].
  - exists future. split; [|apply same_call_refl].
    unfold ThreadResourceExecutor.shutdown_step.
    destruct (ThreadResourceExecutor.in_shutdown st) as [[|[|todo]|]|];
      try destruct (ThreadResourceExecutor.any_alive st); exact Hf.
Qed.

Lemma same_call_run (acts : list (ThreadResourceExecutor.action R)) st
    (f : nat) future :
  ThreadResourceExecutor.heap st !! f = Some future ->
  exists future',
    ThreadResourceExecutor.heap (ThreadResourceExecutor.run acts st) !! f
    = Some future'
    /\ same_call future future'.
Proof.
  revert st future. induction acts as [|a acts IH]; intros st future Hf.
  - exists future. split; [exact Hf|apply same_call_refl].
  - cbn. destruct (same_call_step a st f future Hf) as (fut1 & Hf1 & H1).
    destruct (IH _ _ Hf1) as (fut2 & Hf2 & H2).
    exists fut2. split; [exact Hf2|].
    destruct H1 as (? & ? & ?), H2 as (? & ? & ?).
    repeat split; congruence.
Qed.

Lemma outcome_of_same_call future future' (o : outcome value) :
  same_call future future' -> outcome_of future' o -> outcome_of future o.
Proof.
  intros (Ht & Ha & Hk) [r Hr]. exists r. rewrite Hr, Ht, Ha, Hk.
  reflexivity.
Qed.

End SameCall.

Section Guarded.
Context {R : Type}.
Implicit Types (self st : ThreadResourceExecutor.t R).
Implicit Types (th : ThreadResourceWorker.t R).
Implicit Types (future : TaskFuture.t R).
Implicit Types (safe : nat -> bool).

Lemma alive_count_swap st st' (w : nat) th th' :
  ThreadResourceExecutor._workers st !! w = Some th ->
  ThreadResourceExecutor._workers st'
  = <[w := th']> (ThreadResourceExecutor._workers st) ->
  alive_count st' + ind (ThreadResourceWorker.is_alive th)
  = alive_count st + ind (ThreadResourceWorker.is_alive th').
Proof.
  intros Hw Hst. unfold alive_count. rewrite Hst.
  apply (sum_insert (fun th => ind (ThreadResourceWorker.is_alive th))), Hw.
Qed.

Lemma alive_count_same st st' :
  ThreadResourceExecutor._workers st' = ThreadResourceExecutor._workers st ->
  alive_count st' = alive_count st.
Proof. intros Hst. unfold alive_count. rewrite Hst. reflexivity. Qed.

Lemma armed_swap safe (ws : list (ThreadResourceWorker.t R)) (w : nat)
    th th' :
  ws !! w = Some th ->
  armed_count safe (<[w := th']> ws) + armed safe th
  = armed_count safe ws + armed safe th'.
Proof. intros Hw. apply sum_insert, Hw. Qed.

Lemma hazards_ahead_app safe (ref : nat) (q q' : list object) :
  0 < queued ref q ->
  hazards_ahead safe ref (q ++ q') = hazards_ahead safe ref q.
Proof.
  induction q as [|x q IH]; intros Hq; [cbn in Hq; lia|].
  rewrite queued_cons in Hq. cbn [app hazards_ahead].
  destruct (in_queue ref x) as [|k]; [|reflexivity].
  rewrite IH by lia. reflexivity.
Qed.

(** What [safe] tells stays right. *)
Lemma sound_step safe (a : ThreadResourceExecutor.action R) st :
  sound safe st -> sound safe (ThreadResourceExecutor.step a st).
Proof.
  intros Hs ref Href. destruct (Hs ref Href) as (future & Hf & Hc).
  destruct (same_call_step a st ref future Hf) as (future' & Hf' & Ht & Ha & Hk).
  exists future'. split; [exact Hf'|]. rewrite Ht, Ha, Hk. exact Hc.
Qed.

(** A task that [safe] tells does not take its thread down. *)
Lemma safe_not_die safe st (f : nat) future th (e : exception) (r : R) :
  sound safe st ->
  safe f = true ->
  ThreadResourceExecutor.heap st !! f = Some future ->
  TaskFuture._task future (ThreadResourceWorker._resource th)
    (TaskFuture._args future) (TaskFuture._kwargs future) = (Raised e, r) ->
  is_Exception (exc_cls e) = false ->
  False.
Proof.
  intros Hs Hsafe Hf Hc He. destruct (Hs f Hsafe) as (future' & Hf' & Hcatch).
  rewrite Hf in Hf'. injection Hf' as <-.
  specialize (Hcatch (ThreadResourceWorker._resource th)).
  rewrite Hc in Hcatch. unfold caught in Hcatch. cbn [fst] in Hcatch.
  congruence.
Qed.

(** Sets up, for the statement that thread [w] has just run, what it
    changes in the counts: of the threads at the [try] and at the [set()]
    of future [f], of the statements in hand, of the threads alive and of
    the tasks in hand that may cost a thread. *)
Ltac swaps safe st w th f Hth Hat :=
  let Ht := fresh "Ht" in let Hs := fresh "Hs" in
  let Hb := fresh "Hb" in let Ha := fresh "Ha" in let Hr := fresh "Hr" in
  match goal with
  | |- context [ThreadResourceExecutor.mk ?q (<[_ := ?t]> ?ws) ?h ?sd ?hist] =>
      destruct (swap_thread _ w th t f Hth) as (Ht & Hs & _ & _);
      pose proof (backlog_swap _ w th t Hth) as Hb;
      pose proof (alive_count_swap st
                    (ThreadResourceExecutor.mk q (<[w := t]> ws) h sd hist)
                    w th t Hth eq_refl) as Ha;
      pose proof (armed_swap safe _ w th t Hth) as Hr
  end;
  unfold remaining in Hb; unfold armed in Hr;
  unfold ThreadResourceWorker.is_alive in Ha;
  rewrite Hat in Hb, Hr, Ha;
  cbn [ThreadResourceWorker.at_ ind] in Hb, Hr, Ha.

(** No step takes a guarded future off its way, or further from its
    [set()]. *)
Lemma guarded_step safe (a : ThreadResourceExecutor.action R) st (f : nat) :
  guarded safe st f ->
  guarded safe (ThreadResourceExecutor.step a st) f
  /\ distance (ThreadResourceExecutor.step a st) f <= distance st f.
Proof.
  intros (Hacc & Hsound & Hsafe & Hcw & Hm).
  destruct (Hsound f Hsafe) as (fut0 & Hf0 & Hcatch).
  pose proof (lookup_lt_Some _ _ _ Hf0) as Hlen.
  destruct (on_course st f Hacc Hlen Hcw) as (fut & p & Hf & Hp & Hnl).
  pose proof (phase_census _ _ _ _ Hp) as (Hcq & Hct & Hcs & Hcc & Hcwr & Hci).
  cut ((called f (ThreadResourceExecutor.history
                    (ThreadResourceExecutor.step a st))
        = written f (ThreadResourceExecutor.history
                       (ThreadResourceExecutor.step a st))
        /\ (0 < queued f (ThreadResourceExecutor._work_queue
                            (ThreadResourceExecutor.step a st)) ->
            hazards_ahead safe f (ThreadResourceExecutor._work_queue
                                    (ThreadResourceExecutor.step a st))
            + armed_count safe (ThreadResourceExecutor._workers
                                  (ThreadResourceExecutor.step a st))
            < alive_count (ThreadResourceExecutor.step a st)))
       /\ distance (ThreadResourceExecutor.step a st) f <= distance st f).
  { intros ((Hcw' & Hm') & Hle). split; [|exact Hle].
    split; [apply accounted_step, Hacc|].
    split; [apply sound_step, Hsound|].
    split; [exact Hsafe|]. split; [exact Hcw'|exact Hm']. }
  destruct a as [w|fn args kw|]; cbn [ThreadResourceExecutor.step].
  - destruct (work_worked w st) as
      [ |th x rest Hth Hat Hqx |th g fut' v r Hth Hat Hg Hc
        |th g fut' e r Hth Hat Hg Hc He |th g fut' e r Hth Hat Hg Hc He
        |th g fut' Hth Hat Hg ].
    + split; [split; [exact Hcw|exact Hm]|lia].
    + destruct x as [|g|v].
      * swaps safe st w th f Hth Hat.
        unfold distance. count. rewrite ?Hat, ?Hqx in *. count.
        cbn [ahead hazards_ahead in_queue hazard] in *.
        destruct p; count; split_ltb; repeat split; intros; lia.
      * swaps safe st w th f Hth Hat.
        unfold distance. count. rewrite ?Hat, ?Hqx in *. count.
        cbn [ahead hazards_ahead in_queue hazard] in *.
        same_ref g f; cbn [ind] in *; rewrite ?Hsafe in *;
          [|destruct (safe g) eqn:Hsg];
          destruct p; count; split_ltb; repeat split; intros; lia.
      * swaps safe st w th f Hth Hat.
        unfold distance. count. rewrite ?Hat, ?Hqx in *. count.
        cbn [ahead hazards_ahead in_queue hazard] in *.
        destruct p; count; split_ltb; repeat split; intros; lia.
    + swaps safe st w th f Hth Hat.
      unfold distance. count. rewrite ?Hat in *. count.
      same_ref g f; cbn [ind] in *; rewrite ?Hsafe in *;
        [|destruct (safe g) eqn:Hsg];
        destruct p; count; split_ltb; repeat split; intros; lia.
    + swaps safe st w th f Hth Hat.
      unfold distance. count. rewrite ?Hat in *. count.
      same_ref g f; cbn [ind] in *; rewrite ?Hsafe in *;
        [|destruct (safe g) eqn:Hsg];
        destruct p; count; split_ltb; repeat split; intros; lia.
    + destruct (safe g) eqn:Hsg;
        [destruct (safe_not_die safe st g fut' th e r Hsound Hsg Hg Hc He)|].
      swaps safe st w th f Hth Hat.
      unfold distance. count. rewrite ?Hat in *. count.
      same_ref g f; cbn [ind] in *; rewrite ?Hsg in *; try congruence;
        destruct p; count; split_ltb; repeat split; intros; lia.
    + swaps safe st w th f Hth Hat.
      unfold distance. count. rewrite ?Hat in *. count.
      same_ref g f; cbn [ind] in *; rewrite ?Hsafe in *;
        [|destruct (safe g) eqn:Hsg];
        destruct p; count; split_ltb; repeat split; intros; lia.
  - submitted ltac:(split; [split; [exact Hcw|exact Hm]|lia]).
    cbn [snd]. unfold distance.
    rewrite (alive_count_same st (ThreadResourceExecutor.mk _ _ _ _ _) eq_refl)
      in *.
    count.
    rewrite (ind_eqb_neq (length (ThreadResourceExecutor.heap st)) f) by lia.
    destruct p; count; try congruence.
    all: rewrite ?ahead_app, ?hazards_ahead_app by lia;
      split_ltb; repeat split; intros; try lia.
    all: apply Hm; lia.
  - unfold ThreadResourceExecutor.shutdown_step, distance.
    destruct (ThreadResourceExecutor.in_shutdown st) as [[|[|todo]|]|];
      try destruct (ThreadResourceExecutor.any_alive st);
      rewrite (alive_count_same st (ThreadResourceExecutor.mk _ _ _ _ _)
                 eq_refl) in *;
      count; destruct p; count; try congruence;
      rewrite ?ahead_app, ?hazards_ahead_app by lia;
      split_ltb; repeat split; intros; try lia; apply Hm; lia.
Qed.

End Guarded.
Section Leads.
Context {R : Type}.
Implicit Types (self st : ThreadResourceExecutor.t R).
Implicit Types (th : ThreadResourceWorker.t R).
Implicit Types (future : TaskFuture.t R).
Implicit Types (safe : nat -> bool).

(** The next statement of a thread that brings the future closer does. *)
Lemma distance_lead safe (w : nat) st (f : nat) :
  guarded safe st f ->
  0 < distance st f ->
  leads w st f ->
  distance (ThreadResourceExecutor.work w st) f < distance st f.
Proof.
  intros (Hacc & Hsound & Hsafe & Hcw & Hm) Hpos (th & Hth & Hrel).
  destruct (Hsound f Hsafe) as (fut0 & Hf0 & Hcatch).
  pose proof (lookup_lt_Some _ _ _ Hf0) as Hlen.
  destruct (on_course st f Hacc Hlen Hcw) as (fut & p & Hf & Hp & Hnl).
  pose proof (phase_census _ _ _ _ Hp) as (Hcq & Hct & Hcs & Hcc & Hcwr & Hci).
  assert (Halive : ThreadResourceWorker.is_alive th = true).
  { revert Hrel. unfold ThreadResourceWorker.is_alive.
    split_ltb; intros Hrel; try rewrite Hrel; auto. }
  unfold ThreadResourceWorker.is_alive in Halive.
  unfold ThreadResourceExecutor.work. rewrite Hth.
  unfold ThreadResourceWorker.run_step.
  destruct (ThreadResourceWorker.at_ th) as [|g|g| |e] eqn:Hat;
    try discriminate Halive.
  - destruct (ThreadResourceExecutor._work_queue st) as [|x rest] eqn:Hqx.
    + exfalso. revert Hrel. count. cbn.
      destruct (trying f _); intros Habs; discriminate Habs.
    + destruct x as [|g|v].
      * set (th' := ThreadResourceWorker.mk _ _).
        destruct (swap_thread _ w th th' f Hth) as (Ht & Hs & _ & _).
        pose proof (backlog_swap _ w th th' Hth) as Hb.
        revert Hpos Hrel. unfold distance. subst th'. unfold remaining in Hb.
        count. rewrite ?Hat, ?Hqx in *. count. cbn [ahead in_queue].
        destruct p; count; split_ltb; intros; first [lia | congruence].
      * set (th' := ThreadResourceWorker.mk _ _).
        destruct (swap_thread _ w th th' f Hth) as (Ht & Hs & _ & _).
        pose proof (backlog_swap _ w th th' Hth) as Hb.
        revert Hpos Hrel. unfold distance. subst th'. unfold remaining in Hb.
        count. rewrite ?Hat, ?Hqx in *. count. cbn [ahead in_queue].
        same_ref g f; cbn [ind]; destruct p; count; split_ltb; intros;
          first [lia | congruence].
      * set (th' := ThreadResourceWorker.mk _ _).
        destruct (swap_thread _ w th th' f Hth) as (Ht & Hs & _ & _).
        pose proof (backlog_swap _ w th th' Hth) as Hb.
        revert Hpos Hrel. unfold distance. subst th'. unfold remaining in Hb.
        count. rewrite ?Hat, ?Hqx in *. count. cbn [ahead in_queue].
        destruct p; count; split_ltb; intros; first [lia | congruence].
  - destruct (holder_on_heap st w g th Hacc Hth (or_introl Hat)) as [fut' Hg].
    rewrite Hg.
    destruct (TaskFuture._task fut' _ _ _) as [[v|e] r] eqn:Hc.
    + set (th' := ThreadResourceWorker.mk _ _).
      destruct (swap_thread _ w th th' f Hth) as (Ht & Hs & _ & _).
      pose proof (backlog_swap _ w th th' Hth) as Hb.
      revert Hpos Hrel. unfold distance. subst th'. unfold remaining in Hb.
      count. rewrite ?Hat in *. count.
      same_ref g f; cbn [ind]; destruct p; count; split_ltb; intros;
        first [lia | congruence].
    + destruct (is_Exception (exc_cls e)) eqn:He.
      * set (th' := ThreadResourceWorker.mk _ _).
        destruct (swap_thread _ w th th' f Hth) as (Ht & Hs & _ & _).
        pose proof (backlog_swap _ w th th' Hth) as Hb.
        revert Hpos Hrel. unfold distance. subst th'. unfold remaining in Hb.
        count. rewrite ?Hat in *. count.
        same_ref g f; cbn [ind]; destruct p; count; split_ltb; intros;
          first [lia | congruence].
      * destruct (Nat.eq_dec g f) as [Heq|Hne];
          [subst g;
           destruct (safe_not_die safe st f fut' th e r Hsound Hsafe Hg Hc He)|].
        set (th' := ThreadResourceWorker.mk _ _).
        destruct (swap_thread _ w th th' f Hth) as (Ht & Hs & _ & _).
        pose proof (backlog_swap _ w th th' Hth) as Hb.
        revert Hpos Hrel. unfold distance. subst th'. unfold remaining in Hb.
        count. rewrite ?Hat in *. count.
        rewrite ?(ind_eqb_neq _ _ Hne) in *.
        cbn [ind]; destruct p; count; split_ltb; intros;
          first [lia | congruence].
  - destruct (holder_on_heap st w g th Hacc Hth (or_intror Hat)) as [fut' Hg].
    rewrite Hg.
    set (th' := ThreadResourceWorker.mk _ _).
    destruct (swap_thread _ w th th' f Hth) as (Ht & Hs & _ & _).
    pose proof (backlog_swap _ w th th' Hth) as Hb.
    revert Hpos Hrel. unfold distance. subst th'. unfold remaining in Hb.
    count. rewrite ?Hat in *. count.
    same_ref g f; cbn [ind]; destruct p; count; split_ltb; intros;
      first [lia | congruence].
Qed.

(** As long as the future has not come closer, the thread that brings it
    closer is still the one. *)
Lemma lead_kept safe (a : ThreadResourceExecutor.action R) (w : nat) st
    (f : nat) :
  guarded safe st f ->
  is_work w a = false ->
  distance (ThreadResourceExecutor.step a st) f = distance st f ->
  leads w st f ->
  leads w (ThreadResourceExecutor.step a st) f.
Proof.
  intros (Hacc & Hsound & Hsafe & Hcw & Hm) Hnw Hsame (th0 & Hth0 & Hrel).
  destruct (Hsound f Hsafe) as (fut0 & Hf0 & Hcatch).
  pose proof (lookup_lt_Some _ _ _ Hf0) as Hlen.
  destruct (on_course st f Hacc Hlen Hcw) as (fut & p & Hf & Hp & Hnl).
  pose proof (phase_census _ _ _ _ Hp) as (Hcq & Hct & Hcs & Hcc & Hcwr & Hci).
  exists th0. revert Hsame.
  destruct a as [w'|fn args kw|]; cbn [ThreadResourceExecutor.step].
  - cbn in Hnw. apply Nat.eqb_neq in Hnw.
    destruct (work_worked w' st) as
      [ |th x rest Hth Hat Hqx |th g fut' v r Hth Hat Hg Hc
        |th g fut' e r Hth Hat Hg Hc He |th g fut' e r Hth Hat Hg Hc He
        |th g fut' Hth Hat Hg ].
    + intros _. split; assumption.
    + destruct x as [|g|v].
      all: set (th' := ThreadResourceWorker.mk _ _);
        destruct (swap_thread _ w' th th' f Hth) as (Ht & Hs & _ & _);
        pose proof (backlog_swap _ w' th th' Hth) as Hb;
        cbn [ThreadResourceExecutor._workers
             ThreadResourceExecutor._work_queue];
        rewrite list_lookup_insert_ne by exact Hnw;
        intros Hsame; split; [exact Hth0|]; revert Hsame Hrel;
        unfold distance; subst th'; unfold remaining in Hb; count;
        rewrite ?Hat, ?Hqx in *; count; cbn [ahead in_queue].
      * destruct p; count; split_ltb; intros;
          first [exact I | assumption | lia | congruence].
      * same_ref g f; cbn [ind]; destruct p; count; split_ltb; intros;
          first [exact I | assumption | lia | congruence].
      * destruct p; count; split_ltb; intros;
          first [exact I | assumption | lia | congruence].
    + set (th' := ThreadResourceWorker.mk _ _).
      destruct (swap_thread _ w' th th' f Hth) as (Ht & Hs & _ & _).
      pose proof (backlog_swap _ w' th th' Hth) as Hb.
      cbn [ThreadResourceExecutor._workers ThreadResourceExecutor._work_queue].
      rewrite list_lookup_insert_ne by exact Hnw.
      intros Hsame. split; [exact Hth0|]. revert Hsame Hrel.
      unfold distance. subst th'. unfold remaining in Hb. count.
      rewrite ?Hat in *. count.
      same_ref g f; cbn [ind]; destruct p; count; split_ltb; intros;
        first [exact I | assumption | lia | congruence].
    + set (th' := ThreadResourceWorker.mk _ _).
      destruct (swap_thread _ w' th th' f Hth) as (Ht & Hs & _ & _).
      pose proof (backlog_swap _ w' th th' Hth) as Hb.
      cbn [ThreadResourceExecutor._workers ThreadResourceExecutor._work_queue].
      rewrite list_lookup_insert_ne by exact Hnw.
      intros Hsame. split; [exact Hth0|]. revert Hsame Hrel.
      unfold distance. subst th'. unfold remaining in Hb. count.
      rewrite ?Hat in *. count.
      same_ref g f; cbn [ind]; destruct p; count; split_ltb; intros;
        first [exact I | assumption | lia | congruence].
    + destruct (Nat.eq_dec g f) as [Heq|Hne];
        [subst g;
         destruct (safe_not_die safe st f fut' th e r Hsound Hsafe Hg Hc He)|].
      set (th' := ThreadResourceWorker.mk _ _).
      destruct (swap_thread _ w' th th' f Hth) as (Ht & Hs & _ & _).
      pose proof (backlog_swap _ w' th th' Hth) as Hb.
      cbn [ThreadResourceExecutor._workers ThreadResourceExecutor._work_queue].
      rewrite list_lookup_insert_ne by exact Hnw.
      intros Hsame. split; [exact Hth0|]. revert Hsame Hrel.
      unfold distance. subst th'. unfold remaining in Hb. count.
      rewrite ?Hat in *. count. rewrite ?(ind_eqb_neq _ _ Hne) in *.
      cbn [ind]; destruct p; count; split_ltb; intros;
        first [exact I | assumption | lia | congruence].
    + set (th' := ThreadResourceWorker.mk _ _).
      destruct (swap_thread _ w' th th' f Hth) as (Ht & Hs & _ & _).
      pose proof (backlog_swap _ w' th th' Hth) as Hb.
      cbn [ThreadResourceExecutor._workers ThreadResourceExecutor._work_queue].
      rewrite list_lookup_insert_ne by exact Hnw.
      intros Hsame. split; [exact Hth0|]. revert Hsame Hrel.
      unfold distance. subst th'. unfold remaining in Hb. count.
      rewrite ?Hat in *. count.
      same_ref g f; cbn [ind]; destruct p; count; split_ltb; intros;
        first [exact I | assumption | lia | congruence].
  - submitted ltac:(intros _; split; assumption).
    cbn [snd ThreadResourceExecutor._workers
      ThreadResourceExecutor._work_queue].
    intros _. split; [exact Hth0|]. revert Hrel. count.
    rewrite (ind_eqb_neq (length (ThreadResourceExecutor.heap st)) f) by lia.
    rewrite Nat.add_0_r. intros Hrel; exact Hrel.
  - intros _. split.
    + unfold ThreadResourceExecutor.shutdown_step.
      destruct (ThreadResourceExecutor.in_shutdown st) as [[|[|todo]|]|];
        try destruct (ThreadResourceExecutor.any_alive st); exact Hth0.
    + revert Hrel. unfold ThreadResourceExecutor.shutdown_step.
      destruct (ThreadResourceExecutor.in_shutdown st) as [[|[|todo]|]|];
        try destruct (ThreadResourceExecutor.any_alive st); count;
        rewrite ?Nat.add_0_r; intros Hrel; exact Hrel.
Qed.

End Leads.
Section Rounds.
Context {R : Type}.
Implicit Types (self st : ThreadResourceExecutor.t R).
Implicit Types (th : ThreadResourceWorker.t R).
Implicit Types (future : TaskFuture.t R).
Implicit Types (safe : nat -> bool).

Lemma guarded_run safe (acts : list (ThreadResourceExecutor.action R)) st
    (f : nat) :
  guarded safe st f ->
  guarded safe (ThreadResourceExecutor.run acts st) f
  /\ distance (ThreadResourceExecutor.run acts st) f <= distance st f.
Proof.
  revert st. induction acts as [|a acts IH]; intros st Hg.
  - split; [exact Hg|cbn; lia].
  - destruct (guarded_step safe a st f Hg) as [Hg' Hle].
    destruct (IH _ Hg') as [Hg'' Hle'].
    cbn. split; [exact Hg''|lia].
Qed.

(** An interleaving in which the thread that brings the future closer
    runs a statement brings the future closer. *)
Lemma lead_run safe (acts : list (ThreadResourceExecutor.action R)) (w : nat)
    st (f : nat) :
  guarded safe st f ->
  0 < distance st f ->
  leads w st f ->
  existsb (is_work w) acts = true ->
  distance (ThreadResourceExecutor.run acts st) f < distance st f.
Proof.
  revert st. induction acts as [|a acts IH];
    intros st Hg Hpos Hlead Hin; [discriminate Hin|].
  destruct (guarded_step safe a st f Hg) as [Hg' Hle].
  destruct (guarded_run safe acts _ f Hg') as [_ Hle'].
  cbn [ThreadResourceExecutor.run].
  destruct (is_work w a) eqn:Hw.
  - destruct a as [w'|fn args kw|]; try discriminate Hw.
    cbn in Hw. apply Nat.eqb_eq in Hw. subst w'.
    pose proof (distance_lead safe w st f Hg Hpos Hlead) as Hlt.
    clear IH. cbn [ThreadResourceExecutor.step] in *. lia.
  - cbn [existsb] in Hin. rewrite Hw in Hin. cbn in Hin.
    destruct (Nat.eq_dec (distance (ThreadResourceExecutor.step a st) f)
                (distance st f)) as [Heq|Hne]; [|lia].
    pose proof (lead_kept safe a w st f Hg Hw Heq Hlead) as Hk.
    specialize (IH _ Hg' ltac:(lia) Hk Hin). lia.
Qed.

Lemma sum_pos_exists {A : Type} (g : A -> nat) (l : list A) :
  0 < sum_list_with g l -> exists i x, l !! i = Some x /\ 0 < g x.
Proof.
  induction l as [|a l IH]; intros Hpos; [cbn in Hpos; lia|].
  change (0 < g a + sum_list_with g l) in Hpos.
  destruct (g a) as [|k] eqn:Hga.
  - destruct IH as (i & x & Hi & Hx); [lia|].
    exists (S i), x. split; assumption.
  - exists 0, a. split; [reflexivity|lia].
Qed.

(** While the event of a guarded future is not set, some thread brings
    it closer. *)
Lemma exists_lead safe st (f : nat) :
  guarded safe st f ->
  0 < distance st f ->
  exists w,
    w < length (ThreadResourceExecutor._workers st)
    /\ leads w st f.
Proof.
  intros (_ & _ & _ & _ & Hm) Hpos. unfold distance in Hpos. unfold leads.
  destruct (Nat.ltb_spec 0 (queued f (ThreadResourceExecutor._work_queue st)))
    as [Hq|Hq].
  - specialize (Hm Hq).
    assert (Ha : 0 < alive_count st) by lia.
    destruct (sum_pos_exists _ _ Ha) as (w & th & Hth & Hg).
    exists w. split; [eapply lookup_lt_Some, Hth|].
    exists th. split; [exact Hth|].
    destruct (ThreadResourceWorker.is_alive th); [reflexivity|cbn in Hg; lia].
  - destruct (Nat.ltb_spec 0 (trying f (ThreadResourceExecutor._workers st)))
      as [Ht|Ht].
    + destruct (sum_pos_exists _ _ Ht) as (w & th & Hth & Hg).
      exists w. split; [eapply lookup_lt_Some, Hth|].
      exists th. split; [exact Hth|].
      unfold at_try in Hg.
      destruct (ThreadResourceWorker.at_ th) as [|g|g| |e]; try lia.
      destruct (Nat.eq_dec g f) as [Heq|Hne]; [rewrite Heq; reflexivity|].
      rewrite (ind_eqb_neq _ _ Hne) in Hg. lia.
    + destruct (Nat.ltb_spec 0
                  (setting f (ThreadResourceExecutor._workers st)))
        as [Hs|Hs]; [|lia].
      destruct (sum_pos_exists _ _ Hs) as (w & th & Hth & Hg).
      exists w. split; [eapply lookup_lt_Some, Hth|].
      exists th. split; [exact Hth|].
      unfold at_set in Hg.
      destruct (ThreadResourceWorker.at_ th) as [|g|g| |e]; try lia.
      destruct (Nat.eq_dec g f) as [Heq|Hne]; [rewrite Heq; reflexivity|].
      rewrite (ind_eqb_neq _ _ Hne) in Hg. lia.
Qed.

Lemma round_works (n w : nat)
    (acts : list (ThreadResourceExecutor.action R)) :
  round n acts = true -> w < n -> existsb (is_work w) acts = true.
Proof.
  unfold round. intros Hall Hw.
  rewrite forallb_forall in Hall. apply Hall.
  apply in_seq. lia.
Qed.

Lemma workers_length_step (a : ThreadResourceExecutor.action R) st :
  length (ThreadResourceExecutor._workers (ThreadResourceExecutor.step a st))
  = length (ThreadResourceExecutor._workers st).
Proof.
  destruct a as [w|fn args kw|]; cbn [ThreadResourceExecutor.step].
  - destruct (work_worked w st); cbn; rewrite ?length_insert; reflexivity.
  - submitted ltac:(reflexivity). reflexivity.
  - unfold ThreadResourceExecutor.shutdown_step.
    destruct (ThreadResourceExecutor.in_shutdown st) as [[|[|todo]|]|];
      try destruct (ThreadResourceExecutor.any_alive st); reflexivity.
Qed.

Lemma workers_length_run (acts : list (ThreadResourceExecutor.action R)) st :
  length (ThreadResourceExecutor._workers (ThreadResourceExecutor.run acts st))
  = length (ThreadResourceExecutor._workers st).
Proof.
  revert st. induction acts as [|a acts IH]; intros st; [reflexivity|].
  cbn. rewrite IH. apply workers_length_step.
Qed.

(** Every round brings a guarded future one statement closer, at
    least. *)
Lemma rounds_closer safe
    (rounds : list (list (ThreadResourceExecutor.action R))) st (f : nat) :
  guarded safe st f ->
  Forall (fun acts =>
            round (length (ThreadResourceExecutor._workers st)) acts = true)
         rounds ->
  guarded safe (ThreadResourceExecutor.run (concat rounds) st) f
  /\ distance (ThreadResourceExecutor.run (concat rounds) st) f
     <= distance st f - length rounds.
Proof.
  revert st. induction rounds as [|acts rounds IH]; intros st Hg Hall.
  - cbn. split; [exact Hg|lia].
  - apply Forall_cons in Hall as [Hround Hrest].
    cbn [concat]. rewrite run_app.
    destruct (guarded_run safe acts st f Hg) as [Hg' Hle].
    destruct (IH (ThreadResourceExecutor.run acts st) Hg') as [Hg'' Hle'].
    + rewrite workers_length_run. exact Hrest.
    + split; [exact Hg''|]. cbn [length].
      destruct (Nat.eq_dec (distance st f) 0) as [Hz|Hnz]; [lia|].
      destruct (exists_lead safe st f Hg ltac:(lia)) as (w & Hw & Hlead).
      pose proof (lead_run safe acts w st f Hg ltac:(lia) Hlead
                    (round_works _ _ _ Hround Hw)) as Hlt.
      lia.
Qed.

End Rounds.

Section Settles.
Context {R : Type}.
Implicit Types (self st : ThreadResourceExecutor.t R).
Implicit Types (th : ThreadResourceWorker.t R).
Implicit Types (future : TaskFuture.t R).
Implicit Types (safe : nat -> bool).

(** What [result()] gives once the event is set and the slots hold the
    outcome of the task: the outcome, the raised error being the very
    exception that the task raised. *)
Lemma result_of_done (py2 expired : bool) future (o : outcome value)
    (timeout : timeout_t) :
  TaskFuture._finished future = true ->
  slots_hold o future ->
  TaskFuture.result py2 future timeout expired = Some o.
Proof.
  intros Hfin Hslots. unfold TaskFuture.result, Event_wait. rewrite Hfin.
  destruct o as [v|e].
  - destruct Hslots as [Hres ->]. rewrite Hres. reflexivity.
  - destruct Hslots as (_ & -> & _). unfold sys_exc_info.
    destruct py2.
    + rewrite raise3_own. reflexivity.
    + rewrite with_traceback_own. reflexivity.
Qed.

(** A guarded future at distance 0 is done. *)
Lemma arrived safe st (f : nat) :
  guarded safe st f ->
  distance st f = 0 ->
  exists future w o,
    ThreadResourceExecutor.heap st !! f = Some future
    /\ TaskFuture._finished future = true
    /\ In (EvCall w f o) (ThreadResourceExecutor.history st)
    /\ called f (ThreadResourceExecutor.history st) = 1
    /\ outcome_of future o
    /\ slots_hold o future.
Proof.
  intros (Hacc & Hsound & Hsafe & Hcw & _) Hz.
  destruct (Hsound f Hsafe) as (fut0 & Hf0 & _).
  pose proof (lookup_lt_Some _ _ _ Hf0) as Hlen.
  destruct (on_course st f Hacc Hlen Hcw) as (fut & p & Hf & Hp & Hnl).
  pose proof (phase_census _ _ _ _ Hp) as (Hcq & Hct & Hcs & Hcc & Hcwr & Hci).
  revert Hz. unfold distance.
  destruct p; count; split_ltb; intros Hz; try lia; try congruence.
  destruct Hp as [_ (Hfin & w & o & Hin & Ho & Hs)].
  exists fut, w, o. auto 10.
Qed.

Lemma ahead_last (ref : nat) (q : list object) :
  ahead ref (q ++ [OTaskFuture ref]) <= length q.
Proof.
  induction q as [|x q IH]; cbn [app ahead length].
  - cbn. rewrite ind_eqb_refl. lia.
  - destruct (in_queue ref x); lia.
Qed.

Lemma backlog_le (ws : list (ThreadResourceWorker.t R)) :
  backlog ws <= 2 * length ws.
Proof.
  induction ws as [|th ws IH]; [cbn; lia|].
  change (remaining th + backlog ws <= 2 * S (length ws)).
  unfold remaining at 1. destruct (ThreadResourceWorker.at_ th); lia.
Qed.

(** Telling one more reference does not add to what the queue and the
    tasks in hand may cost. *)
Lemma hazards_ahead_le safe safe' (ref : nat) (q : list object) :
  (forall g, safe g = true -> safe' g = true) ->
  hazards_ahead safe' ref (q ++ [OTaskFuture ref])
  <= sum_list_with (hazard safe) q.
Proof.
  intros Hle. induction q as [|x q IH]; cbn [app hazards_ahead sum_list_with].
  - cbn. rewrite ind_eqb_refl. lia.
  - destruct (in_queue ref x); [|lia].
    enough (hazard safe' x <= hazard safe x) by lia.
    destruct x as [|g|v]; cbn; try lia.
    destruct (safe g) eqn:Hg; [rewrite (Hle g Hg); lia|].
    destruct (safe' g); lia.
Qed.

Lemma armed_count_le safe safe' (ws : list (ThreadResourceWorker.t R)) :
  (forall g, safe g = true -> safe' g = true) ->
  armed_count safe' ws <= armed_count safe ws.
Proof.
  intros Hle. unfold armed_count.
  induction ws as [|th ws IH]; cbn [sum_list_with]; [lia|].
  enough (armed safe' th <= armed safe th) by lia.
  unfold armed. destruct (ThreadResourceWorker.at_ th) as [|g|g| |e]; try lia.
  destruct (safe g) eqn:Hg; [rewrite (Hle g Hg); lia|].
  destruct (safe' g); lia.
Qed.

(** A catchable task submitted to a pool with more threads alive than it
    may lose is guarded, at a distance bounded by the length of the queue
    and the number of workers. *)
Lemma submitted_guarded safe st (fn : callable R) (args : list value)
    (kw : kwargs) (f : nat) st1 :
  accounted st ->
  sound safe st ->
  catchable fn args kw ->
  exposure safe st < alive_count st ->
  ThreadResourceExecutor.submit st fn args kw = (Returned f, st1) ->
  guarded (fun g => if Nat.eqb g f then true else safe g) st1 f
  /\ ThreadResourceExecutor.heap st1 !! f
     = Some (TaskFuture.__init__ fn args kw)
  /\ distance st1 f
     <= 3 * (length (ThreadResourceExecutor._work_queue st) + 1)
        + 2 * length (ThreadResourceExecutor._workers st)
  /\ length (ThreadResourceExecutor._workers st1)
     = length (ThreadResourceExecutor._workers st).
Proof.
  intros Hacc Hsound Hcatch Hexp Hsub.
  pose proof (accounted_step (ThreadResourceExecutor.Submit fn args kw) st
                Hacc) as Hacc1.
  cbn [ThreadResourceExecutor.step] in Hacc1. rewrite Hsub in Hacc1.
  cbn [snd] in Hacc1.
  destruct (submit_cases st fn args kw) as [[e He]|He];
    rewrite He in Hsub; [discriminate Hsub|].
  injection Hsub as <- <-.
  pose proof (Hacc (length (ThreadResourceExecutor.heap st))) as Hnew.
  rewrite (lookup_ge_None_2 (ThreadResourceExecutor.heap st)) in Hnew by lia.
  apply census_split in Hnew as (Hcq & Hct & Hcs & Hcc & Hcwr & Hci).
  assert (Hle : forall g, safe g = true ->
                  (if Nat.eqb g (length (ThreadResourceExecutor.heap st))
                   then true else safe g) = true).
  { intros g Hg. rewrite Hg. destruct (Nat.eqb _ _); reflexivity. }
  split; [|split; [|split]].
  - split; [exact Hacc1|]. split; [|split; [|split]].
    + intros ref Href. cbn [ThreadResourceExecutor.heap].
      destruct (Nat.eq_dec ref (length (ThreadResourceExecutor.heap st)))
        as [Heq|Hne].
      * rewrite Heq. exists (TaskFuture.__init__ fn args kw).
        split; [apply list_lookup_middle; reflexivity|exact Hcatch].
      * apply Nat.eqb_neq in Hne. rewrite Hne in Href.
        destruct (Hsound ref Href) as (future & Hf & Hc).
        exists future. split; [|exact Hc].
        rewrite lookup_app_l by (eapply lookup_lt_Some, Hf). exact Hf.
    + rewrite Nat.eqb_refl. reflexivity.
    + count. lia.
    + intros _. cbn [ThreadResourceExecutor._work_queue
                     ThreadResourceExecutor._workers].
      rewrite (alive_count_same st (ThreadResourceExecutor.mk _ _ _ _ _)
                 eq_refl).
      unfold exposure in Hexp.
      pose proof (hazards_ahead_le safe _
                    (length (ThreadResourceExecutor.heap st))
                    (ThreadResourceExecutor._work_queue st) Hle) as H1.
      pose proof (armed_count_le safe _
                    (ThreadResourceExecutor._workers st) Hle) as H2.
      cbv beta in H1, H2. lia.
  - cbn. apply list_lookup_middle. reflexivity.
  - unfold distance. count. rewrite ind_eqb_refl.
    pose proof (ahead_last (length (ThreadResourceExecutor.heap st))
                  (ThreadResourceExecutor._work_queue st)) as Ha.
    pose proof (backlog_le (ThreadResourceExecutor._workers st)) as Hb.
    split_ltb; lia.
  - reflexivity.
Qed.

End Settles.

Section ResultSettles.
Context {R : Type}.
Implicit Types (self st : ThreadResourceExecutor.t R).

(** C1 (amended): take a pool at any time, and a task submitted to it
    whose call returns or raises an error derived from [Exception]; the
    call of [submit] returns, that is, no keyword argument is named
    [self], [fn] or [task]. Let more threads be alive at that time than
    the pool may still lose: one for every stop sentinel, for every
    object that is not a future and for every task that is not known to
    be catchable, on the queue or in the hand of a thread about to call
    it. Right after [submit], [result()] without a timeout is blocked.
    Once every worker has had the chance to run a statement often enough
    (three rounds for the task and for every item that was on the queue,
    two for every worker), whatever else happens in between ([submit] of
    any task, [shutdown]), the task has been called exactly once, its
    outcome is that of a call of [fn] with the submitted arguments on
    some resource of the pool, and [result()] gives that outcome: the
    value returned, or the very exception raised, with its class, cause
    and traceback. It keeps giving it whatever happens afterwards. *)
Theorem result_settles (py2 expired : bool) (resources : list R)
    (acts more : list (ThreadResourceExecutor.action R))
    (fn : callable R) (args : list value) (kw : kwargs)
    (rounds : list (list (ThreadResourceExecutor.action R)))
    (safe : nat -> bool) (f : nat) (st1 : ThreadResourceExecutor.t R) :
  let st :=
    ThreadResourceExecutor.run acts
      (ThreadResourceExecutor.__init__ resources) in
  ThreadResourceExecutor.submit st fn args kw = (Returned f, st1) ->
  catchable fn args kw ->
  sound safe st ->
  exposure safe st < alive_count st ->
  Forall (fun r => round (length resources) r = true) rounds ->
  3 * (length (ThreadResourceExecutor._work_queue st) + 1)
  + 2 * length resources <= length rounds ->
  let st2 := ThreadResourceExecutor.run (concat rounds) st1 in
  ThreadResourceExecutor.result_of py2 st1 f None expired = None
  /\ exists w o,
       In (EvCall w f o) (ThreadResourceExecutor.history st2)
       /\ called f (ThreadResourceExecutor.history st2) = 1
       /\ outcome_of (TaskFuture.__init__ fn args kw) o
       /\ ThreadResourceExecutor.result_of py2 st2 f None expired = Some o
       /\ ThreadResourceExecutor.result_of py2
            (ThreadResourceExecutor.run more st2) f None expired = Some o.
Proof.
  intros st Hsub Hcatch Hsound Hexp Hrounds Hbound st2.
  assert (Hacc : accounted st) by apply accounted_run.
  assert (Hlen : length (ThreadResourceExecutor._workers st)
                 = length resources).
  { subst st. rewrite workers_length_run. cbn. apply length_map. }
  destruct (submitted_guarded safe st fn args kw f st1 Hacc Hsound Hcatch
              Hexp Hsub) as (Hg1 & Hf1 & Hd1 & Hlen1).
  split.
  { unfold ThreadResourceExecutor.result_of. rewrite Hf1. reflexivity. }
  destruct (rounds_closer _ rounds st1 f Hg1) as [Hg2 Hd2].
  { rewrite Hlen1, Hlen. exact Hrounds. }
  fold st2 in Hg2, Hd2.
  destruct (arrived _ st2 f Hg2 ltac:(lia))
    as (fut & w & o & Hf2 & Hfin & Hin & Hone & Ho & Hslots).
  exists w, o. split; [exact Hin|]. split; [exact Hone|]. split; [|split].
  - destruct (same_call_run (concat rounds) st1 f _ Hf1)
      as (fut' & Hf' & Hsame).
    fold st2 in Hf'. rewrite Hf2 in Hf'. injection Hf' as <-.
    eapply outcome_of_same_call; eassumption.
  - unfold ThreadResourceExecutor.result_of. rewrite Hf2.
    apply result_of_done; assumption.
  - unfold ThreadResourceExecutor.result_of.
    rewrite (done_stable more st2 f fut); [| |exact Hf2|exact Hfin].
    + apply result_of_done; assumption.
    + apply Hg2.
Qed.

End ResultSettles.
(** Two workers. A task that calls [sys.exit()] has killed the first; a
    task that divides by zero is submitted, and [shutdown] runs while the
    second worker takes it: seven rounds. *)
Lemma result_settles_witness :
  let resources := [Handle 0 0; Handle 0 0] in
  let acts :=
    [ThreadResourceExecutor.Submit quit [] [];
     ThreadResourceExecutor.Work 0; ThreadResourceExecutor.Work 0] in
  let st :=
    ThreadResourceExecutor.run acts
      (ThreadResourceExecutor.__init__ resources) in
  let st1 := snd (ThreadResourceExecutor.submit st divide [] []) in
  let r :=
    [ThreadResourceExecutor.Work 0; ThreadResourceExecutor.Shutdown;
     ThreadResourceExecutor.Work 1] in
  let rounds := [r; r; r; r; r; r; r] in
  let st2 := ThreadResourceExecutor.run (concat rounds) st1 in
  ThreadResourceExecutor.submit st divide [] [] = (Returned 1, st1)
  /\ catchable divide [] []
  /\ sound (fun _ => false) st
  /\ exposure (fun _ => false) st < alive_count st
  /\ Forall (fun r => round 2 r = true) rounds
  /\ 3 * (length (ThreadResourceExecutor._work_queue st) + 1) + 2 * 2
     <= length rounds
  /\ exists w o,
       In (EvCall w 1 o) (ThreadResourceExecutor.history st2)
       /\ called 1 (ThreadResourceExecutor.history st2) = 1
       /\ outcome_of (TaskFuture.__init__ divide [] []) o
       /\ ThreadResourceExecutor.result_of false st2 1 None false = Some o
       /\ ThreadResourceExecutor.result_of false
            (ThreadResourceExecutor.run [ThreadResourceExecutor.Shutdown] st2)
            1 None false = Some o.
Proof.
  intros resources acts st st1 r rounds st2.
  assert (H1 : ThreadResourceExecutor.submit st divide [] []
               = (Returned 1, st1)) by reflexivity.
  assert (H2 : catchable divide [] []) by (intros h; reflexivity).
  assert (H3 : sound (fun _ => false) st) by (intros ref Href; discriminate).
  assert (H4 : exposure (fun _ => false) st < alive_count st)
    by (vm_compute; lia).
  assert (H5 : Forall (fun r => round 2 r = true) rounds)
    by (repeat constructor).
  assert (H6 : 3 * (length (ThreadResourceExecutor._work_queue st) + 1) + 2 * 2
               <= length rounds) by (vm_compute; lia).
  split; [exact H1|]. split; [exact H2|]. split; [exact H3|].
  split; [exact H4|]. split; [exact H5|]. split; [exact H6|].
  exact (proj2 (result_settles false false resources acts
                  [ThreadResourceExecutor.Shutdown] divide [] [] rounds
                  (fun _ => false) 1 st1 H1 H2 H3 H4 H5 H6)).
Defined.

(** C1, as stated, fails: on a pool with one worker, the future of a task
    that calls [sys.exit()] is never filled. [SystemExit] is not an
    [Exception], so it passes the [except] clause and ends the thread
    before [set()]; [result()] without a timeout neither returns nor
    raises, whatever happens afterwards. *)
Lemma result_never_settles_after_SystemExit :
  let st :=
    ThreadResourceExecutor.run
      [ThreadResourceExecutor.Submit quit [] [];
       ThreadResourceExecutor.Work 0; ThreadResourceExecutor.Work 0]
      (ThreadResourceExecutor.__init__ [Handle 0 0]) in
  List.map ThreadResourceWorker.at_ (ThreadResourceExecutor._workers st)
  = [ThreadResourceWorker.Died system_exit]
  /\ (forall more py2 expired,
        ThreadResourceExecutor.result_of py2
          (ThreadResourceExecutor.run more st) 0 None expired = None)
  /\ ~ (exists more o,
          ThreadResourceExecutor.result_of false
            (ThreadResourceExecutor.run more st) 0 None false = Some o).
Proof.
  cbv zeta.
  assert (Hin : In (EvCall 0 0 (Raised system_exit))
    (ThreadResourceExecutor.history
       (ThreadResourceExecutor.run
          [ThreadResourceExecutor.Submit quit [] [];
           ThreadResourceExecutor.Work 0; ThreadResourceExecutor.Work 0]
          (ThreadResourceExecutor.__init__ [Handle 0 0])))).
  { cbn. right. right. left. reflexivity. }
  assert (Hnever : forall more py2 expired,
    ThreadResourceExecutor.result_of py2
      (ThreadResourceExecutor.run more
         (ThreadResourceExecutor.run
            [ThreadResourceExecutor.Submit quit [] [];
             ThreadResourceExecutor.Work 0; ThreadResourceExecutor.Work 0]
            (ThreadResourceExecutor.__init__ [Handle 0 0])))
      0 None expired = None).
  { intros more.
    apply (lost_forever [Handle 0 0] _ more 0 0 system_exit Hin eq_refl). }
  split; [reflexivity|]. split; [exact Hnever|].
  intros (more & o & Ho). rewrite Hnever in Ho. discriminate Ho.
Qed.

(* ===================================================================== *)
(** ** More about the pool: its threads *)
(* ===================================================================== *)

Section ThreadFacts.
Context {R : Type}.
Implicit Types (self st : ThreadResourceExecutor.t R).
Implicit Types (th : ThreadResourceWorker.t R).
Implicit Types (future : TaskFuture.t R).

(** The pool has one thread per resource it was made with, for good:
    [num_workers] is the same in every state that an interleaving of
    the public operations and the workers reaches. *)
Theorem num_workers_constant (resources : list R)
    (acts : list (ThreadResourceExecutor.action R)) :
  ThreadResourceExecutor.num_workers
    (ThreadResourceExecutor.run acts
       (ThreadResourceExecutor.__init__ resources))
  = length resources.
Proof.
  unfold ThreadResourceExecutor.num_workers.
  rewrite workers_length_run. cbn. apply length_map.
Qed.

Lemma bystander_worker (a : ThreadResourceExecutor.action R) (w : nat) st :
  is_work w a = false ->
  ThreadResourceExecutor._workers (ThreadResourceExecutor.step a st) !! w
  = ThreadResourceExecutor._workers st !! w.
Proof.
  intros Hw. destruct a as [w'|fn args kw|];
    cbn [ThreadResourceExecutor.step].
  - cbn in Hw. apply Nat.eqb_neq in Hw.
    destruct (work_worked w' st); cbn [ThreadResourceExecutor._workers];
      rewrite ?list_lookup_insert_ne by exact Hw; reflexivity.
  - submitted ltac:(reflexivity). reflexivity.
  - unfold ThreadResourceExecutor.shutdown_step.
    destruct (ThreadResourceExecutor.in_shutdown st) as [[|[|todo]|]|];
      try destruct (ThreadResourceExecutor.any_alive st); reflexivity.
Qed.

(** Resource affinity: whatever the other threads do (the other workers,
    the callers of [submit] and of [shutdown]), the resource of worker [w]
    and the position of worker [w] in [run] stay as they are. Only worker
    [w] itself touches its resource. *)
Theorem resource_affinity (acts : list (ThreadResourceExecutor.action R))
    (w : nat) st :
  Forall (fun a => is_work w a = false) acts ->
  ThreadResourceExecutor._workers (ThreadResourceExecutor.run acts st) !! w
  = ThreadResourceExecutor._workers st !! w.
Proof.
  revert st. induction acts as [|a acts IH]; intros st Hall; [reflexivity|].
  apply Forall_cons in Hall as [Ha Hrest].
  cbn. rewrite IH by exact Hrest. apply bystander_worker, Ha.
Qed.

(** Of its own statements, only the call of a task in the [try] changes
    the resource of a worker: taking an object from the queue and setting
    an event leave it as it is. *)
Theorem resource_changes_in_try_only (w : nat) st th th' :
  ThreadResourceExecutor._workers st !! w = Some th ->
  ThreadResourceExecutor._workers (ThreadResourceExecutor.work w st) !! w
  = Some th' ->
  in_hand th = [] ->
  ThreadResourceWorker._resource th' = ThreadResourceWorker._resource th.
Proof.
  intros Hth Hth' Hhand. unfold in_hand in Hhand.
  assert (Hlt : w < length (ThreadResourceExecutor._workers st))
    by (eapply lookup_lt_Some, Hth).
  destruct (work_worked w st) as
    [ |th0 x rest Hth0 Hat Hqx |th0 f fut v r Hth0 Hat Hf Hc
      |th0 f fut e r Hth0 Hat Hf Hc He |th0 f fut e r Hth0 Hat Hf Hc He
      |th0 f fut Hth0 Hat Hf ];
    cbn [ThreadResourceExecutor._workers] in Hth';
    rewrite ?list_lookup_insert_eq in Hth' by exact Hlt;
    rewrite Hth0 in Hth || idtac.
  - congruence.
  - injection Hth as <-. injection Hth' as <-. reflexivity.
  - injection Hth as <-. rewrite Hat in Hhand. discriminate Hhand.
  - injection Hth as <-. rewrite Hat in Hhand. discriminate Hhand.
  - injection Hth as <-. rewrite Hat in Hhand. discriminate Hhand.
  - injection Hth as <-. injection Hth' as <-. reflexivity.
Qed.

(** The statements of the threads, [submit] and [shutdown] leave a thread
    that has left [run] as it is, its resource included. *)
Lemma stopped_run (acts : list (ThreadResourceExecutor.action R)) (w : nat)
    st th :
  ThreadResourceExecutor._workers st !! w = Some th ->
  ThreadResourceWorker.is_alive th = false ->
  ThreadResourceExecutor._workers (ThreadResourceExecutor.run acts st) !! w
  = Some th.
Proof.
  revert st. induction acts as [|a acts IH]; intros st Hth Hdead;
    [exact Hth|].
  cbn. apply IH; [|exact Hdead].
  destruct (is_work w a) eqn:Hw.
  - destruct a as [w'|fn args kw|]; try discriminate Hw.
    cbn in Hw. apply Nat.eqb_eq in Hw. subst w'.
    cbn [ThreadResourceExecutor.step].
    unfold ThreadResourceWorker.is_alive in Hdead.
    destruct (work_worked w st) as
      [ |th0 x rest Hth0 Hat Hqx |th0 f fut v r Hth0 Hat Hf Hc
        |th0 f fut e r Hth0 Hat Hf Hc He |th0 f fut e r Hth0 Hat Hf Hc He
        |th0 f fut Hth0 Hat Hf ]; [exact Hth|..].
    all: rewrite Hth0 in Hth; injection Hth as <-.
    all: rewrite Hat in Hdead; discriminate Hdead.
  - rewrite bystander_worker by exact Hw. exact Hth.
Qed.

(** Errors of tasks do not end the workers: as long as [shutdown] is not
    called and every task returns or raises an error derived from
    [Exception], every thread of the pool is alive, and the queue holds
    nothing but TaskFutures. *)
Theorem workers_survive_task_errors (resources : list R)
    (acts : list (ThreadResourceExecutor.action R)) :
  Forall calm acts ->
  let st :=
    ThreadResourceExecutor.run acts
      (ThreadResourceExecutor.__init__ resources) in
  Forall (fun th => ThreadResourceWorker.is_alive th = true)
         (ThreadResourceExecutor._workers st)
  /\ Forall (fun x => isinstance_TaskFuture x = true)
            (ThreadResourceExecutor._work_queue st)
  /\ alive_count st = length resources.
Proof.
  intros Hcalm st.
  destruct (healthy_run acts _ (healthy_init resources) Hcalm)
    as (_ & Hq & _ & Hw).
  fold st in Hq, Hw. split; [exact Hw|]. split; [exact Hq|].
  assert (Hlen : length (ThreadResourceExecutor._workers st)
                 = length resources).
  { subst st. rewrite workers_length_run. cbn. apply length_map. }
  rewrite <- Hlen. clear Hlen Hq. unfold alive_count.
  induction Hw as [|th ws Hth _ IH]; [reflexivity|].
  change (ind (ThreadResourceWorker.is_alive th)
          + sum_list_with (fun th => ind (ThreadResourceWorker.is_alive th)) ws
          = S (length ws)).
  rewrite Hth, IH. reflexivity.
Qed.

(** A future is in one place at a time, and its task is called once at
    most: in every state that an interleaving reaches, the references to
    a future on the queue and in the hands of the threads are one at most
    in all, and none is left once its task has been called and its slot
    written; no task is called a second time. *)
Theorem future_in_one_place (resources : list R)
    (acts : list (ThreadResourceExecutor.action R)) (ref : nat) :
  let st :=
    ThreadResourceExecutor.run acts
      (ThreadResourceExecutor.__init__ resources) in
  let h := ThreadResourceExecutor.history st in
  queued ref (ThreadResourceExecutor._work_queue st)
  + trying ref (ThreadResourceExecutor._workers st)
  + setting ref (ThreadResourceExecutor._workers st) <= 1
  /\ called ref h <= 1
  /\ called ref h
     + queued ref (ThreadResourceExecutor._work_queue st)
     + trying ref (ThreadResourceExecutor._workers st) <= 1
  /\ signalled ref h
     + queued ref (ThreadResourceExecutor._work_queue st)
     + trying ref (ThreadResourceExecutor._workers st)
     + setting ref (ThreadResourceExecutor._workers st) <= 1.
Proof.
  intros st h. pose proof (accounted_run resources acts ref) as Hacc.
  fold st in Hacc.
  destruct (ThreadResourceExecutor.heap st !! ref) as [future|].
  - destruct Hacc as [p Hp].
    pose proof (phase_census _ _ _ _ Hp) as (Hq & Ht & Hs & Hc & Hw & Hi).
    fold h in Hc, Hw, Hi. destruct p; cbn in Hq, Ht, Hs, Hc, Hw, Hi; lia.
  - apply census_split in Hacc as (Hq & Ht & Hs & Hc & Hw & Hi).
    fold h in Hc, Hw, Hi. lia.
Qed.

End ThreadFacts.

Section ShutdownCall.
Context {R : Type}.
Implicit Types (self st : ThreadResourceExecutor.t R).

(** A statement that is not of the caller of [shutdown] leaves that
    caller where it is. *)
Lemma in_shutdown_kept (a : ThreadResourceExecutor.action R) st :
  is_shutdown a = 0 ->
  ThreadResourceExecutor.in_shutdown (ThreadResourceExecutor.step a st)
  = ThreadResourceExecutor.in_shutdown st.
Proof.
  destruct a as [w|fn args kw|]; cbn [is_shutdown]; intros Ha;
    [| |discriminate Ha]; cbn [ThreadResourceExecutor.step].
  - destruct (work_worked w st); reflexivity.
  - submitted ltac:(reflexivity). reflexivity.
Qed.

Lemma in_shutdown_kept_run (acts : list (ThreadResourceExecutor.action R))
    st :
  shutdown_steps acts = 0 ->
  ThreadResourceExecutor.in_shutdown (ThreadResourceExecutor.run acts st)
  = ThreadResourceExecutor.in_shutdown st.
Proof.
  revert st. induction acts as [|a acts IH]; intros st Hz; [reflexivity|].
  unfold shutdown_steps in Hz. cbn [sum_list_with] in Hz.
  cbn [ThreadResourceExecutor.run]. rewrite IH by (unfold shutdown_steps; lia).
  apply in_shutdown_kept. lia.
Qed.

(** The call of [shutdown] returns in the state that a part of the
    interleaving leads to, from the [while] test that found no thread
    alive. *)
Lemma shutdown_returned (sched : list (ThreadResourceExecutor.action R))
    st st1 :
  ThreadResourceExecutor.shutdown sched st = Some st1 ->
  ThreadResourceExecutor.any_alive st1 = false
  /\ ThreadResourceExecutor.in_shutdown st1 = None
  /\ exists before after,
       sched = before ++ after
       /\ st1 = ThreadResourceExecutor.run before st.
Proof.
  revert st. induction sched as [|a sched IH]; intros st Hs;
    [discriminate Hs|].
  cbn [ThreadResourceExecutor.shutdown] in Hs.
  assert (Hrest : ThreadResourceExecutor.shutdown sched
                    (ThreadResourceExecutor.step a st) = Some st1 ->
                  ThreadResourceExecutor.any_alive st1 = false
                  /\ ThreadResourceExecutor.in_shutdown st1 = None
                  /\ exists before after,
                       a :: sched = before ++ after
                       /\ st1 = ThreadResourceExecutor.run before st).
  { intros Hr. destruct (IH _ Hr) as (Hd & Hn & before & after & -> & ->).
    split; [exact Hd|]. split; [exact Hn|].
    exists (a :: before), after. split; reflexivity. }
  destruct a as [w|fn args kw|]; try (apply Hrest; exact Hs).
  destruct (ThreadResourceExecutor.in_shutdown
              (ThreadResourceExecutor.step ThreadResourceExecutor.Shutdown st))
    eqn:Hpc; [apply Hrest; exact Hs|].
  injection Hs as <-. split; [|split; [exact Hpc|]].
  - revert Hpc. cbn [ThreadResourceExecutor.step].
    unfold ThreadResourceExecutor.shutdown_step.
    destruct (ThreadResourceExecutor.in_shutdown st) as [[|[|todo]|]|];
      try destruct (ThreadResourceExecutor.any_alive st) eqn:Hany;
      cbn; intros Hpc; try discriminate Hpc; exact Hany.
  - exists [ThreadResourceExecutor.Shutdown], sched. split; reflexivity.
Qed.

(** As long as the call of [shutdown] has not returned, its caller is
    inside it, from its first statement on. *)
Lemma shutdown_blocked (sched : list (ThreadResourceExecutor.action R)) st :
  ThreadResourceExecutor.shutdown sched st = None ->
  shutdown_steps sched = 0
  \/ ThreadResourceExecutor.in_shutdown (ThreadResourceExecutor.run sched st)
     <> None.
Proof.
  revert st. induction sched as [|a sched IH]; intros st Hs;
    [left; reflexivity|].
  cbn [ThreadResourceExecutor.shutdown] in Hs.
  cbn [ThreadResourceExecutor.run].
  destruct a as [w|fn args kw|].
  - destruct (IH _ Hs) as [Hz|Hin]; [left|right; exact Hin].
    unfold shutdown_steps in *. cbn [sum_list_with is_shutdown]. lia.
  - destruct (IH _ Hs) as [Hz|Hin]; [left|right; exact Hin].
    unfold shutdown_steps in *. cbn [sum_list_with is_shutdown]. lia.
  - right.
    destruct (ThreadResourceExecutor.in_shutdown
                (ThreadResourceExecutor.step ThreadResourceExecutor.Shutdown
                   st)) eqn:Hpc; [|discriminate Hs].
    destruct (IH _ Hs) as [Hz|Hin]; [|exact Hin].
    rewrite (in_shutdown_kept_run _ _ Hz), Hpc. discriminate.
Qed.

End ShutdownCall.

Section StoppedFacts.
Context {R : Type} `{Resource R}.
Implicit Types (self st : ThreadResourceExecutor.t R).
Implicit Types (th : ThreadResourceWorker.t R).

(** The loop over the resources of [__enter__] and [__exit__] leaves
    every thread where it stands in [run]. *)
Lemma for_thread_in_at (call : R -> outcome value * R)
    (ws : list (ThreadResourceWorker.t R)) (w : nat) th :
  ws !! w = Some th ->
  exists th',
    snd (ThreadResourceExecutor.for_thread_in call ws) !! w = Some th'
    /\ ThreadResourceWorker.at_ th' = ThreadResourceWorker.at_ th.
Proof.
  revert w. induction ws as [|th0 ws IH]; intros w Hw; [discriminate Hw|].
  cbn [ThreadResourceExecutor.for_thread_in].
  destruct (call (ThreadResourceWorker._resource th0)) as [[v|e] r].
  - specialize (IH (pred w)).
    destruct (ThreadResourceExecutor.for_thread_in call ws) as [o ws'].
    cbn [snd] in *. destruct w as [|w]; cbn in Hw |- *.
    + injection Hw as <-. eexists. split; reflexivity.
    + apply IH, Hw.
  - cbn [snd]. destruct w as [|w]; cbn in Hw |- *.
    + injection Hw as <-. eexists. split; reflexivity.
    + exists th. split; [exact Hw|reflexivity].
Qed.

Lemma stopped_move (m : ThreadResourceExecutor.move R) (w : nat) st th :
  ThreadResourceExecutor._workers st !! w = Some th ->
  ThreadResourceWorker.is_alive th = false ->
  exists th',
    ThreadResourceExecutor._workers (ThreadResourceExecutor.move_to m st) !! w
    = Some th'
    /\ ThreadResourceWorker.at_ th' = ThreadResourceWorker.at_ th.
Proof.
  intros Hth Hdead.
  destruct m as [a| |exception_type exception_value traceback sched];
    cbn [ThreadResourceExecutor.move_to].
  - exists th. split; [|reflexivity].
    exact (stopped_run [a] w st th Hth Hdead).
  - unfold ThreadResourceExecutor.__enter__.
    destruct (for_thread_in_at resource_enter _ w th Hth) as (th' & Hw & Hat).
    destruct (ThreadResourceExecutor.for_thread_in resource_enter _)
      as [o ws'].
    exists th'. split; [exact Hw|exact Hat].
  - unfold ThreadResourceExecutor.__exit__.
    destruct (ThreadResourceExecutor.shutdown sched st) as [st1|] eqn:Hs.
    + destruct (shutdown_returned sched st st1 Hs)
        as (_ & _ & before & after & _ & ->).
      pose proof (stopped_run before w st th Hth Hdead) as Hth1.
      destruct (for_thread_in_at
                  (resource_exit exception_type exception_value traceback)
                  _ w th Hth1) as (th' & Hw & Hat).
      destruct (ThreadResourceExecutor.for_thread_in _ _) as [o ws'].
      exists th'. split; [exact Hw|exact Hat].
    + exists th. split; [|reflexivity].
      exact (stopped_run sched w st th Hth Hdead).
Qed.

(** A thread that has left [run], by [break] or by an error, is never
    resumed. Whatever happens to the pool afterwards, statements of the
    other threads, calls of [submit] and [shutdown], calls of
    [__enter__] and [__exit__], it stands where it stopped. The
    statements of the threads, [submit] and [shutdown] also leave its
    resource as it was then; only the loops of [__enter__] and
    [__exit__] over the resources reach it. *)
Theorem stopped_worker_stays_stopped
    (ms : list (ThreadResourceExecutor.move R))
    (acts : list (ThreadResourceExecutor.action R)) (w : nat) st th :
  ThreadResourceExecutor._workers st !! w = Some th ->
  ThreadResourceWorker.is_alive th = false ->
  (exists th',
     ThreadResourceExecutor._workers (ThreadResourceExecutor.moves ms st) !! w
     = Some th'
     /\ ThreadResourceWorker.at_ th' = ThreadResourceWorker.at_ th
     /\ ThreadResourceWorker.is_alive th' = false)
  /\ ThreadResourceExecutor._workers (ThreadResourceExecutor.run acts st) !! w
     = Some th.
Proof.
  intros Hth Hdead. split; [|exact (stopped_run acts w st th Hth Hdead)].
  clear acts. revert st th Hth Hdead.
  induction ms as [|m ms IH]; intros st th Hth Hdead.
  - exists th. repeat split; assumption.
  - destruct (stopped_move m w st th Hth Hdead) as (th1 & Hth1 & Hat1).
    assert (Hdead1 : ThreadResourceWorker.is_alive th1 = false).
    { unfold ThreadResourceWorker.is_alive in *. rewrite Hat1. exact Hdead. }
    destruct (IH _ th1 Hth1 Hdead1) as (th' & Hth' & Hat' & Hdead').
    exists th'. split; [exact Hth'|]. split; [congruence|exact Hdead'].
Qed.

End StoppedFacts.

(** Two workers: what worker 0 and the callers of [submit] and [shutdown]
    do leaves worker 1 and its resource as they were. *)
Lemma resource_affinity_witness :
  let st := ThreadResourceExecutor.__init__ [Handle 0 0; Handle 1 0] in
  let acts :=
    [ThreadResourceExecutor.Submit tick [] []; ThreadResourceExecutor.Work 0;
     ThreadResourceExecutor.Work 0; ThreadResourceExecutor.Shutdown] in
  Forall (fun a => is_work 1 a = false) acts
  /\ ThreadResourceExecutor._workers (ThreadResourceExecutor.run acts st) !! 1
     = ThreadResourceExecutor._workers st !! 1.
Proof.
  intros st acts.
  assert (H1 : Forall (fun a => is_work 1 a = false) acts)
    by (repeat constructor).
  split; [exact H1|]. exact (resource_affinity acts 1 st H1).
Defined.

(** A worker that takes a task off the queue: its resource is the same
    before and after. *)
Lemma resource_changes_in_try_only_witness :
  let st :=
    ThreadResourceExecutor.run [ThreadResourceExecutor.Submit tick [] []]
      (ThreadResourceExecutor.__init__ [Handle 0 0]) in
  let th := ThreadResourceWorker.mk (Handle 0 0) ThreadResourceWorker.AtGet in
  let th' :=
    ThreadResourceWorker.mk (Handle 0 0) (ThreadResourceWorker.AtTry 0) in
  ThreadResourceExecutor._workers st !! 0 = Some th
  /\ ThreadResourceExecutor._workers (ThreadResourceExecutor.work 0 st) !! 0
     = Some th'
  /\ in_hand th = []
  /\ ThreadResourceWorker._resource th' = ThreadResourceWorker._resource th.
Proof.
  intros st th th'.
  assert (H1 : ThreadResourceExecutor._workers st !! 0 = Some th)
    by reflexivity.
  assert (H2 : ThreadResourceExecutor._workers
                 (ThreadResourceExecutor.work 0 st) !! 0 = Some th')
    by reflexivity.
  assert (H3 : in_hand th = []) by reflexivity.
  split; [exact H1|]. split; [exact H2|]. split; [exact H3|].
  exact (resource_changes_in_try_only 0 st th th' H1 H2 H3).
Defined.

(** A worker killed by [sys.exit()]: the pool is entered, used and left
    afterwards. *)
Lemma stopped_worker_stays_stopped_witness :
  let st :=
    ThreadResourceExecutor.run
      [ThreadResourceExecutor.Submit quit [] [];
       ThreadResourceExecutor.Work 0; ThreadResourceExecutor.Work 0]
      (ThreadResourceExecutor.__init__ [Handle 0 0]) in
  let th :=
    ThreadResourceWorker.mk (Handle 0 0)
      (ThreadResourceWorker.Died system_exit) in
  let acts :=
    [ThreadResourceExecutor.Work 0;
     ThreadResourceExecutor.Submit answer [] [];
     ThreadResourceExecutor.Work 0; ThreadResourceExecutor.Shutdown] in
  let ms :=
    [ThreadResourceExecutor.Enter;
     ThreadResourceExecutor.Step (ThreadResourceExecutor.Work 0);
     ThreadResourceExecutor.Exit PyNone PyNone PyNone
       [ThreadResourceExecutor.Shutdown]] in
  ThreadResourceExecutor._workers st !! 0 = Some th
  /\ ThreadResourceWorker.is_alive th = false
  /\ (exists th',
        ThreadResourceExecutor._workers (ThreadResourceExecutor.moves ms st)
          !! 0 = Some th'
        /\ ThreadResourceWorker.at_ th' = ThreadResourceWorker.at_ th
        /\ ThreadResourceWorker.is_alive th' = false)
  /\ ThreadResourceExecutor._workers (ThreadResourceExecutor.run acts st) !! 0
     = Some th.
Proof.
  intros st th acts ms.
  assert (H1 : ThreadResourceExecutor._workers st !! 0 = Some th)
    by reflexivity.
  assert (H2 : ThreadResourceWorker.is_alive th = false) by reflexivity.
  split; [exact H1|]. split; [exact H2|].
  exact (stopped_worker_stays_stopped ms acts 0 st th H1 H2).
Defined.

(** One worker and a task that divides by zero, run to its [set()]. *)
Lemma workers_survive_task_errors_witness :
  let acts :=
    [ThreadResourceExecutor.Submit divide [] [];
     ThreadResourceExecutor.Work 0; ThreadResourceExecutor.Work 0;
     ThreadResourceExecutor.Work 0] in
  let st :=
    ThreadResourceExecutor.run acts
      (ThreadResourceExecutor.__init__ [Handle 0 0]) in
  Forall calm acts
  /\ Forall (fun th => ThreadResourceWorker.is_alive th = true)
            (ThreadResourceExecutor._workers st)
  /\ Forall (fun x => isinstance_TaskFuture x = true)
            (ThreadResourceExecutor._work_queue st)
  /\ alive_count st = 1.
Proof.
  intros acts st.
  assert (H1 : Forall calm acts).
  { constructor; [intros r; reflexivity|]. repeat constructor. }
  split; [exact H1|].
  exact (workers_survive_task_errors [Handle 0 0] acts H1).
Defined.

(* ===================================================================== *)
(** ** More about [TaskFuture.result] *)
(* ===================================================================== *)

Section ResultFacts.
Context {R : Type}.
Implicit Types (self st : ThreadResourceExecutor.t R).
Implicit Types (future : TaskFuture.t R).

(** How [wait] ends: it blocks, it returns, or the event is not set and
    the timeout is more than the interpreter can wait for. *)
Lemma Event_wait_cases (flag : bool) (timeout : timeout_t) (expired : bool) :
  Event_wait flag timeout expired = None
  \/ (exists b, Event_wait flag timeout expired = Some (Returned b))
  \/ (Event_wait flag timeout expired = Some (Raised timeout_too_large)
      /\ flag = false
      /\ exists ms, timeout = Some ms /\ (TIMEOUT_MAX < ms)%Z).
Proof.
  unfold Event_wait. destruct flag; [right; left; eauto|].
  destruct timeout as [ms|]; [|left; reflexivity].
  destruct (Z.ltb_spec TIMEOUT_MAX ms); [right; right; eauto|].
  destruct (Z.leb ms 0); [right; left; eauto|].
  destruct expired; [right; left; eauto|left; reflexivity].
Qed.

Lemma result_reads_slots (py2 : bool) future (o : outcome value)
    (timeout : timeout_t) (expired : bool) :
  slots_hold o future ->
  TaskFuture.result py2 future timeout expired = None
  \/ TaskFuture.result py2 future timeout expired = Some o
  \/ (TaskFuture.result py2 future timeout expired
      = Some (Raised timeout_too_large)
      /\ TaskFuture._finished future = false
      /\ exists ms, timeout = Some ms /\ (TIMEOUT_MAX < ms)%Z).
Proof.
  intros Hslots. unfold TaskFuture.result.
  destruct (Event_wait_cases (TaskFuture._finished future) timeout expired)
    as [->|[[b ->]|(-> & Hfin & Hms)]];
    [left; reflexivity|right; left|right; right; auto].
  destruct o as [v|e].
  - destruct Hslots as [Hres ->]. rewrite Hres. reflexivity.
  - destruct Hslots as (_ & -> & _). unfold sys_exc_info.
    destruct py2; [rewrite raise3_own|rewrite with_traceback_own];
      reflexivity.
Qed.

Lemma result_fresh (py2 : bool) future (timeout : timeout_t)
    (expired : bool) :
  fresh future ->
  TaskFuture.result py2 future timeout expired = None
  \/ TaskFuture.result py2 future timeout expired = Some (Returned PyNone)
  \/ (TaskFuture.result py2 future timeout expired
      = Some (Raised timeout_too_large)
      /\ TaskFuture._finished future = false
      /\ exists ms, timeout = Some ms /\ (TIMEOUT_MAX < ms)%Z).
Proof.
  intros (_ & Hres & Hexc). unfold TaskFuture.result.
  destruct (Event_wait_cases (TaskFuture._finished future) timeout expired)
    as [->|[[b ->]|(-> & Hfin & Hms)]];
    [left; reflexivity|right; left|right; right; auto].
  rewrite Hexc, Hres. reflexivity.
Qed.

(** The two branches of [result], for Python 2 and for Python 3, raise the
    same exception: on every future of every state that an interleaving
    reaches, [result] gives the same under either interpreter, for every
    timeout. *)
Theorem result_same_under_py2 (resources : list R)
    (acts : list (ThreadResourceExecutor.action R)) (ref : nat) future
    (timeout : timeout_t) (expired : bool) :
  ThreadResourceExecutor.heap
    (ThreadResourceExecutor.run acts
       (ThreadResourceExecutor.__init__ resources)) !! ref = Some future ->
  TaskFuture.result true future timeout expired
  = TaskFuture.result false future timeout expired.
Proof.
  intros Hf. pose proof (accounted_run resources acts ref) as Hacc.
  rewrite Hf in Hacc. destruct Hacc as [p [_ Hp]].
  assert (Hcases : fresh future \/ exists o, slots_hold o future).
  { destruct p.
    - left. exact Hp.
    - left. exact Hp.
    - right. destruct Hp as (_ & w & o & _ & _ & Hs). eauto.
    - right. destruct Hp as (_ & w & o & _ & _ & Hs). eauto.
    - left. apply Hp. }
  unfold TaskFuture.result.
  destruct (Event_wait _ _ _) as [[b|e]|]; [|reflexivity|reflexivity].
  destruct Hcases as [(_ & _ & ->)|[o Hs]]; [reflexivity|].
  destruct o as [v|e].
  - destruct Hs as [_ ->]. reflexivity.
  - destruct Hs as (_ & -> & _). unfold sys_exc_info.
    rewrite raise3_own, with_traceback_own. reflexivity.
Qed.

(** What a [result(timeout)] that returns or raises can give, in every
    state that an interleaving reaches: [None] as long as no slot of the
    future has been written, the outcome of the one call of its task
    afterwards, and, while the event is not set, the [OverflowError] of
    [wait] for a timeout above [threading.TIMEOUT_MAX]. It never gives
    anything else, whether the timeout has expired or not. *)
Theorem result_is_None_or_outcome (resources : list R)
    (acts : list (ThreadResourceExecutor.action R)) (ref : nat) future
    (py2 : bool) (timeout : timeout_t) (expired : bool)
    (got : outcome value) :
  let st :=
    ThreadResourceExecutor.run acts
      (ThreadResourceExecutor.__init__ resources) in
  ThreadResourceExecutor.heap st !! ref = Some future ->
  TaskFuture.result py2 future timeout expired = Some got ->
  (got = Returned PyNone
   /\ written ref (ThreadResourceExecutor.history st) = 0
   /\ TaskFuture._finished future = false)
  \/ (exists w,
        In (EvCall w ref got) (ThreadResourceExecutor.history st)
        /\ written ref (ThreadResourceExecutor.history st) = 1
        /\ outcome_of future got)
  \/ (got = Raised timeout_too_large
      /\ TaskFuture._finished future = false
      /\ exists ms, timeout = Some ms /\ (TIMEOUT_MAX < ms)%Z).
Proof.
  intros st Hf Hres. pose proof (accounted_run resources acts ref) as Hacc.
  fold st in Hacc. rewrite Hf in Hacc. destruct Hacc as [p Hp].
  pose proof (phase_census _ _ _ _ Hp) as (_ & _ & _ & _ & Hw & _).
  destruct Hp as [_ Hp].
  assert (Hfresh : fresh future ->
    (got = Returned PyNone /\ TaskFuture._finished future = false)
    \/ (got = Raised timeout_too_large
        /\ TaskFuture._finished future = false
        /\ exists ms, timeout = Some ms /\ (TIMEOUT_MAX < ms)%Z)).
  { intros Hfr.
    destruct (result_fresh py2 future timeout expired Hfr)
      as [Hn|[Hs|(Hs & Hfin & Hms)]]; [congruence| |].
    - left. split; [congruence|apply Hfr].
    - right. split; [congruence|]. split; assumption. }
  assert (Hfilled :
    filled_from (ThreadResourceExecutor.history st) ref future ->
    (exists w, In (EvCall w ref got) (ThreadResourceExecutor.history st)
               /\ outcome_of future got)
    \/ (got = Raised timeout_too_large
        /\ TaskFuture._finished future = false
        /\ exists ms, timeout = Some ms /\ (TIMEOUT_MAX < ms)%Z)).
  { intros (w & o & Hin & Ho & Hs).
    destruct (result_reads_slots py2 future o timeout expired Hs)
      as [Hn|[Hs'|(Hs' & Hfin & Hms)]]; [congruence| |].
    - left. exists w. assert (o = got) as <- by congruence.
      split; assumption.
    - right. split; [congruence|]. split; assumption. }
  destruct p; cbn in Hw.
  - destruct (Hfresh Hp) as [[? ?]|?]; auto.
  - destruct (Hfresh Hp) as [[? ?]|?]; auto.
  - destruct Hp as [_ Hfil].
    destruct (Hfilled Hfil) as [(w & ? & ?)|?]; eauto 6.
  - destruct Hp as [_ Hfil].
    destruct (Hfilled Hfil) as [(w & ? & ?)|?]; eauto 6.
  - destruct Hp as [Hfr _]. destruct (Hfresh Hfr) as [[? ?]|?]; auto.
Qed.

(** On a future whose event is set, [result] never blocks and does not
    look at the timeout: every call gives the outcome of the one call of
    the task. *)
Theorem done_result_ignores_timeout (resources : list R)
    (acts : list (ThreadResourceExecutor.action R)) (ref : nat) future :
  let st :=
    ThreadResourceExecutor.run acts
      (ThreadResourceExecutor.__init__ resources) in
  ThreadResourceExecutor.heap st !! ref = Some future ->
  TaskFuture._finished future = true ->
  exists w o,
    In (EvCall w ref o) (ThreadResourceExecutor.history st)
    /\ forall py2 timeout expired,
         TaskFuture.result py2 future timeout expired = Some o.
Proof.
  intros st Hf Hfin. pose proof (accounted_run resources acts ref) as Hacc.
  fold st in Hacc. rewrite Hf in Hacc. destruct Hacc as [p Hp].
  pose proof (finished_done _ _ _ _ Hp Hfin) as ->.
  destruct Hp as [_ (_ & w & o & Hin & _ & Hs)].
  exists w, o. split; [exact Hin|]. intros py2 timeout expired.
  apply result_of_done; assumption.
Qed.

End ResultFacts.

(** The future of a task that divided by zero, after its [set()]. *)
Lemma result_same_under_py2_witness :
  let acts :=
    [ThreadResourceExecutor.Submit divide [] [];
     ThreadResourceExecutor.Work 0; ThreadResourceExecutor.Work 0;
     ThreadResourceExecutor.Work 0] in
  let future :=
    TaskFuture.mk divide [] [] true PyNone
      (Some (sys_exc_info division_by_zero)) in
  ThreadResourceExecutor.heap
    (ThreadResourceExecutor.run acts
       (ThreadResourceExecutor.__init__ [Handle 0 0])) !! 0 = Some future
  /\ TaskFuture.result true future None false
     = TaskFuture.result false future None false.
Proof.
  intros acts future.
  assert (H1 : ThreadResourceExecutor.heap
                 (ThreadResourceExecutor.run acts
                    (ThreadResourceExecutor.__init__ [Handle 0 0])) !! 0
               = Some future) by reflexivity.
  split; [exact H1|].
  exact (result_same_under_py2 [Handle 0 0] acts 0 future None false H1).
Defined.

(** [result(timeout)] on a future whose task has been called but whose
    event is not set yet, with a timeout that [wait] cannot take: the
    [OverflowError] of [wait] leaves [result]. *)
Lemma result_is_None_or_outcome_witness :
  let acts :=
    [ThreadResourceExecutor.Submit divide [] [];
     ThreadResourceExecutor.Work 0; ThreadResourceExecutor.Work 0] in
  let st :=
    ThreadResourceExecutor.run acts
      (ThreadResourceExecutor.__init__ [Handle 0 0]) in
  let future :=
    TaskFuture.mk divide [] [] false PyNone
      (Some (sys_exc_info division_by_zero)) in
  let timeout := Some (TIMEOUT_MAX + 1)%Z in
  let got := Raised timeout_too_large in
  ThreadResourceExecutor.heap st !! 0 = Some future
  /\ TaskFuture.result false future timeout false = Some got
  /\ ((got = Returned PyNone
       /\ written 0 (ThreadResourceExecutor.history st) = 0
       /\ TaskFuture._finished future = false)
      \/ (exists w,
            In (EvCall w 0 got) (ThreadResourceExecutor.history st)
            /\ written 0 (ThreadResourceExecutor.history st) = 1
            /\ outcome_of future got)
      \/ (got = Raised timeout_too_large
          /\ TaskFuture._finished future = false
          /\ exists ms, timeout = Some ms /\ (TIMEOUT_MAX < ms)%Z)).
Proof.
  intros acts st future timeout got.
  assert (H1 : ThreadResourceExecutor.heap st !! 0 = Some future)
    by reflexivity.
  assert (H2 : TaskFuture.result false future timeout false = Some got)
    by reflexivity.
  split; [exact H1|]. split; [exact H2|].
  exact (result_is_None_or_outcome [Handle 0 0] acts 0 future false
           timeout false got H1 H2).
Defined.

(** The future of a task that returned 42, after its [set()]. *)
Lemma done_result_ignores_timeout_witness :
  let acts :=
    [ThreadResourceExecutor.Submit answer [] [];
     ThreadResourceExecutor.Work 0; ThreadResourceExecutor.Work 0;
     ThreadResourceExecutor.Work 0] in
  let st :=
    ThreadResourceExecutor.run acts
      (ThreadResourceExecutor.__init__ [Handle 0 0]) in
  let future := TaskFuture.mk answer [] [] true (PyInt 42) None in
  ThreadResourceExecutor.heap st !! 0 = Some future
  /\ TaskFuture._finished future = true
  /\ exists w o,
       In (EvCall w 0 o) (ThreadResourceExecutor.history st)
       /\ forall py2 timeout expired,
            TaskFuture.result py2 future timeout expired = Some o.
Proof.
  intros acts st future.
  assert (H1 : ThreadResourceExecutor.heap st !! 0 = Some future)
    by reflexivity.
  assert (H2 : TaskFuture._finished future = true) by reflexivity.
  split; [exact H1|]. split; [exact H2|].
  exact (done_result_ignores_timeout [Handle 0 0] acts 0 future H1 H2).
Defined.

(* ===================================================================== *)
(** ** More about the pool: the order of the tasks *)
(* ===================================================================== *)

Section OrderFacts.
Context {R : Type}.
Implicit Types (self st : ThreadResourceExecutor.t R).
Implicit Types (th : ThreadResourceWorker.t R).
Implicit Types (future : TaskFuture.t R).

Lemma puts_app (h evs : list event) : puts (h ++ evs) = puts h ++ puts evs.
Proof. apply omap_app. Qed.

Lemma gets_app (h evs : list event) : gets (h ++ evs) = gets h ++ gets evs.
Proof. apply omap_app. Qed.

Lemma calls_app (h evs : list event) :
  calls (h ++ evs) = calls h ++ calls evs.
Proof. apply omap_app. Qed.

Lemma task_refs_app (xs ys : list object) :
  task_refs (xs ++ ys) = task_refs xs ++ task_refs ys.
Proof. apply omap_app. Qed.

Lemma fifo_step (a : ThreadResourceExecutor.action R) st :
  fifo st -> fifo (ThreadResourceExecutor.step a st).
Proof.
  intros [Hq Hp]. unfold fifo.
  destruct a as [w|fn args kw|]; cbn [ThreadResourceExecutor.step].
  - destruct (work_worked w st) as
      [ |th x rest Hth Hat Hqx |th f fut v r Hth Hat Hf Hc
        |th f fut e r Hth Hat Hf Hc He |th f fut e r Hth Hat Hf Hc He
        |th f fut Hth Hat Hf ];
      cbn [ThreadResourceExecutor.history ThreadResourceExecutor._work_queue
           ThreadResourceExecutor.heap];
      rewrite ?puts_app, ?gets_app, ?length_insert; cbn [puts gets omap];
      cbn; rewrite ?app_nil_r; try (split; assumption).
    rewrite Hqx in Hq. rewrite <- app_assoc. cbn. split; assumption.
  - submitted ltac:(split; assumption).
    cbn [snd ThreadResourceExecutor.history ThreadResourceExecutor._work_queue
         ThreadResourceExecutor.heap].
    rewrite puts_app, gets_app, task_refs_app, length_app. cbn.
    rewrite app_nil_r, app_assoc, Hq, Hp.
    split; [reflexivity|].
    rewrite Nat.add_1_r, seq_S. reflexivity.
  - unfold ThreadResourceExecutor.shutdown_step.
    destruct (ThreadResourceExecutor.in_shutdown st) as [[|[|todo]|]|];
      try destruct (ThreadResourceExecutor.any_alive st);
      cbn [ThreadResourceExecutor.history ThreadResourceExecutor._work_queue
           ThreadResourceExecutor.heap ThreadResourceExecutor.put];
      try (split; assumption).
    all: rewrite puts_app, gets_app, task_refs_app; cbn.
    all: rewrite !app_nil_r, app_assoc, Hq, Hp; split; reflexivity.
Qed.

Lemma fifo_run (resources : list R)
    (acts : list (ThreadResourceExecutor.action R)) :
  fifo (ThreadResourceExecutor.run acts
          (ThreadResourceExecutor.__init__ resources)).
Proof.
  apply (run_invariant fifo fifo_step). split; reflexivity.
Qed.

Lemma seq_prefix (l1 l2 : list nat) (n : nat) :
  l1 ++ l2 = seq 0 n -> l1 = seq 0 (length l1).
Proof.
  intros Heq.
  assert (Hlen : length l1 <= n).
  { apply (f_equal (@length nat)) in Heq.
    rewrite length_app, length_seq in Heq. lia. }
  assert (Htake : l1 = take (length l1) (seq 0 n))
    by (rewrite <- Heq, take_app_length; reflexivity).
  rewrite take_seq, Nat.min_l in Htake by lia. exact Htake.
Qed.

(** The work queue is first in, first out: in every state that an
    interleaving reaches, the objects taken by the workers so far,
    followed by the objects still on the queue, are the objects put by
    [submit] and [shutdown], in the order they were put. Nothing is lost,
    nothing is taken twice, nothing overtakes. *)
Theorem queue_is_fifo (resources : list R)
    (acts : list (ThreadResourceExecutor.action R)) :
  let st :=
    ThreadResourceExecutor.run acts
      (ThreadResourceExecutor.__init__ resources) in
  gets (ThreadResourceExecutor.history st)
  ++ ThreadResourceExecutor._work_queue st
  = puts (ThreadResourceExecutor.history st).
Proof. apply fifo_run. Qed.

(** The workers take the tasks in the order of their submission: [submit]
    hands out the references 0, 1, 2, ..., and in every state that an
    interleaving reaches the references taken so far are 0 to [m-1] in
    this order, for some [m], and the queue holds the others, in order. *)
Theorem tasks_taken_in_submission_order (resources : list R)
    (acts : list (ThreadResourceExecutor.action R)) :
  let st :=
    ThreadResourceExecutor.run acts
      (ThreadResourceExecutor.__init__ resources) in
  let taken := task_refs (gets (ThreadResourceExecutor.history st)) in
  taken = seq 0 (length taken)
  /\ taken ++ task_refs (ThreadResourceExecutor._work_queue st)
     = seq 0 (length (ThreadResourceExecutor.heap st))
  /\ task_refs (ThreadResourceExecutor._work_queue st)
     = seq (length taken)
           (length (ThreadResourceExecutor.heap st) - length taken).
Proof.
  intros st taken. destruct (fifo_run resources acts) as [Hq Hp].
  fold st in Hq, Hp.
  assert (Hall : taken ++ task_refs (ThreadResourceExecutor._work_queue st)
                 = seq 0 (length (ThreadResourceExecutor.heap st))).
  { subst taken. rewrite <- task_refs_app, Hq. exact Hp. }
  pose proof (seq_prefix _ _ _ Hall) as Htaken.
  split; [exact Htaken|]. split; [exact Hall|].
  assert (Hlen : length taken <= length (ThreadResourceExecutor.heap st)).
  { apply (f_equal (@length nat)) in Hall.
    rewrite length_app, length_seq in Hall. lia. }
  apply (f_equal (drop (length taken))) in Hall.
  rewrite drop_app_length in Hall. rewrite Hall, drop_seq. reflexivity.
Qed.

End OrderFacts.

(* ===================================================================== *)
(** ** More about the pool: a single worker *)
(* ===================================================================== *)

Section SingleWorker.
Context {R : Type}.
Implicit Types (self st : ThreadResourceExecutor.t R).
Implicit Types (th : ThreadResourceWorker.t R).
Implicit Types (future : TaskFuture.t R).

Lemma sigs_insert (heap : list (TaskFuture.t R)) (g : nat) future future' :
  heap !! g = Some future ->
  sig_of future' = sig_of future ->
  List.map sig_of (<[g := future']> heap) = List.map sig_of heap.
Proof.
  revert g. induction heap as [|x heap IH]; intros g Hg Hsig;
    [discriminate Hg|].
  destruct g as [|g]; cbn in Hg.
  - injection Hg as ->. cbn. rewrite Hsig. reflexivity.
  - change (<[S g := future']> (x :: heap)) with (x :: <[g := future']> heap).
    cbn [List.map]. rewrite (IH g Hg Hsig). reflexivity.
Qed.

Lemma sigs_lookup (heap : list (TaskFuture.t R)) (g : nat) future :
  heap !! g = Some future -> List.map sig_of heap !! g = Some (sig_of future).
Proof.
  revert g. induction heap as [|x heap IH]; intros g Hg; [discriminate Hg|].
  destruct g as [|g]; cbn in Hg |- *.
  - injection Hg as ->. reflexivity.
  - apply IH, Hg.
Qed.

Lemma sequential_snoc (cs : list (@call_sig R)) (c : call_sig) (r : R) :
  sequential (cs ++ [c]) r
  = (fst (sequential cs r) ++ [fst (run_sig c (snd (sequential cs r)))],
     snd (run_sig c (snd (sequential cs r)))).
Proof.
  revert r. induction cs as [|c0 cs IH]; intros r.
  - cbn. destruct (run_sig c r). reflexivity.
  - cbn [app sequential]. destruct (run_sig c0 r) as [o r'].
    rewrite IH. destruct (sequential cs r') as [os r'']. reflexivity.
Qed.

Lemma seq_last (l : list nat) (g m : nat) :
  l ++ [g] = seq 0 m -> g = length l.
Proof.
  intros Heq. pose proof (seq_prefix _ _ _ Heq) as Hl.
  assert (Hm : m = S (length l)).
  { apply (f_equal (@length nat)) in Heq.
    rewrite length_app, length_seq in Heq. cbn in Heq. lia. }
  subst m. rewrite seq_S in Heq. apply app_inj_tail in Heq as [_ ->].
  reflexivity.
Qed.

Lemma single_lookup th (w : nat) th0 :
  [th] !! w = Some th0 -> w = 0 /\ th0 = th.
Proof.
  destruct w as [|w]; cbn; [|discriminate].
  intros Heq. injection Heq as <-. split; reflexivity.
Qed.

(** The calls in a pool with one worker, after a call of the future in
    hand. *)
Lemma in_sequence_call (r0 r : R) st th (g w : nat) future future'
    (o : outcome value) (pc : ThreadResourceWorker.pc) (evs : list event) :
  fifo st ->
  ThreadResourceExecutor._workers st = [th] ->
  ThreadResourceWorker.at_ th = ThreadResourceWorker.AtTry g ->
  ThreadResourceExecutor.heap st !! g = Some future ->
  TaskFuture._task future (ThreadResourceWorker._resource th)
    (TaskFuture._args future) (TaskFuture._kwargs future) = (o, r) ->
  sig_of future' = sig_of future ->
  (forall ref, pc <> ThreadResourceWorker.AtTry ref) ->
  calls evs = [] -> gets evs = [] ->
  in_sequence r0 st ->
  in_sequence r0
    (ThreadResourceExecutor.mk (ThreadResourceExecutor._work_queue st)
       [ThreadResourceWorker.mk r pc]
       (<[g := future']> (ThreadResourceExecutor.heap st))
       (ThreadResourceExecutor.in_shutdown st)
       (ThreadResourceExecutor.history st ++ EvCall w g o :: evs)).
Proof.
  intros [Hq Hp] Hws Hat Hg Hc Hsig Hpc Hcalls Hgets
    (th1 & Hws1 & Horder & Hseq).
  rewrite Hws in Hws1. injection Hws1 as <-.
  unfold in_hand in Horder. rewrite Hat in Horder.
  exists (ThreadResourceWorker.mk r pc). split; [reflexivity|].
  cbn [ThreadResourceExecutor.history ThreadResourceExecutor.heap
       ThreadResourceWorker._resource].
  rewrite calls_app, gets_app.
  change (calls (EvCall w g o :: evs)) with ((g, o) :: calls evs).
  change (gets (EvCall w g o :: evs)) with (gets evs).
  rewrite Hcalls, Hgets, app_nil_r, !map_app, length_app. cbn [List.map fst snd length].
  split.
  - unfold in_hand. cbn [ThreadResourceWorker.at_].
    destruct pc; try (rewrite app_nil_r; exact Horder).
    destruct (Hpc future0 eq_refl).
  - assert (Hg' : g = length (calls (ThreadResourceExecutor.history st))).
    { assert (Hall : (List.map fst (calls (ThreadResourceExecutor.history st))
                      ++ [g])
                     ++ task_refs (ThreadResourceExecutor._work_queue st)
                     = seq 0 (length (ThreadResourceExecutor.heap st))).
      { rewrite Horder, <- task_refs_app, Hq. exact Hp. }
      pose proof (seq_prefix _ _ _ Hall) as Hpre.
      apply seq_last in Hpre. rewrite length_map in Hpre. exact Hpre. }
    rewrite (sigs_insert _ g future future' Hg Hsig).
    rewrite Nat.add_1_r.
    rewrite (take_S_r _ _ (sig_of future))
      by (rewrite <- Hg'; apply sigs_lookup, Hg).
    rewrite sequential_snoc, Hseq. cbn [fst snd].
    unfold run_sig, sig_of. cbn [fst snd]. rewrite Hc. reflexivity.
Qed.

Lemma in_sequence_step (r0 : R) (a : ThreadResourceExecutor.action R) st :
  fifo st -> in_sequence r0 st ->
  in_sequence r0 (ThreadResourceExecutor.step a st).
Proof.
  intros Hfifo Hin. pose proof Hin as (th & Hws & Horder & Hseq).
  destruct a as [w|fn args kw|]; cbn [ThreadResourceExecutor.step].
  - destruct (work_worked w st) as
      [ |th0 x rest Hth Hat Hqx |th0 f fut v r Hth Hat Hf Hc
        |th0 f fut e r Hth Hat Hf Hc He |th0 f fut e r Hth Hat Hf Hc He
        |th0 f fut Hth Hat Hf ]; [exact Hin|..].
    all: rewrite Hws in Hth; apply single_lookup in Hth as [-> ->].
    all: rewrite Hws; change (<[0 := ?t]> [th]) with [t].
    + (* an object is taken *)
      eexists. split; [reflexivity|].
      cbn [ThreadResourceExecutor.history ThreadResourceExecutor.heap
           ThreadResourceWorker._resource].
      rewrite calls_app, gets_app, task_refs_app. cbn [calls gets omap].
      cbn. rewrite app_nil_r. unfold in_hand in Horder. rewrite Hat in Horder.
      rewrite app_nil_r in Horder. split; [|exact Hseq].
      rewrite <- Horder. unfold in_hand. destruct x; cbn;
        rewrite ?app_nil_r; reflexivity.
    + apply (in_sequence_call r0 r st th f 0 fut _ (Returned v)
               (ThreadResourceWorker.AtSet f) [EvWriteResult 0 f v]);
        try assumption; try reflexivity. intros ref Habs. discriminate Habs.
    + apply (in_sequence_call r0 r st th f 0 fut _ (Raised e)
               (ThreadResourceWorker.AtSet f)
               [EvWriteExcinfo 0 f (sys_exc_info e)]);
        try assumption; try reflexivity. intros ref Habs. discriminate Habs.
    + rewrite <- (list_insert_id (ThreadResourceExecutor.heap st) f fut Hf)
        at 1.
      apply (in_sequence_call r0 r st th f 0 fut fut (Raised e)
               (ThreadResourceWorker.Died e) []);
        try assumption; try reflexivity. intros ref Habs. discriminate Habs.
    + (* the event is set *)
      eexists. split; [reflexivity|].
      cbn [ThreadResourceExecutor.history ThreadResourceExecutor.heap
           ThreadResourceWorker._resource].
      rewrite calls_app, gets_app. cbn [calls gets omap]. cbn.
      rewrite !app_nil_r.
      rewrite (sigs_insert _ f fut _ Hf) by reflexivity.
      unfold in_hand in Horder |- *. rewrite Hat in Horder. cbn.
      rewrite app_nil_r in Horder.
      split; [exact Horder|exact Hseq].
  - submitted ltac:(exact Hin). cbn [snd]. exists th. split; [exact Hws|].
    cbn [ThreadResourceExecutor.history ThreadResourceExecutor.heap].
    rewrite calls_app, gets_app. cbn [calls gets omap]. cbn.
    rewrite !app_nil_r. split; [exact Horder|].
    rewrite map_app, take_app_le; [exact Hseq|].
    rewrite length_map.
    destruct Hfifo as [Hq Hp].
    assert (Hall : (List.map fst (calls (ThreadResourceExecutor.history st))
                    ++ in_hand th)
                   ++ task_refs (ThreadResourceExecutor._work_queue st)
                   = seq 0 (length (ThreadResourceExecutor.heap st))).
    { rewrite Horder, <- task_refs_app, Hq. exact Hp. }
    apply (f_equal (@length nat)) in Hall.
    rewrite !length_app, length_seq, length_map in Hall. lia.
  - unfold ThreadResourceExecutor.shutdown_step.
    destruct (ThreadResourceExecutor.in_shutdown st) as [[|[|todo]|]|];
      try destruct (ThreadResourceExecutor.any_alive st);
      try (exists th; split; [exact Hws|split; [exact Horder|exact Hseq]]).
    all: exists th; split; [exact Hws|].
    all: cbn [ThreadResourceExecutor.history ThreadResourceExecutor.heap
              ThreadResourceExecutor.put].
    all: rewrite calls_app, gets_app; cbn [calls gets omap]; cbn.
    all: rewrite !app_nil_r; split; [exact Horder|exact Hseq].
Qed.

Lemma in_sequence_run (r0 : R)
    (acts : list (ThreadResourceExecutor.action R)) :
  let st :=
    ThreadResourceExecutor.run acts (ThreadResourceExecutor.__init__ [r0]) in
  let done := calls (ThreadResourceExecutor.history st) in
  List.map fst done = seq 0 (length done)
  /\ exists th,
       ThreadResourceExecutor._workers st = [th]
       /\ sequential
            (take (length done)
                  (List.map sig_of (ThreadResourceExecutor.heap st))) r0
          = (List.map snd done, ThreadResourceWorker._resource th).
Proof.
  intros st done.
  assert (Hboth : fifo st /\ in_sequence r0 st).
  { subst st.
    apply (run_invariant (fun st => fifo st /\ in_sequence r0 st)).
    - intros a st [Hf Hi]. split; [apply fifo_step, Hf|].
      apply in_sequence_step; assumption.
    - split; [split; reflexivity|].
      eexists. split; [reflexivity|]. split; reflexivity. }
  destruct Hboth as [[Hq Hp] (th & Hws & Horder & Hseq)].
  fold done in Horder, Hseq. split.
  - assert (Hall : (List.map fst done ++ in_hand th)
                   ++ task_refs (ThreadResourceExecutor._work_queue st)
                   = seq 0 (length (ThreadResourceExecutor.heap st))).
    { rewrite Horder, <- task_refs_app, Hq. exact Hp. }
    rewrite <- app_assoc in Hall. apply seq_prefix in Hall.
    rewrite length_map in Hall. exact Hall.
  - exists th. split; [exact Hws|exact Hseq].
Qed.

End SingleWorker.

Section SingleWorkerPool.
Context {R : Type} `{Resource R}.

(** With a single worker, the pool runs the tasks one after the other in
    the order of their submission. Take the pool as it was made, or as
    [__enter__] at the start of a [with] block has left it, and any
    interleaving of worker statements, [submit] and [shutdown] from
    there: the calls made so far are those of the futures 0 to [k-1], in
    this order, their outcomes are those of running these calls one after
    the other on the one resource, starting from the resource the pool
    was made with, or as [__enter__] left it, and the resource of the
    worker is the resource that these calls leave behind. *)
Theorem single_worker_runs_in_sequence (r0 : R) (entered : bool)
    (acts : list (ThreadResourceExecutor.action R)) :
  let made := ThreadResourceExecutor.__init__ [r0] in
  let st0 :=
    if entered then snd (ThreadResourceExecutor.__enter__ made) else made in
  let r1 := if entered then snd (resource_enter r0) else r0 in
  let st := ThreadResourceExecutor.run acts st0 in
  let done := calls (ThreadResourceExecutor.history st) in
  List.map fst done = seq 0 (length done)
  /\ exists th,
       ThreadResourceExecutor._workers st = [th]
       /\ sequential
            (take (length done)
                  (List.map sig_of (ThreadResourceExecutor.heap st))) r1
          = (List.map snd done, ThreadResourceWorker._resource th).
Proof.
  intros made st0 r1.
  assert (Hst0 : st0 = ThreadResourceExecutor.__init__ [r1]).
  { subst st0 r1 made. destruct entered; [|reflexivity].
    unfold ThreadResourceExecutor.__enter__. cbn.
    destruct (resource_enter r0) as [[v|e] r]; reflexivity. }
  rewrite Hst0. exact (in_sequence_run r1 acts).
Qed.

End SingleWorkerPool.

(* ===================================================================== *)
(** ** More about [ResourceExecutor.map] *)
(* ===================================================================== *)

Section MapFacts.
Context {R : Type} `{Resource R}.
Import ResourceExecutor.

Lemma calls_until_error (func : callable R) (iterables : list value) (r : R) :
  let '(vs, err, r') := calls func iterables r in
  length vs <= length iterables
  /\ (err = None <-> length vs = length iterables)
  /\ forall e, err = Some e ->
       exists x r0,
         iterables !! length vs = Some x
         /\ calls func (take (length vs) iterables) r = (vs, None, r0)
         /\ func r0 [x] [] = (Raised e, r').
Proof.
  revert r. induction iterables as [|x rest IH]; intros r.
  - cbn. split; [lia|]. split; [split; reflexivity|]. intros e He.
    discriminate He.
  - cbn [calls]. destruct (func r [x] []) as [[v|e0] r1] eqn:Hcall.
    + specialize (IH r1). destruct (calls func rest r1) as [[vs err] r'].
      destruct IH as (Hle & Hiff & Herr). cbn [length].
      split; [lia|]. split; [rewrite Hiff; split; lia|].
      intros e He. destruct (Herr e He) as (y & r0 & Hy & Hpre & Hfail).
      exists y, r0. split; [exact Hy|]. split; [|exact Hfail].
      cbn [take calls]. rewrite Hcall, Hpre. reflexivity.
    + cbn [length]. split; [lia|]. split; [split; [discriminate|lia]|].
      intros e He. injection He as <-. exists x, r.
      split; [reflexivity|]. split; [reflexivity|exact Hcall].
Qed.

(** The generator of [map] is good for one pass: once it has been drained
    it is finished, every further [next] raises StopIteration, and no
    further call of [func] is made, so that the resource stays as the
    pass left it. This holds however the pass ended, and under either
    treatment of a [StopIteration] that leaves a generator. *)
Theorem map_exhausted_stays_exhausted (generator_stop : bool)
    (func : callable R) (iterables : list value) (self : t R) (fuel : nat) :
  let '(vs, err, g, self') :=
    drain generator_stop (size (map self func iterables))
          (map self func iterables) self in
  next generator_stop g self' = (StopIteration, g, self')
  /\ drain generator_stop fuel g self' = ([], None, g, self').
Proof.
  pose proof (drain_map generator_stop func iterables self) as Hd.
  destruct (drain _ _ _ self) as [[[vs err] g] self'].
  destruct (calls func iterables (_resource self)) as [[vs0 e0] r0].
  destruct Hd as (_ & _ & _ & ->). split; [reflexivity|].
  destruct fuel; reflexivity.
Qed.

(** [map] stops at the first call of [func] that raises: the values
    yielded before are those of the calls on the arguments before, each on
    the resource as the call before left it; the arguments after the one
    that failed are never passed to [func], and the resource is left as
    the failing call left it. The caller of [next] gets the exception of
    the failing call, unless it is a [StopIteration]: that one reaches the
    caller as a [RuntimeError] whose cause it is (Python 3.7 and later),
    or ends the iteration as if the arguments were exhausted (before).
    Without a failing call there is one value per argument and no
    error. *)
Theorem map_stops_at_first_error (generator_stop : bool) (func : callable R)
    (iterables : list value) (self : t R) :
  let '(vs, err, g, self') :=
    drain generator_stop (size (map self func iterables))
          (map self func iterables) self in
  length vs <= length iterables
  /\ (length vs = length iterables ->
      err = None
      /\ calls func iterables (_resource self)
         = (vs, None, _resource self'))
  /\ (length vs < length iterables ->
      exists x r0 e,
        iterables !! length vs = Some x
        /\ calls func (take (length vs) iterables) (_resource self)
           = (vs, None, r0)
        /\ func r0 [x] [] = (Raised e, _resource self')
        /\ err = generator_exit generator_stop e).
Proof.
  pose proof (drain_map generator_stop func iterables self) as Hd.
  pose proof (calls_until_error func iterables (_resource self)) as Hc.
  destruct (drain _ _ _ self) as [[[vs err] g] self'].
  destruct (calls func iterables (_resource self)) as [[vs0 e0] r0'].
  destruct Hd as (-> & -> & Hr & _). destruct Hc as (Hle & Hiff & Herr).
  split; [exact Hle|]. split.
  - intros Hlen. apply Hiff in Hlen. rewrite Hlen, Hr.
    split; reflexivity.
  - intros Hlt. destruct e0 as [e|].
    + destruct (Herr e eq_refl) as (x & r0 & Hx & Hpre & Hfail).
      exists x, r0, e. rewrite Hr. repeat split; assumption.
    + exfalso. assert (length vs0 = length iterables) by (apply Hiff; reflexivity).
      lia.
Qed.

End MapFacts.

(* ===================================================================== *)
(** ** More about the pool: stopping *)
(* ===================================================================== *)

Section StopFacts.
Context {R : Type}.
Implicit Types (self st : ThreadResourceExecutor.t R).
Implicit Types (th : ThreadResourceWorker.t R).
Implicit Types (future : TaskFuture.t R).

Lemma stops_among_app (xs ys : list object) :
  stops_among (xs ++ ys) = stops_among xs + stops_among ys.
Proof. apply sum_list_with_app. Qed.

Lemma stops_among_puts (h : list event) : stops_among (puts h) = stops h.
Proof.
  induction h as [|ev h IH]; [reflexivity|].
  destruct ev as [x|w x|w ref o|w ref v|w ref ei|w ref];
    try exact IH.
  change (is_stop x + stops_among (puts h) = is_stop_put (EvPut x) + stops h).
  rewrite IH. destruct x; reflexivity.
Qed.

Lemma one_stop_each_step (a : ThreadResourceExecutor.action R) st :
  one_stop_each st -> one_stop_each (ThreadResourceExecutor.step a st).
Proof.
  unfold one_stop_each. intros Hinv.
  destruct a as [w|fn args kw|]; cbn [ThreadResourceExecutor.step].
  - destruct (work_worked w st) as
      [ |th x rest Hth Hat Hqx |th f fut v r Hth Hat Hf Hc
        |th f fut e r Hth Hat Hf Hc He |th f fut e r Hth Hat Hf Hc He
        |th f fut Hth Hat Hf ]; [exact Hinv|..];
      cbn [ThreadResourceExecutor.history ThreadResourceExecutor._workers];
      rewrite gets_app, stops_among_app; unfold stopped_by_break in *.
    all: match goal with
         | |- sum_list_with _ (<[_ := ?t]> _) = _ =>
             pose proof (sum_insert left_by_break _ w t th Hth) as Hs
         end.
    all: unfold left_by_break in Hs at 2 4; rewrite Hat in Hs;
      cbn [ThreadResourceWorker.at_] in Hs.
    all: cbn [gets omap get_of stops_among sum_list_with is_stop].
    + destruct x; cbn in Hs |- *; lia.
    + cbn in Hs |- *; lia.
    + cbn in Hs |- *; lia.
    + cbn in Hs |- *; lia.
    + cbn in Hs |- *; lia.
  - submitted ltac:(exact Hinv). cbn [snd ThreadResourceExecutor.history
      ThreadResourceExecutor._workers].
    rewrite gets_app. cbn. rewrite app_nil_r. exact Hinv.
  - unfold ThreadResourceExecutor.shutdown_step.
    destruct (ThreadResourceExecutor.in_shutdown st) as [[|[|todo]|]|];
      try destruct (ThreadResourceExecutor.any_alive st);
      cbn [ThreadResourceExecutor.history ThreadResourceExecutor._workers
           ThreadResourceExecutor.put];
      try exact Hinv.
    all: rewrite gets_app; cbn; rewrite app_nil_r; exact Hinv.
Qed.

(** A stop sentinel stops one thread, whichever takes it: in every state
    that an interleaving reaches, the threads that have left [run] by its
    [break] are as many as the sentinels taken off the queue, and the
    sentinels taken and those still on the queue are the sentinels that
    [shutdown] has put. *)
Theorem one_worker_per_stop (resources : list R)
    (acts : list (ThreadResourceExecutor.action R)) :
  let st :=
    ThreadResourceExecutor.run acts
      (ThreadResourceExecutor.__init__ resources) in
  stopped_by_break (ThreadResourceExecutor._workers st)
  = stops_among (gets (ThreadResourceExecutor.history st))
  /\ stops_among (gets (ThreadResourceExecutor.history st))
     + stops_among (ThreadResourceExecutor._work_queue st)
     = stops (ThreadResourceExecutor.history st).
Proof.
  intros st. split.
  - apply (run_invariant one_stop_each one_stop_each_step).
    unfold one_stop_each, stopped_by_break. cbn.
    induction resources as [|r rs IH]; [reflexivity|exact IH].
  - destruct (fifo_run resources acts) as [Hq _]. fold st in Hq.
    rewrite <- stops_among_app, Hq. apply stops_among_puts.
Qed.

Lemma dead_hands st (ref : nat) :
  ThreadResourceExecutor.any_alive st = false ->
  trying ref (ThreadResourceExecutor._workers st) = 0
  /\ setting ref (ThreadResourceExecutor._workers st) = 0.
Proof.
  intros Hdead. apply any_alive_false in Hdead. unfold trying, setting.
  induction Hdead as [|th ws Hth _ [IH1 IH2]]; [split; reflexivity|].
  change (at_try ref th + sum_list_with (at_try ref) ws = 0
          /\ at_set ref th + sum_list_with (at_set ref) ws = 0).
  rewrite IH1, IH2. unfold at_try, at_set.
  unfold ThreadResourceWorker.is_alive in Hth.
  destruct (ThreadResourceWorker.at_ th); try discriminate Hth;
    split; reflexivity.
Qed.

(** With no thread alive, nothing writes to a future. *)
Lemma dead_heap_step (a : ThreadResourceExecutor.action R) st (ref : nat)
    future :
  ThreadResourceExecutor.any_alive st = false ->
  ThreadResourceExecutor.heap st !! ref = Some future ->
  ThreadResourceExecutor.heap (ThreadResourceExecutor.step a st) !! ref
  = Some future.
Proof.
  intros Hdead Hf. pose proof Hdead as Hall. apply any_alive_false in Hall.
  destruct a as [w|fn args kw|]; cbn [ThreadResourceExecutor.step].
  - destruct (work_worked w st) as
      [ |th x rest Hth Hat Hqx |th f fut v r Hth Hat Hg Hc
        |th f fut e r Hth Hat Hg Hc He |th f fut e r Hth Hat Hg Hc He
        |th f fut Hth Hat Hg ]; [exact Hf|..].
    all: eapply Forall_lookup_1 in Hall; [|exact Hth].
    all: unfold ThreadResourceWorker.is_alive in Hall.
    all: rewrite Hat in Hall; discriminate Hall.
  - submitted ltac:(exact Hf). cbn [snd ThreadResourceExecutor.heap].
    rewrite lookup_app_l by (eapply lookup_lt_Some, Hf). exact Hf.
  - unfold ThreadResourceExecutor.shutdown_step.
    destruct (ThreadResourceExecutor.in_shutdown st) as [[|[|todo]|]|];
      try destruct (ThreadResourceExecutor.any_alive st); exact Hf.
Qed.

Lemma dead_heap_run (acts : list (ThreadResourceExecutor.action R)) st
    (ref : nat) future :
  ThreadResourceExecutor.any_alive st = false ->
  ThreadResourceExecutor.heap st !! ref = Some future ->
  ThreadResourceExecutor.heap (ThreadResourceExecutor.run acts st) !! ref
  = Some future.
Proof.
  revert st. induction acts as [|a acts IH]; intros st Hdead Hf; [exact Hf|].
  cbn. apply IH.
  - apply (dead_run [a]), Hdead.
  - apply dead_heap_step; assumption.
Qed.

(** Once no thread of the pool is alive, as when [shutdown] has returned,
    no task is left half done: every future either has its event set and
    holds the outcome of the one call of its task, or is as it was made
    and stays so for good, so that its [result()] never returns. Tasks
    still queued then, or submitted later, are never run. *)
Theorem nothing_in_flight_once_stopped (resources : list R)
    (acts more : list (ThreadResourceExecutor.action R)) (ref : nat) future :
  let st :=
    ThreadResourceExecutor.run acts
      (ThreadResourceExecutor.__init__ resources) in
  ThreadResourceExecutor.any_alive st = false ->
  ThreadResourceExecutor.heap st !! ref = Some future ->
  (TaskFuture._finished future = true
   /\ exists w o,
        In (EvCall w ref o) (ThreadResourceExecutor.history st)
        /\ slots_hold o future)
  \/ (fresh future
      /\ ThreadResourceExecutor.heap (ThreadResourceExecutor.run more st)
           !! ref = Some future
      /\ forall py2 expired,
           ThreadResourceExecutor.result_of py2
             (ThreadResourceExecutor.run more st) ref None expired = None).
Proof.
  intros st Hdead Hf.
  pose proof (accounted_run resources acts ref) as Hacc. fold st in Hacc.
  rewrite Hf in Hacc. destruct Hacc as [p Hp].
  pose proof (phase_census _ _ _ _ Hp) as (_ & Ht & Hs & _).
  destruct (dead_hands st ref Hdead) as [Ht0 Hs0].
  assert (Hfresh : fresh future ->
    fresh future
    /\ ThreadResourceExecutor.heap (ThreadResourceExecutor.run more st)
         !! ref = Some future
    /\ forall py2 expired,
         ThreadResourceExecutor.result_of py2
           (ThreadResourceExecutor.run more st) ref None expired = None).
  { intros Hfr. split; [exact Hfr|].
    pose proof (dead_heap_run more st ref future Hdead Hf) as Hf'.
    split; [exact Hf'|]. intros py2 expired.
    unfold ThreadResourceExecutor.result_of. rewrite Hf'.
    unfold TaskFuture.result, Event_wait.
    destruct Hfr as [-> _]. reflexivity. }
  destruct Hp as [_ Hp]. destruct p; cbn in Ht, Hs.
  - right. apply Hfresh, Hp.
  - lia.
  - lia.
  - left. destruct Hp as (Hfin & w & o & Hin & _ & Hslots).
    split; [exact Hfin|]. exists w, o. split; assumption.
  - right. apply Hfresh, Hp.
Qed.

End StopFacts.

(** A pool whose one worker was taken down by [sys.exit()]: the task
    submitted afterwards is never run. *)
Lemma nothing_in_flight_once_stopped_witness :
  let acts :=
    [ThreadResourceExecutor.Submit quit [] [];
     ThreadResourceExecutor.Work 0; ThreadResourceExecutor.Work 0;
     ThreadResourceExecutor.Submit answer [] []] in
  let more :=
    [ThreadResourceExecutor.Work 0; ThreadResourceExecutor.Shutdown] in
  let st :=
    ThreadResourceExecutor.run acts
      (ThreadResourceExecutor.__init__ [Handle 0 0]) in
  let future := TaskFuture.__init__ answer [] [] in
  ThreadResourceExecutor.any_alive st = false
  /\ ThreadResourceExecutor.heap st !! 1 = Some future
  /\ ((TaskFuture._finished future = true
       /\ exists w o,
            In (EvCall w 1 o) (ThreadResourceExecutor.history st)
            /\ slots_hold o future)
      \/ (fresh future
          /\ ThreadResourceExecutor.heap (ThreadResourceExecutor.run more st)
               !! 1 = Some future
          /\ forall py2 expired,
               ThreadResourceExecutor.result_of py2
                 (ThreadResourceExecutor.run more st) 1 None expired = None)).
Proof.
  intros acts more st future.
  assert (H1 : ThreadResourceExecutor.any_alive st = false) by reflexivity.
  assert (H2 : ThreadResourceExecutor.heap st !! 1 = Some future)
    by reflexivity.
  split; [exact H1|]. split; [exact H2|].
  exact (nothing_in_flight_once_stopped [Handle 0 0] acts more 1 future
           H1 H2).
Defined.

(* ===================================================================== *)
(** ** More about the pool: [shutdown] returns *)
(* ===================================================================== *)

Section ShutdownReturns.
Context {R : Type}.
Implicit Types (self st : ThreadResourceExecutor.t R).
Implicit Types (th : ThreadResourceWorker.t R).
Implicit Types (future : TaskFuture.t R).

Lemma alive_swap (ws : list (ThreadResourceWorker.t R)) (w : nat) th th' :
  ws !! w = Some th ->
  sum_list_with (fun th => ind (ThreadResourceWorker.is_alive th))
                (<[w := th']> ws)
  + ind (ThreadResourceWorker.is_alive th)
  = sum_list_with (fun th => ind (ThreadResourceWorker.is_alive th)) ws
    + ind (ThreadResourceWorker.is_alive th').
Proof.
  intros Hw.
  apply (sum_insert (fun th => ind (ThreadResourceWorker.is_alive th))), Hw.
Qed.

Lemma alive_any st :
  ThreadResourceExecutor.any_alive st = negb (Nat.eqb (alive_count st) 0).
Proof.
  unfold ThreadResourceExecutor.any_alive, alive_count.
  induction (ThreadResourceExecutor._workers st) as [|th ws IH];
    [reflexivity|].
  change (ThreadResourceWorker.is_alive th
          || existsb ThreadResourceWorker.is_alive ws
          = negb (Nat.eqb
                    (ind (ThreadResourceWorker.is_alive th)
                     + sum_list_with
                         (fun th => ind (ThreadResourceWorker.is_alive th)) ws)
                    0)).
  rewrite IH. destruct (ThreadResourceWorker.is_alive th); [reflexivity|].
  reflexivity.
Qed.

Lemma alive_le_length st :
  alive_count st <= length (ThreadResourceExecutor._workers st).
Proof.
  unfold alive_count.
  induction (ThreadResourceExecutor._workers st) as [|th ws IH];
    [reflexivity|].
  change (ind (ThreadResourceWorker.is_alive th)
          + sum_list_with (fun th => ind (ThreadResourceWorker.is_alive th)) ws
          <= S (length ws)).
  destruct (ThreadResourceWorker.is_alive th); cbn [ind]; lia.
Qed.

Lemma tasks_among_app (xs ys : list object) :
  tasks_among (xs ++ ys) = tasks_among xs + tasks_among ys.
Proof. apply sum_list_with_app. Qed.

(** A statement of a worker does nothing, or the worker was busy. *)
Lemma work_cases (w : nat) st :
  ThreadResourceExecutor.work w st = st \/ busy w st.
Proof.
  destruct (work_worked w st) as
    [ |th x rest Hth Hat Hqx |th f fut v r Hth Hat Hf Hc
      |th f fut e r Hth Hat Hf Hc He |th f fut e r Hth Hat Hf Hc He
      |th f fut Hth Hat Hf ]; [left; reflexivity|..].
  all: right; exists th; split; [exact Hth|].
  all: unfold ThreadResourceWorker.is_alive, remaining; rewrite Hat.
  all: split; [reflexivity|].
  - right. rewrite Hqx. discriminate.
  - left. lia.
  - left. lia.
  - left. lia.
  - left. lia.
Qed.

(** Evaluates, in the equations [Ha] and [Hb] that [alive_swap] and
    [backlog_swap] give for a thread that was alive, what the thread
    counts for before and after its statement. *)
Ltac settle_swap Ha Hb Hlive Hat :=
  rewrite Hlive in Ha;
  match type of Ha with
  | _ + _ = _ + ?b => let v := eval cbv in b in change b with v in Ha
  end;
  unfold remaining in Hb; rewrite Hat in Hb;
  cbn [ThreadResourceWorker.at_ ind] in Ha, Hb.

(** The statement of a busy worker leaves less to do. *)
Lemma work_busy (w : nat) st :
  accounted st -> busy w st ->
  work_left (ThreadResourceExecutor.work w st) < work_left st
  /\ 0 < alive_count st.
Proof.
  intros Hacc (th & Hth & Halive & Hbusy).
  assert (Hpos : 0 < alive_count st).
  { pose proof (sum_lookup_le
                  (fun th => ind (ThreadResourceWorker.is_alive th))
                  _ w th Hth) as Hle.
    cbn beta in Hle. rewrite Halive in Hle. exact Hle. }
  split; [|exact Hpos].
  unfold ThreadResourceExecutor.work. rewrite Hth.
  unfold ThreadResourceWorker.run_step.
  pose proof Halive as Hlive.
  unfold ThreadResourceWorker.is_alive in Halive. unfold remaining in Hbusy.
  unfold work_left, alive_count.
  destruct (ThreadResourceWorker.at_ th) as [|ref|ref| |e] eqn:Hat;
    try discriminate Halive.
  - destruct Hbusy as [Hlt|Hq]; [lia|].
    destruct (ThreadResourceExecutor._work_queue st) as [|x rest] eqn:Hqx;
      [congruence|].
    change (tasks_among (x :: rest)) with (is_task x + tasks_among rest).
    destruct x as [|ref|v]; cbn [ThreadResourceExecutor._workers
      ThreadResourceExecutor._work_queue is_task].
    all: match goal with
         | |- context [<[_ := ?t]> _] =>
             pose proof (alive_swap _ w th t Hth) as Ha;
             pose proof (backlog_swap _ w th t Hth) as Hb
         end.
    all: settle_swap Ha Hb Hlive Hat.
    all: lia.
  - destruct (holder_on_heap st w ref th Hacc Hth (or_introl Hat))
      as [fut Hf].
    rewrite Hf.
    destruct (TaskFuture._task fut _ _ _) as [[v|e] r].
    2: destruct (is_Exception (exc_cls e)).
    all: cbn [ThreadResourceExecutor._workers
              ThreadResourceExecutor._work_queue].
    all: match goal with
         | |- context [<[_ := ?t]> _] =>
             pose proof (alive_swap _ w th t Hth) as Ha;
             pose proof (backlog_swap _ w th t Hth) as Hb
         end.
    all: settle_swap Ha Hb Hlive Hat.
    all: lia.
  - destruct (holder_on_heap st w ref th Hacc Hth (or_intror Hat))
      as [fut Hf].
    rewrite Hf.
    cbn [ThreadResourceExecutor._workers ThreadResourceExecutor._work_queue].
    match goal with
    | |- context [<[_ := ?t]> _] =>
        pose proof (alive_swap _ w th t Hth) as Ha;
        pose proof (backlog_swap _ w th t Hth) as Hb
    end.
    settle_swap Ha Hb Hlive Hat.
    lia.
Qed.

Lemma to_return_bounded st :
  todo_bounded st ->
  to_return (ThreadResourceExecutor.in_shutdown st)
  <= 3 + length (ThreadResourceExecutor._workers st).
Proof.
  unfold todo_bounded, to_return.
  destruct (ThreadResourceExecutor.in_shutdown st) as [[|todo|]|]; lia.
Qed.

Lemma to_next_put_bounded (pc : option ThreadResourceExecutor.shutdown_pc) :
  to_next_put pc <= 3.
Proof. destruct pc as [[|[|todo]|]|]; cbn; lia. Qed.

(** Less to do for the threads is less to wait for [shutdown]. *)
Lemma until_return_less st st' :
  work_left st' < work_left st ->
  0 < alive_count st ->
  length (ThreadResourceExecutor._workers st')
  = length (ThreadResourceExecutor._workers st) ->
  todo_bounded st' ->
  until_return st' < until_return st.
Proof.
  intros Hless Hpos Hlen Hbound. unfold until_return.
  pose proof (to_return_bounded st' Hbound) as Hret.
  pose proof (to_next_put_bounded (ThreadResourceExecutor.in_shutdown st'))
    as Hput.
  destruct (alive_count st) as [|k]; [lia|].
  assert (Hwl : 0 < work_left st) by lia.
  destruct (alive_count st') as [|k'].
  - lia.
  - destruct (stalled st'), (stalled st); lia.
Qed.

Lemma todo_bounded_step (a : ThreadResourceExecutor.action R) st :
  todo_bounded st -> todo_bounded (ThreadResourceExecutor.step a st).
Proof.
  unfold todo_bounded. intros Hb.
  destruct a as [w|fn args kw|]; cbn [ThreadResourceExecutor.step].
  - destruct (work_worked w st);
      cbn [ThreadResourceExecutor.in_shutdown ThreadResourceExecutor._workers];
      rewrite ?length_insert; exact Hb.
  - submitted ltac:(exact Hb). exact Hb.
  - unfold ThreadResourceExecutor.shutdown_step.
    destruct (ThreadResourceExecutor.in_shutdown st) as [[|[|todo]|]|];
      try destruct (ThreadResourceExecutor.any_alive st);
      cbn [ThreadResourceExecutor.in_shutdown ThreadResourceExecutor._workers
           ThreadResourceExecutor.put]; lia || exact I.
Qed.

(** What a statement of [shutdown] leaves as it is. *)
Lemma shutdown_step_keeps st :
  ThreadResourceExecutor._workers (ThreadResourceExecutor.shutdown_step st)
  = ThreadResourceExecutor._workers st
  /\ tasks_among (ThreadResourceExecutor._work_queue
                    (ThreadResourceExecutor.shutdown_step st))
     = tasks_among (ThreadResourceExecutor._work_queue st)
  /\ (ThreadResourceExecutor._work_queue st <> [] ->
      ThreadResourceExecutor._work_queue
        (ThreadResourceExecutor.shutdown_step st) <> []).
Proof.
  unfold ThreadResourceExecutor.shutdown_step.
  destruct (ThreadResourceExecutor.in_shutdown st) as [[|[|todo]|]|];
    try destruct (ThreadResourceExecutor.any_alive st);
    cbn [ThreadResourceExecutor._workers ThreadResourceExecutor._work_queue
         ThreadResourceExecutor.put];
    rewrite ?tasks_among_app; cbn [tasks_among sum_list_with is_task];
    repeat split; try lia; try (intros Hq; exact Hq).
  all: intros _ Heq; apply app_eq_nil in Heq as [_ Heq]; discriminate Heq.
Qed.

(** A statement of [shutdown] never sets the return back, and brings it
    closer when it is the turn of [shutdown]. *)
Lemma until_return_shutdown st :
  until_return (ThreadResourceExecutor.shutdown_step st) <= until_return st
  /\ (designated None st -> 0 < until_return st ->
      until_return (ThreadResourceExecutor.shutdown_step st)
      < until_return st).
Proof.
  destruct (shutdown_step_keeps st) as (Hws & Htasks & Hq).
  pose proof (alive_any st) as Hany. pose proof (alive_le_length st) as Hn.
  assert (Halive : alive_count (ThreadResourceExecutor.shutdown_step st)
                   = alive_count st)
    by (unfold alive_count; rewrite Hws; reflexivity).
  assert (Hwl : work_left (ThreadResourceExecutor.shutdown_step st)
                = work_left st)
    by (unfold work_left; rewrite Halive, Htasks, Hws; reflexivity).
  unfold until_return, designated. rewrite Halive, Hwl, Hws.
  destruct (alive_count st) as [|k] eqn:Hk.
  - cbn in Hany. clear Hwl Halive Hq Htasks.
    unfold ThreadResourceExecutor.shutdown_step. rewrite Hany.
    destruct (ThreadResourceExecutor.in_shutdown st) as [[|[|todo]|]|];
      cbn [ThreadResourceExecutor.in_shutdown ThreadResourceExecutor.put
           to_return]; split; intros; lia.
  - cbn in Hany. unfold stalled. rewrite Hws.
    destruct (length (ThreadResourceExecutor._workers st)) as [|n] eqn:Hlen;
      [lia|].
    destruct (ThreadResourceExecutor._work_queue st) as [|x rest] eqn:Hqx.
    + destruct (Nat.eqb (backlog (ThreadResourceExecutor._workers st)) 0)
        eqn:Hb.
      * clear Hwl Halive Hq Htasks Hws.
        unfold ThreadResourceExecutor.shutdown_step. rewrite Hany, Hlen.
        destruct (ThreadResourceExecutor.in_shutdown st) as [[|[|todo]|]|];
          cbn [ThreadResourceExecutor.in_shutdown
               ThreadResourceExecutor._work_queue ThreadResourceExecutor.put
               to_next_put];
          rewrite ?Hqx; cbn [app]; split; intros; lia.
      * destruct (ThreadResourceExecutor._work_queue
                    (ThreadResourceExecutor.shutdown_step st));
          split; try lia; intros [Hd|Hd]; discriminate Hd.
    + assert (Hne : ThreadResourceExecutor._work_queue
                      (ThreadResourceExecutor.shutdown_step st) <> [])
        by (apply Hq; discriminate).
      destruct (ThreadResourceExecutor._work_queue
                  (ThreadResourceExecutor.shutdown_step st));
        [congruence|].
      split; [lia|]. intros [Hd|Hd]; discriminate Hd.
Qed.

(** What every step keeps, as far as the return of [shutdown] goes. *)
Lemma until_return_step (a : ThreadResourceExecutor.action R) st :
  accounted st -> todo_bounded st -> is_submit a = false ->
  until_return (ThreadResourceExecutor.step a st) <= until_return st.
Proof.
  intros Hacc Hb Ha. destruct a as [w|fn args kw|]; [| discriminate Ha |].
  - cbn [ThreadResourceExecutor.step].
    destruct (work_cases w st) as [->|Hbusy]; [reflexivity|].
    destruct (work_busy w st Hacc Hbusy) as [Hless Hpos].
    apply Nat.lt_le_incl, until_return_less; try assumption.
    + apply (workers_length_step (ThreadResourceExecutor.Work w)).
    + apply (todo_bounded_step (ThreadResourceExecutor.Work w)), Hb.
  - apply until_return_shutdown.
Qed.

Lemma tidy_run (acts : list (ThreadResourceExecutor.action R)) st :
  accounted st /\ todo_bounded st ->
  accounted (ThreadResourceExecutor.run acts st)
  /\ todo_bounded (ThreadResourceExecutor.run acts st).
Proof.
  apply (run_invariant (fun st => accounted st /\ todo_bounded st)).
  intros a st' [Hacc Hb]. split.
  - apply accounted_step, Hacc.
  - apply todo_bounded_step, Hb.
Qed.

Lemma until_return_run (acts : list (ThreadResourceExecutor.action R)) st :
  accounted st -> todo_bounded st ->
  forallb (fun a => negb (is_submit a)) acts = true ->
  until_return (ThreadResourceExecutor.run acts st) <= until_return st.
Proof.
  revert st. induction acts as [|a acts IH]; intros st Hacc Hb Hno;
    [reflexivity|].
  cbn in Hno. apply andb_prop in Hno as [Ha Hrest].
  apply negb_true_iff in Ha. cbn [ThreadResourceExecutor.run].
  etransitivity; [apply IH; [apply accounted_step, Hacc
                            |apply todo_bounded_step, Hb|exact Hrest]|].
  apply until_return_step; assumption.
Qed.

(** The statement of the designated thread brings the return closer. *)
Lemma turn_taken (d : option nat) (a : ThreadResourceExecutor.action R) st :
  accounted st -> todo_bounded st -> designated d st ->
  turn d a = true -> 0 < until_return st ->
  until_return (ThreadResourceExecutor.step a st) < until_return st.
Proof.
  intros Hacc Hb Hd Ha Hpos. destruct d as [w|].
  - destruct a as [w'|fn args kw|]; try discriminate Ha.
    cbn in Ha. apply Nat.eqb_eq in Ha. subst w'.
    cbn [ThreadResourceExecutor.step].
    destruct (work_busy w st Hacc Hd) as [Hless Hpos'].
    apply until_return_less; try assumption.
    + apply (workers_length_step (ThreadResourceExecutor.Work w)).
    + apply (todo_bounded_step (ThreadResourceExecutor.Work w)), Hb.
  - destruct a as [w'|fn args kw|]; try discriminate Ha.
    apply until_return_shutdown; assumption.
Qed.

(** The statement of another thread brings the return closer itself, or
    leaves the designated thread designated. *)
Lemma others_turn (d : option nat) (a : ThreadResourceExecutor.action R) st :
  accounted st -> todo_bounded st -> designated d st ->
  is_submit a = false ->
  until_return (ThreadResourceExecutor.step a st) < until_return st
  \/ designated d (ThreadResourceExecutor.step a st).
Proof.
  intros Hacc Hb Hd Ha. destruct a as [w'|fn args kw|]; [| discriminate Ha |].
  - cbn [ThreadResourceExecutor.step].
    destruct (work_cases w' st) as [->|Hbusy]; [right; exact Hd|].
    left. destruct (work_busy w' st Hacc Hbusy) as [Hless Hpos'].
    apply until_return_less; try assumption.
    + apply (workers_length_step (ThreadResourceExecutor.Work w')).
    + apply (todo_bounded_step (ThreadResourceExecutor.Work w')), Hb.
  - cbn [ThreadResourceExecutor.step].
    destruct (shutdown_step_keeps st) as (Hws & _ & Hq).
    destruct d as [w|].
    + right. destruct Hd as (th & Hth & Halive & Hbusy).
      exists th. rewrite Hws. split; [exact Hth|]. split; [exact Halive|].
      destruct Hbusy as [Hr|Hne]; [left; exact Hr|right; apply Hq, Hne].
    + destruct (alive_count st) as [|k] eqn:Hk.
      * right. left. unfold alive_count in *. rewrite Hws. exact Hk.
      * left. apply until_return_shutdown; [exact Hd|].
        unfold until_return. rewrite Hk. lia.
Qed.

Lemma designated_run (d : option nat)
    (acts : list (ThreadResourceExecutor.action R)) st :
  accounted st -> todo_bounded st -> designated d st ->
  existsb (turn d) acts = true ->
  forallb (fun a => negb (is_submit a)) acts = true ->
  0 < until_return st ->
  until_return (ThreadResourceExecutor.run acts st) < until_return st.
Proof.
  revert st. induction acts as [|a acts IH];
    intros st Hacc Hb Hd Hturn Hno Hpos; [discriminate Hturn|].
  cbn in Hno. apply andb_prop in Hno as [Ha Hrest].
  apply negb_true_iff in Ha. cbn [ThreadResourceExecutor.run].
  pose proof (accounted_step a st Hacc) as Hacc'.
  pose proof (todo_bounded_step a st Hb) as Hb'.
  pose proof (until_return_run acts _ Hacc' Hb' Hrest) as Hmono.
  cbn in Hturn. destruct (turn d a) eqn:Hda.
  - pose proof (turn_taken d a st Hacc Hb Hd Hda Hpos). lia.
  - cbn in Hturn.
    destruct (others_turn d a st Hacc Hb Hd Ha) as [Hless|Hd']; [lia|].
    pose proof (until_return_step a st Hacc Hb Ha) as Hle.
    destruct (until_return (ThreadResourceExecutor.step a st)) as [|u] eqn:Hu;
      [lia|].
    rewrite <- Hu in *.
    specialize (IH _ Hacc' Hb' Hd' Hturn Hrest ltac:(lia)). lia.
Qed.

(** As long as [shutdown] has not returned from a pool with no thread
    alive, some thread is designated. *)
Lemma designated_exists st :
  exists d,
    designated d st
    /\ match d with
       | Some w => w < length (ThreadResourceExecutor._workers st)
       | None => True
       end.
Proof.
  destruct (alive_count st) as [|k] eqn:Hk;
    [exists None; split; [left; exact Hk|exact I]|].
  destruct (stalled st) eqn:Hst;
    [exists None; split; [right; exact Hst|exact I]|].
  unfold stalled in Hst.
  destruct (Nat.eqb (backlog (ThreadResourceExecutor._workers st)) 0) eqn:Hb.
  - destruct (ThreadResourceExecutor._work_queue st) as [|x rest] eqn:Hq;
      [discriminate Hst|].
    assert (Hpos : 0 < alive_count st) by lia.
    destruct (sum_pos_exists _ _ Hpos) as (w & th & Hth & Hg).
    exists (Some w). split; [|eapply lookup_lt_Some, Hth].
    exists th. split; [exact Hth|]. split.
    + cbn beta in Hg. destruct (ThreadResourceWorker.is_alive th);
        [reflexivity|cbn in Hg; lia].
    + right. rewrite Hq. discriminate.
  - apply Nat.eqb_neq in Hb.
    assert (Hpos : 0 < backlog (ThreadResourceExecutor._workers st)) by lia.
    destruct (sum_pos_exists _ _ Hpos) as (w & th & Hth & Hg).
    exists (Some w). split; [|eapply lookup_lt_Some, Hth].
    exists th. split; [exact Hth|]. split; [|left; exact Hg].
    unfold remaining in Hg. unfold ThreadResourceWorker.is_alive.
    destruct (ThreadResourceWorker.at_ th); try reflexivity; lia.
Qed.

Lemma shutdown_in_round (acts : list (ThreadResourceExecutor.action R)) :
  0 < shutdown_steps acts -> existsb (turn None) acts = true.
Proof.
  induction acts as [|a acts IH]; intros Hpos; [cbn in Hpos; lia|].
  change (0 < is_shutdown a + shutdown_steps acts) in Hpos.
  cbn [existsb turn]. destruct a as [w|fn args kw|]; cbn in Hpos |- *;
    try (apply IH; exact Hpos). reflexivity.
Qed.

(** Every round brings the return of [shutdown] closer. *)
Lemma round_less (acts : list (ThreadResourceExecutor.action R)) st :
  accounted st -> todo_bounded st ->
  shutdown_round (length (ThreadResourceExecutor._workers st)) acts = true ->
  0 < until_return st ->
  until_return (ThreadResourceExecutor.run acts st) < until_return st.
Proof.
  intros Hacc Hb Hround Hpos. unfold shutdown_round in Hround.
  apply andb_prop in Hround as [Hround Hno].
  apply andb_prop in Hround as [Hround Hshut].
  apply Nat.ltb_lt in Hshut.
  destruct (designated_exists st) as (d & Hd & Hvalid).
  apply (designated_run d); try assumption.
  destruct d as [w|].
  - apply (round_works _ w acts Hround Hvalid).
  - apply shutdown_in_round, Hshut.
Qed.

Lemma rounds_less (rounds : list (list (ThreadResourceExecutor.action R)))
    st :
  accounted st -> todo_bounded st ->
  Forall (fun r =>
            shutdown_round (length (ThreadResourceExecutor._workers st)) r
            = true) rounds ->
  until_return (ThreadResourceExecutor.run (concat rounds) st) = 0
  \/ until_return (ThreadResourceExecutor.run (concat rounds) st)
     + length rounds <= until_return st.
Proof.
  revert st. induction rounds as [|r rounds IH]; intros st Hacc Hb Hall.
  - right. cbn. lia.
  - apply Forall_cons in Hall as [Hr Hrest].
    cbn [concat length]. rewrite run_app.
    destruct (tidy_run r st (conj Hacc Hb)) as [Hacc' Hb'].
    assert (Hno : forallb (fun a => negb (is_submit a)) r = true).
    { unfold shutdown_round in Hr. apply andb_prop in Hr as [_ Hno].
      exact Hno. }
    pose proof (until_return_run r st Hacc Hb Hno) as Hle.
    rewrite <- (workers_length_run r st) in Hrest.
    destruct (IH _ Hacc' Hb' Hrest) as [Hz|Hsum]; [left; exact Hz|].
    destruct (until_return st) as [|u] eqn:Hu.
    + left. lia.
    + right. rewrite <- Hu in *.
      pose proof (round_less r st Hacc Hb Hr ltac:(lia)). lia.
Qed.

Lemma until_return_zero st :
  until_return st = 0 ->
  ThreadResourceExecutor.in_shutdown st = None
  /\ ThreadResourceExecutor.any_alive st = false.
Proof.
  unfold until_return. intros Hz. rewrite alive_any.
  destruct (alive_count st) as [|k]; [|lia].
  split; [|reflexivity]. unfold to_return in Hz.
  destruct (ThreadResourceExecutor.in_shutdown st) as [[|todo|]|];
    try reflexivity; lia.
Qed.

(** [shutdown] returns: from every state that an interleaving reaches,
    once no more tasks are submitted, and as long as every thread gets
    its turn (every worker and the caller of [shutdown] run at least one
    statement in each round), after at most [until_return] rounds no
    thread is alive and the call of [shutdown] has returned; and no
    thread is alive at any later time. *)
Theorem shutdown_returns (resources : list R)
    (acts more : list (ThreadResourceExecutor.action R))
    (rounds : list (list (ThreadResourceExecutor.action R))) :
  let st :=
    ThreadResourceExecutor.run acts
      (ThreadResourceExecutor.__init__ resources) in
  let st' := ThreadResourceExecutor.run (concat rounds) st in
  Forall (fun r => shutdown_round (length resources) r = true) rounds ->
  until_return st <= length rounds ->
  ThreadResourceExecutor.in_shutdown st' = None
  /\ ThreadResourceExecutor.any_alive st' = false
  /\ ThreadResourceExecutor.any_alive (ThreadResourceExecutor.run more st')
     = false.
Proof.
  intros st st' Hall Hlen.
  assert (Htidy : accounted st /\ todo_bounded st).
  { apply tidy_run. split; [apply accounted_init|exact I]. }
  destruct Htidy as [Hacc Hb].
  assert (Hn : length (ThreadResourceExecutor._workers st)
               = length resources).
  { subst st. rewrite workers_length_run. cbn. apply length_map. }
  rewrite <- Hn in Hall.
  assert (Hz : until_return st' = 0).
  { destruct (rounds_less rounds st Hacc Hb Hall) as [Hz|Hsum];
      [exact Hz|]. fold st' in Hsum. lia. }
  destruct (until_return_zero st' Hz) as [Hpc Hdead].
  split; [exact Hpc|]. split; [exact Hdead|]. apply dead_run, Hdead.
Qed.

End ShutdownReturns.

(** One worker, one task on the queue, [shutdown] just called. *)
Lemma shutdown_returns_witness :
  let acts :=
    [ThreadResourceExecutor.Submit tick [] [];
     ThreadResourceExecutor.Shutdown] in
  let rounds :=
    repeat [ThreadResourceExecutor.Work 0; ThreadResourceExecutor.Shutdown]
           25 in
  let st :=
    ThreadResourceExecutor.run acts
      (ThreadResourceExecutor.__init__ [Handle 0 0]) in
  let st' := ThreadResourceExecutor.run (concat rounds) st in
  Forall (fun r => shutdown_round 1 r = true) rounds
  /\ until_return st <= length rounds
  /\ ThreadResourceExecutor.in_shutdown st' = None
  /\ ThreadResourceExecutor.any_alive st' = false.
Proof.
  intros acts rounds st st'.
  assert (H1 : Forall (fun r => shutdown_round (length [Handle 0 0]) r = true)
                      rounds) by (repeat constructor).
  assert (H2 : until_return st <= length rounds) by (vm_compute; lia).
  split; [exact H1|]. split; [exact H2|].
  destruct (shutdown_returns [Handle 0 0] acts [] rounds H1 H2)
    as (Hpc & Hdead & _).
  split; assumption.
Defined.

(* ===================================================================== *)
(** ** More about the pool: [map] *)
(* ===================================================================== *)

Section PoolMap.
Context {R : Type}.
Implicit Types (self st : ThreadResourceExecutor.t R).
Implicit Types (th : ThreadResourceWorker.t R).
Implicit Types (future : TaskFuture.t R).

Lemma ahead_lt (ref : nat) (q : list object) :
  0 < queued ref q -> ahead ref q < length q.
Proof.
  induction q as [|x q IH]; intros Hq; [cbn in Hq; lia|].
  rewrite queued_cons in Hq. cbn [ahead length].
  destruct (in_queue ref x); [|lia].
  apply IH in Hq. lia.
Qed.

(** No future is further from its [set()] than three statements per
    object on the queue and two per thread. *)
Lemma distance_bounded st (f : nat) :
  0 < length (ThreadResourceExecutor._workers st) ->
  distance st f
  <= 3 * length (ThreadResourceExecutor._work_queue st)
     + 2 * length (ThreadResourceExecutor._workers st).
Proof.
  intros Hn. unfold distance.
  pose proof (backlog_le (ThreadResourceExecutor._workers st)) as Hb.
  destruct (Nat.ltb_spec 0 (queued f (ThreadResourceExecutor._work_queue st)))
    as [Hq|Hq].
  - apply ahead_lt in Hq. lia.
  - destruct (Nat.ltb 0 (trying f (ThreadResourceExecutor._workers st)));
      [lia|].
    destruct (Nat.ltb 0 (setting f (ThreadResourceExecutor._workers st)));
      lia.
Qed.

Lemma sum_zero {A : Type} (g : A -> nat) (l : list A) :
  Forall (fun x => g x = 0) l -> sum_list_with g l = 0.
Proof.
  induction 1 as [|x l Hx _ IH]; [reflexivity|].
  cbn [sum_list_with]. lia.
Qed.

(** A reference on the queue is to a future on the heap. *)
Lemma queued_on_heap st (g : nat) :
  accounted st ->
  In (OTaskFuture g) (ThreadResourceExecutor._work_queue st) ->
  g < length (ThreadResourceExecutor.heap st).
Proof.
  intros Hacc Hin. apply lookup_lt_is_Some.
  specialize (Hacc g).
  destruct (ThreadResourceExecutor.heap st !! g) as [future|]; [eauto|].
  apply census_split in Hacc as (Hq & _).
  apply list_elem_of_In, list_elem_of_lookup in Hin as [i Hi].
  pose proof (sum_lookup_le (in_queue g) _ i _ Hi) as Hle.
  unfold queued in Hq. cbn [in_queue] in Hle. rewrite ind_eqb_refl in Hle.
  lia.
Qed.

(** A pool that runs undisturbed can lose no thread: every reference is
    to a future on the heap, whose task is catchable. *)
Lemma healthy_secure st :
  healthy st ->
  let safe := fun g => Nat.ltb g (length (ThreadResourceExecutor.heap st)) in
  sound safe st
  /\ exposure safe st = 0
  /\ alive_count st = length (ThreadResourceExecutor._workers st).
Proof.
  intros (Hacc & Hq & Hheap & Hw) safe. split; [|split].
  - intros ref Href. apply Nat.ltb_lt in Href.
    destruct (lookup_lt_is_Some_2 _ _ Href) as [future Hf].
    exists future. split; [exact Hf|].
    exact (Forall_lookup_1 _ _ _ _ Hheap Hf).
  - unfold exposure, armed_count. rewrite !sum_zero; [reflexivity| |].
    + apply Forall_forall. intros th Hth.
      apply list_elem_of_lookup in Hth as [w Hth].
      unfold armed.
      destruct (ThreadResourceWorker.at_ th) as [|g|g| |e] eqn:Hat;
        try reflexivity.
      destruct (holder_on_heap st w g th Hacc Hth (or_introl Hat))
        as [future Hf].
      apply lookup_lt_Some in Hf. apply Nat.ltb_lt in Hf.
      subst safe. cbv beta. rewrite Hf. reflexivity.
    + apply Forall_forall. intros x Hx.
      pose proof (proj1 (Forall_forall _ _) Hq x Hx) as Hfut.
      destruct x as [|g|v]; try discriminate Hfut.
      apply list_elem_of_In in Hx.
      pose proof (queued_on_heap st g Hacc Hx) as Hg.
      apply Nat.ltb_lt in Hg. cbn [hazard]. subst safe. cbv beta.
      rewrite Hg. reflexivity.
  - unfold alive_count. clear -Hw.
    induction Hw as [|th ws Hth _ IH]; [reflexivity|].
    cbn [sum_list_with length]. rewrite Hth, IH. reflexivity.
Qed.

(** The thread inside [next] of [map], through the comprehension: with
    the other threads running undisturbed in between, it submits one
    future per argument, and every one of them is guarded. *)
Lemma legs_guarded (py2 generator_stop : bool) (func : callable R)
    (iterables : list value) :
  forall (gaps : list (list (ThreadResourceExecutor.action R)))
         (futures0 : list nat) st,
  healthy st ->
  0 < length (ThreadResourceExecutor._workers st) ->
  length gaps = length iterables ->
  Forall (Forall calm) gaps ->
  Forall (fun x => catchable func [x] []) iterables ->
  exists refs st1 sched,
    legs py2 generator_stop gaps
      (ThreadResourceExecutor.Submitting func iterables futures0) st
    = (None, ThreadResourceExecutor.Submitting func [] (futures0 ++ refs),
       st1)
    /\ st1 = ThreadResourceExecutor.run sched st
    /\ Forall2 (fun f x =>
                  (exists safe, guarded safe st1 f)
                  /\ exists future,
                       ThreadResourceExecutor.heap st1 !! f = Some future
                       /\ same_call (TaskFuture.__init__ func [x] []) future)
               refs iterables.
Proof.
  induction iterables as [|x rest IH];
    intros [|acts gaps] futures0 st Hh Hn Hlen Hcalm Hcatch;
    try discriminate Hlen.
  - exists [], st, []. rewrite app_nil_r. repeat split. constructor.
  - apply Forall_cons in Hcalm as [Hacts Hcalm].
    apply Forall_cons in Hcatch as [Hx Hcatch].
    set (sa := ThreadResourceExecutor.run acts st).
    assert (Hha : healthy sa) by (apply healthy_run; assumption).
    assert (Hna : length (ThreadResourceExecutor._workers sa)
                  = length (ThreadResourceExecutor._workers st))
      by apply workers_length_run.
    set (f := length (ThreadResourceExecutor.heap sa)).
    pose proof (submit_positional sa func x) as Hsub. fold f in Hsub.
    set (sb := ThreadResourceExecutor.mk _ _ _ _ _) in Hsub.
    assert (Hleg : legs py2 generator_stop (acts :: gaps)
                     (ThreadResourceExecutor.Submitting func (x :: rest)
                        futures0) st
                   = legs py2 generator_stop gaps
                       (ThreadResourceExecutor.Submitting func rest
                          (futures0 ++ [f])) sb).
    { cbn [legs ThreadResourceExecutor.next]. fold sa.
      unfold ThreadResourceExecutor.submit_next. rewrite Hsub. reflexivity. }
    assert (Hhb : healthy sb).
    { pose proof (healthy_step (ThreadResourceExecutor.Submit func [x] [])
                    sa Hha Hx) as Hs.
      cbn [ThreadResourceExecutor.step] in Hs. rewrite Hsub in Hs.
      exact Hs. }
    destruct (healthy_secure sa Hha) as (Hsound & Hexp & Halive).
    destruct (submitted_guarded _ sa func [x] [] f sb (proj1 Hha) Hsound Hx
                ltac:(lia) Hsub) as (Hg & Hf & _ & Hnb).
    destruct (IH gaps (futures0 ++ [f]) sb Hhb ltac:(lia)
                ltac:(cbn in Hlen; lia) Hcalm Hcatch)
      as (refs & st1 & sched & Hlegs & Hrun & Hall).
    exists (f :: refs), st1,
      (acts ++ ThreadResourceExecutor.Submit func [x] [] :: sched).
    split; [|split].
    + rewrite Hleg, Hlegs, <- app_assoc. reflexivity.
    + rewrite run_app. cbn [ThreadResourceExecutor.run
                             ThreadResourceExecutor.step].
      fold sa. rewrite Hsub. exact Hrun.
    + constructor; [|exact Hall]. rewrite Hrun. split.
      * eexists. apply guarded_run, Hg.
      * destruct (same_call_run sched sb f _ Hf) as (fut' & Hf' & Hsame).
        exists fut'. split; assumption.
Qed.

Lemma Forall2_choice {A B C : Type} (P : A -> B -> Prop)
    (Q : A -> B -> C -> Prop) (l : list A) (k : list B) :
  Forall2 P l k ->
  (forall a b, P a b -> exists c, Q a b c) ->
  exists cs, Forall2 (fun ab c => Q (fst ab) (snd ab) c) (zip l k) cs.
Proof.
  intros Hall Hstep. induction Hall as [|a b l k Hab _ [cs IH]].
  - exists []. constructor.
  - destruct (Hstep a b Hab) as [c Hc]. exists (c :: cs).
    cbn [zip zip_with]. constructor; assumption.
Qed.

Lemma Forall2_unzip {A B C : Type} (Q : A -> C -> Prop) (l : list A)
    (k : list B) (cs : list C) :
  length l = length k ->
  Forall2 (fun ab c => Q (fst ab) c) (zip l k) cs ->
  Forall2 Q l cs.
Proof.
  revert k cs. induction l as [|a l IH]; intros [|b k] cs Hlen Hall;
    try discriminate Hlen; cbn [zip zip_with] in Hall.
  - inversion Hall. constructor.
  - inversion Hall as [|? c ? cs' Hc Hrest]; subst.
    constructor; [exact Hc|]. apply (IH k); [|exact Hrest].
    cbn in Hlen. lia.
Qed.

(** Draining the generator once every future is done. *)
Lemma pool_drain_done (py2 generator_stop : bool) st (futures : list nat)
    (os : list (outcome value)) :
  Forall2 (fun f o =>
             ThreadResourceExecutor.result_of py2 st f None false = Some o)
          futures os ->
  pool_drain (S (length futures)) py2 generator_stop
    (ThreadResourceExecutor.Waiting futures) st
  = (until_raise generator_stop os, ThreadResourceExecutor.Finished).
Proof.
  induction 1 as [|f o futures os Hf _ IH]; [reflexivity|].
  cbn [length].
  change (pool_drain (S (S (length futures))) py2 generator_stop
            (ThreadResourceExecutor.Waiting (f :: futures)) st)
    with (match ThreadResourceExecutor.next py2 generator_stop
                  (ThreadResourceExecutor.Waiting (f :: futures)) st with
          | (Some (ThreadResourceExecutor.Yield v), g', self') =>
              let '(vs, e, g'') :=
                pool_drain (S (length futures)) py2 generator_stop g' self' in
              (v :: vs, e, g'')
          | (Some ThreadResourceExecutor.StopIteration, g', _) =>
              ([], None, g')
          | (Some (ThreadResourceExecutor.Raise e), g', _) => ([], Some e, g')
          | (None, g', _) => ([], None, g')
          end).
  cbn [ThreadResourceExecutor.next ThreadResourceExecutor.await].
  rewrite Hf. destruct o as [v|e].
  - rewrite IH. cbn [until_raise].
    destruct (until_raise generator_stop os). reflexivity.
  - cbn [until_raise]. unfold ThreadResourceExecutor.leave.
    destruct (generator_exit generator_stop e); reflexivity.
Qed.

(** A generator that has come to its second loop drains as that loop. *)
Lemma pool_drain_await (py2 generator_stop : bool) st (fuel : nat)
    (g : ThreadResourceExecutor.generator R) (futures : list nat) :
  ThreadResourceExecutor.next py2 generator_stop g st
  = ThreadResourceExecutor.await py2 generator_stop futures st ->
  pool_drain (S fuel) py2 generator_stop g st
  = pool_drain (S fuel) py2 generator_stop
      (ThreadResourceExecutor.Waiting futures) st.
Proof.
  intros Hnext. cbn [pool_drain]. rewrite Hnext. reflexivity.
Qed.

(** [map] on a pool that runs undisturbed while the tasks are submitted:
    take a new pool with at least one worker, on which [shutdown] has not
    been called and whose tasks, those of [map] included, all return or
    raise an error derived from [Exception]. The thread inside the first
    [next] submits one task per argument, one call of [submit] at a time;
    the workers run and other threads submit in between ([gaps]). Once
    every worker has had the chance to run a statement often enough
    afterwards (three rounds for every object on the queue, two for every
    worker), whatever else happens in these rounds, every one of these
    tasks has been called, and the generator yields the values they
    returned, in the order of the arguments whatever the order in which
    the workers finished them, up to the first task that raised. The
    error of that task is raised, unless it is a [StopIteration]: that
    one is raised as a [RuntimeError] (Python 3.7 and later) or ends the
    iteration silently (before). Then the generator is finished. *)
Theorem pool_map_yields_in_order (py2 generator_stop : bool)
    (resources : list R)
    (acts : list (ThreadResourceExecutor.action R))
    (func : callable R) (iterables : list value)
    (gaps rounds : list (list (ThreadResourceExecutor.action R))) :
  resources <> [] ->
  Forall calm acts ->
  Forall (fun x => catchable func [x] []) iterables ->
  length gaps = length iterables ->
  Forall (Forall calm) gaps ->
  Forall (fun r => round (length resources) r = true) rounds ->
  let st :=
    ThreadResourceExecutor.run acts
      (ThreadResourceExecutor.__init__ resources) in
  let '(r, g, st1) :=
    legs py2 generator_stop gaps
      (ThreadResourceExecutor.map st func iterables) st in
  3 * length (ThreadResourceExecutor._work_queue st1)
  + 2 * length resources <= length rounds ->
  let st2 := ThreadResourceExecutor.run (concat rounds) st1 in
  r = None
  /\ exists futures os,
       ThreadResourceExecutor.next py2 generator_stop g st2
       = ThreadResourceExecutor.await py2 generator_stop futures st2
       /\ Forall2 (fun fx o => done_with st2 func (fst fx) (snd fx) o)
                  (zip futures iterables) os
       /\ length futures = length iterables
       /\ pool_drain (S (length iterables)) py2 generator_stop g st2
          = (until_raise generator_stop os, ThreadResourceExecutor.Finished).
Proof.
  intros Hne Hcalm Hcatch Hgaps Hgcalm Hrounds st.
  assert (Hh : healthy st)
    by (apply healthy_run; [apply healthy_init|exact Hcalm]).
  assert (Hlen : length (ThreadResourceExecutor._workers st)
                 = length resources).
  { subst st. rewrite workers_length_run. cbn. apply length_map. }
  assert (Hpos : 0 < length resources)
    by (destruct resources; [congruence|cbn; lia]).
  destruct (legs_guarded py2 generator_stop func iterables gaps [] st Hh
              ltac:(lia) Hgaps Hgcalm Hcatch)
    as (refs & st1 & sched & Hlegs & Hrun & Hall).
  assert (Hsame : legs py2 generator_stop gaps
                    (ThreadResourceExecutor.map st func iterables) st
                  = (None,
                     match iterables with
                     | [] => ThreadResourceExecutor.Created func []
                     | _ => ThreadResourceExecutor.Submitting func [] refs
                     end, st1)).
  { unfold ThreadResourceExecutor.map.
    destruct iterables as [|x rest], gaps as [|a gaps];
      try discriminate Hgaps.
    - cbn in Hlegs |- *. injection Hlegs as _ <-. reflexivity.
    - exact Hlegs. }
  rewrite Hsame. intros Hbound st2.
  split; [reflexivity|].
  assert (Hlen1 : length (ThreadResourceExecutor._workers st1)
                  = length resources).
  { rewrite Hrun, workers_length_run. exact Hlen. }
  assert (Hstep : forall f x,
            (exists safe, guarded safe st1 f)
            /\ (exists future,
                  ThreadResourceExecutor.heap st1 !! f = Some future
                  /\ same_call (TaskFuture.__init__ func [x] []) future) ->
            exists o, done_with st2 func f x o).
  { intros f x [[safe Hg] (fut & Hf & Hsc)].
    destruct (rounds_closer safe rounds st1 f Hg) as [Hg2 Hd2].
    { rewrite Hlen1. exact Hrounds. }
    fold st2 in Hg2, Hd2.
    pose proof (distance_bounded st1 f ltac:(rewrite Hlen1; exact Hpos))
      as Hd1.
    rewrite Hlen1 in Hd1.
    destruct (arrived safe st2 f Hg2 ltac:(lia))
      as (fut2 & w & o & Hf2 & Hfin & Hin & _ & Ho & Hslots).
    exists o. split; [|split; [exists w; exact Hin|]].
    - destruct (same_call_run (concat rounds) st1 f _ Hf)
        as (fut' & Hf' & Hsame').
      fold st2 in Hf'. rewrite Hf2 in Hf'. injection Hf' as <-.
      eapply outcome_of_same_call; [|exact Ho].
      destruct Hsc as (? & ? & ?), Hsame' as (? & ? & ?).
      repeat split; congruence.
    - intros p e. unfold ThreadResourceExecutor.result_of. rewrite Hf2.
      apply result_of_done; assumption. }
  destruct (Forall2_choice _ _ _ _ Hall Hstep) as [os Hos].
  assert (Hfs : length refs = length iterables)
    by (eapply Forall2_length, Hall).
  assert (Hnext : ThreadResourceExecutor.next py2 generator_stop
                    match iterables with
                    | [] => ThreadResourceExecutor.Created func []
                    | _ => ThreadResourceExecutor.Submitting func [] refs
                    end st2
                  = ThreadResourceExecutor.await py2 generator_stop refs st2).
  { destruct iterables; [|reflexivity].
    destruct refs; [reflexivity|discriminate Hfs]. }
  exists refs, os. split; [exact Hnext|]. split; [exact Hos|].
  split; [exact Hfs|].
  rewrite (pool_drain_await _ _ _ _ _ refs Hnext), <- Hfs.
  apply pool_drain_done.
  apply (Forall2_unzip
           (fun f o =>
              ThreadResourceExecutor.result_of py2 st2 f None false = Some o)
           refs iterables os Hfs).
  eapply Forall2_impl; [exact Hos|]. intros fx o (_ & _ & Hres). apply Hres.
Qed.

End PoolMap.

(** One worker and [map(tick, a, b)]: the worker takes the first task
    before the second is submitted, and [shutdown] is called while the
    tasks run. *)
Lemma pool_map_yields_in_order_witness :
  let iterables := [PyStr "a"; PyStr "b"] in
  let gaps := [[]; [ThreadResourceExecutor.Work 0]] in
  let rounds :=
    repeat [ThreadResourceExecutor.Work 0; ThreadResourceExecutor.Shutdown] 5
  in
  let st :=
    ThreadResourceExecutor.run [] (ThreadResourceExecutor.__init__ [Handle 0 0])
  in
  [Handle 0 0] <> []
  /\ Forall calm ([] : list (ThreadResourceExecutor.action handle))
  /\ Forall (fun x => catchable tick [x] []) iterables
  /\ length gaps = length iterables
  /\ Forall (Forall calm) gaps
  /\ Forall (fun r => round 1 r = true) rounds
  /\ let '(r, g, st1) :=
       legs false true gaps (ThreadResourceExecutor.map st tick iterables) st
     in
     3 * length (ThreadResourceExecutor._work_queue st1) + 2 * 1
     <= length rounds
     /\ let st2 := ThreadResourceExecutor.run (concat rounds) st1 in
        r = None
        /\ exists futures os,
             ThreadResourceExecutor.next false true g st2
             = ThreadResourceExecutor.await false true futures st2
             /\ Forall2 (fun fx o => done_with st2 tick (fst fx) (snd fx) o)
                        (zip futures iterables) os
             /\ length futures = length iterables
             /\ pool_drain (S (length iterables)) false true g st2
                = (until_raise true os, ThreadResourceExecutor.Finished).
Proof.
  intros iterables gaps rounds st.
  assert (H1 : [Handle 0 0] <> []) by discriminate.
  assert (H2 : Forall calm ([] : list (ThreadResourceExecutor.action handle)))
    by constructor.
  assert (H3 : Forall (fun x => catchable tick [x] []) iterables)
    by (repeat constructor).
  assert (H4 : length gaps = length iterables) by reflexivity.
  assert (H5 : Forall (Forall calm) gaps) by (repeat constructor).
  assert (H6 : Forall (fun r => round (length [Handle 0 0]) r = true) rounds)
    by (repeat constructor).
  assert (H7 : 3 * length (ThreadResourceExecutor._work_queue
                             (snd (legs false true gaps
                                     (ThreadResourceExecutor.map st tick
                                        iterables) st)))
               + 2 * length [Handle 0 0] <= length rounds)
    by (vm_compute; lia).
  split; [exact H1|]. split; [exact H2|]. split; [exact H3|].
  split; [exact H4|]. split; [exact H5|]. split; [exact H6|].
  exact (conj H7
           (pool_map_yields_in_order false true [Handle 0 0] [] tick iterables
              gaps rounds H1 H2 H3 H4 H5 H6 H7)).
Defined.

(* ===================================================================== *)
(** ** More about the pool: entering and leaving a [with] block *)
(* ===================================================================== *)

Section PoolContext.
Context {R : Type} `{Resource R}.
Implicit Types (self st : ThreadResourceExecutor.t R).
Implicit Types (th : ThreadResourceWorker.t R).

Lemma for_thread_in_looped (call : R -> outcome value * R)
    (ws : list (ThreadResourceWorker.t R)) :
  looped call ws (fst (ThreadResourceExecutor.for_thread_in call ws))
         (snd (ThreadResourceExecutor.for_thread_in call ws)).
Proof.
  induction ws as [|th ws IH]; [split; [reflexivity|constructor]|].
  cbn [ThreadResourceExecutor.for_thread_in].
  destruct (call (ThreadResourceWorker._resource th)) as [[v|e] r] eqn:Hcall.
  - destruct (ThreadResourceExecutor.for_thread_in call ws) as [o ws'].
    cbn [fst snd] in *.
    assert (Hth : passed call th
              (ThreadResourceWorker.mk r (ThreadResourceWorker.at_ th)))
      by (split; [reflexivity|exists v; exact Hcall]).
    destruct o as [v'|e]; cbn [looped] in *.
    + destruct IH as [-> IH]. split; [reflexivity|].
      constructor; assumption.
    + destruct IH as (k & th1 & th1' & H1 & H2 & H3 & H4 & H5 & H6).
      exists (S k), th1, th1'. repeat split; try assumption.
      cbn [take]. constructor; assumption.
  - cbn [fst snd looped].
    exists 0, th, (ThreadResourceWorker.mk r (ThreadResourceWorker.at_ th)).
    repeat split; try reflexivity; try exact Hcall. constructor.
Qed.

(** [__enter__] of the pool enters the resources in the order of the
    threads and stops at the first that raises: then the resources before
    it stay entered and nothing exits them, the resources after it are
    not entered, and the error leaves [__enter__]. When every resource
    lets itself be entered, [__enter__] returns [None], not the executor.
    Either way the threads stand where they stood, and the queue and the
    futures are as they were. *)
Theorem pool_enter_stops_at_first_error self :
  let '(o, self') := ThreadResourceExecutor.__enter__ self in
  looped resource_enter (ThreadResourceExecutor._workers self) o
         (ThreadResourceExecutor._workers self')
  /\ List.map ThreadResourceWorker.at_
       (ThreadResourceExecutor._workers self')
     = List.map ThreadResourceWorker.at_
         (ThreadResourceExecutor._workers self)
  /\ ThreadResourceExecutor._work_queue self'
     = ThreadResourceExecutor._work_queue self
  /\ ThreadResourceExecutor.heap self' = ThreadResourceExecutor.heap self.
Proof.
  unfold ThreadResourceExecutor.__enter__.
  pose proof (for_thread_in_looped resource_enter
                (ThreadResourceExecutor._workers self)) as Hloop.
  assert (Hat : List.map ThreadResourceWorker.at_
                  (snd (ThreadResourceExecutor.for_thread_in resource_enter
                          (ThreadResourceExecutor._workers self)))
                = List.map ThreadResourceWorker.at_
                    (ThreadResourceExecutor._workers self)).
  { clear. induction (ThreadResourceExecutor._workers self) as [|th ws IH];
      [reflexivity|].
    cbn [ThreadResourceExecutor.for_thread_in].
    destruct (resource_enter (ThreadResourceWorker._resource th))
      as [[v|e] r]; [|reflexivity].
    destruct (ThreadResourceExecutor.for_thread_in resource_enter ws)
      as [o ws'].
    cbn [snd List.map ThreadResourceWorker.at_] in *. rewrite IH.
    reflexivity. }
  destruct (ThreadResourceExecutor.for_thread_in resource_enter
              (ThreadResourceExecutor._workers self)) as [o ws'].
  cbn [fst snd ThreadResourceExecutor._workers
       ThreadResourceExecutor._work_queue ThreadResourceExecutor.heap] in *.
  repeat split; assumption || reflexivity.
Qed.

Lemma shutdown_rounds_steps
    (rounds : list (list (ThreadResourceExecutor.action R))) (n : nat) :
  Forall (fun r => shutdown_round n r = true) rounds ->
  length rounds <= shutdown_steps (concat rounds).
Proof.
  induction 1 as [|r rounds Hr _ IH]; [cbn; lia|].
  cbn [concat length]. unfold shutdown_steps in *.
  rewrite sum_list_with_app.
  unfold shutdown_round in Hr. apply andb_prop in Hr as [Hr _].
  apply andb_prop in Hr as [_ Hr]. apply Nat.ltb_lt in Hr.
  unfold shutdown_steps in Hr. lia.
Qed.

(** [__exit__] of the pool first calls [shutdown], and touches no
    resource before that has returned: its loop over the resources
    starts in the state in which [shutdown] found no thread alive. There
    it exits the resources in the order of the threads, each with the
    three arguments it was given, and stops at the first resource whose
    [__exit__] raises, leaving the resources after it open. What the
    resources return is dropped: [__exit__] returns [None], so that it
    never suppresses the error of a [with] block. The queue and the
    futures are as [shutdown] left them. And [__exit__] does return: from
    every state that an interleaving reaches with no [shutdown] under
    way, once no more tasks are submitted and every thread gets its turn
    (every worker and the caller run a statement in each round), for more
    rounds than [until_return] tells. *)
Theorem pool_exit_after_shutdown (resources : list R)
    (acts : list (ThreadResourceExecutor.action R))
    (rounds : list (list (ThreadResourceExecutor.action R)))
    (exception_type exception_value traceback : value) :
  let st :=
    ThreadResourceExecutor.run acts
      (ThreadResourceExecutor.__init__ resources) in
  ThreadResourceExecutor.in_shutdown st = None ->
  Forall (fun r => shutdown_round (length resources) r = true) rounds ->
  until_return st < length rounds ->
  (forall sched self o self',
     ThreadResourceExecutor.__exit__ exception_type exception_value
       traceback sched self = Some (o, self') ->
     exists st1 before after,
       ThreadResourceExecutor.shutdown sched self = Some st1
       /\ sched = before ++ after
       /\ st1 = ThreadResourceExecutor.run before self
       /\ ThreadResourceExecutor.any_alive st1 = false
       /\ looped (resource_exit exception_type exception_value traceback)
                 (ThreadResourceExecutor._workers st1) o
                 (ThreadResourceExecutor._workers self')
       /\ (forall v, o = Returned v -> v = PyNone)
       /\ ThreadResourceExecutor._work_queue self'
          = ThreadResourceExecutor._work_queue st1
       /\ ThreadResourceExecutor.heap self' = ThreadResourceExecutor.heap st1)
  /\ exists o self',
       ThreadResourceExecutor.__exit__ exception_type exception_value
         traceback (concat rounds) st = Some (o, self').
Proof.
  intros st Hfree Hall Hlen. split.
  { intros sched self o self' Hexit.
    unfold ThreadResourceExecutor.__exit__ in Hexit.
    destruct (ThreadResourceExecutor.shutdown sched self) as [st1|] eqn:Hs;
      [|discriminate Hexit].
    destruct (shutdown_returned sched self st1 Hs)
      as (Hdead & _ & before & after & Hsched & Hrun).
    pose proof (for_thread_in_looped
                  (resource_exit exception_type exception_value traceback)
                  (ThreadResourceExecutor._workers st1)) as Hloop.
    destruct (ThreadResourceExecutor.for_thread_in _
                (ThreadResourceExecutor._workers st1)) as [o1 ws'].
    injection Hexit as <- <-. cbn [fst snd] in Hloop.
    exists st1, before, after.
    cbn [ThreadResourceExecutor._workers ThreadResourceExecutor._work_queue
         ThreadResourceExecutor.heap].
    repeat split; try assumption.
    intros v ->. apply Hloop. }
  assert (Htidy : accounted st /\ todo_bounded st).
  { apply tidy_run. split; [apply accounted_init|exact I]. }
  destruct Htidy as [Hacc Hb].
  assert (Hn : length (ThreadResourceExecutor._workers st)
               = length resources).
  { subst st. rewrite workers_length_run. cbn. apply length_map. }
  pose proof (shutdown_rounds_steps rounds _ Hall) as Hsteps.
  rewrite <- Hn in Hall.
  assert (Hz : until_return (ThreadResourceExecutor.run (concat rounds) st)
               = 0).
  { destruct (rounds_less rounds st Hacc Hb Hall) as [Hz|Hsum];
      [exact Hz|lia]. }
  destruct (until_return_zero _ Hz) as [Hpc _].
  unfold ThreadResourceExecutor.__exit__.
  destruct (ThreadResourceExecutor.shutdown (concat rounds) st)
    as [st1|] eqn:Hs.
  - destruct (ThreadResourceExecutor.for_thread_in _
                (ThreadResourceExecutor._workers st1)) as [o ws'].
    eauto.
  - destruct (shutdown_blocked _ _ Hs) as [Hnone|Hin]; [lia|].
    destruct (Hin Hpc).
Qed.

End PoolContext.

(** One worker that has a task to run when the [with] block is left. *)
Lemma pool_exit_after_shutdown_witness :
  let acts := [ThreadResourceExecutor.Submit tick [] []] in
  let rounds :=
    repeat [ThreadResourceExecutor.Work 0; ThreadResourceExecutor.Shutdown]
           26 in
  let st :=
    ThreadResourceExecutor.run acts
      (ThreadResourceExecutor.__init__ [Handle 1 0]) in
  ThreadResourceExecutor.in_shutdown st = None
  /\ Forall (fun r => shutdown_round 1 r = true) rounds
  /\ until_return st < length rounds
  /\ exists o self',
       ThreadResourceExecutor.__exit__ PyNone PyNone PyNone (concat rounds) st
       = Some (o, self').
Proof.
  intros acts rounds st.
  assert (H0 : ThreadResourceExecutor.in_shutdown st = None) by reflexivity.
  assert (H1 : Forall (fun r => shutdown_round (length [Handle 1 0]) r = true)
                      rounds) by (repeat constructor).
  assert (H2 : until_return st < length rounds) by (vm_compute; lia).
  split; [exact H0|]. split; [exact H1|]. split; [exact H2|].
  exact (proj2 (pool_exit_after_shutdown [Handle 1 0] acts rounds
                  PyNone PyNone PyNone H0 H1 H2)).
Defined.

(* ===================================================================== *)
(** ** More about the pool: one resource, one thread *)
(* ===================================================================== *)

Section Serial.
Context {R : Type}.
Implicit Types (self st : ThreadResourceExecutor.t R).
Implicit Types (th : ThreadResourceWorker.t R).
Implicit Types (future : TaskFuture.t R).

Lemma calls_by_app (w : nat) (h evs : list event) :
  calls_by w (h ++ evs) = calls_by w h ++ calls_by w evs.
Proof. apply omap_app. Qed.

(** No step changes the call that a future stands for. *)
Lemma sig_step (a : ThreadResourceExecutor.action R) st (ref : nat)
    (c : call_sig) :
  List.map sig_of (ThreadResourceExecutor.heap st) !! ref = Some c ->
  List.map sig_of
    (ThreadResourceExecutor.heap (ThreadResourceExecutor.step a st)) !! ref
  = Some c.
Proof.
  intros Hc. rewrite list_lookup_fmap in Hc |- *.
  destruct (ThreadResourceExecutor.heap st !! ref) as [future|] eqn:Hf;
    [|discriminate Hc].
  destruct (same_call_step a st ref future Hf) as (future' & -> & H1 & H2 & H3).
  cbn in Hc |- *. injection Hc as <-. unfold sig_of.
  rewrite H1, H2, H3. reflexivity.
Qed.

Lemma serial_step (w : nat) (r0 : R) (h0 : list event)
    (a : ThreadResourceExecutor.action R) st :
  serial w r0 h0 st -> serial w r0 h0 (ThreadResourceExecutor.step a st).
Proof.
  intros (since & th & cs & Hsince & Hth & Hsigs & Hseq).
  assert (Hkeep : forall evs th',
            calls_by w evs = [] ->
            ThreadResourceExecutor._workers (ThreadResourceExecutor.step a st)
              !! w = Some th' ->
            ThreadResourceWorker._resource th'
            = ThreadResourceWorker._resource th ->
            ThreadResourceExecutor.history (ThreadResourceExecutor.step a st)
            = ThreadResourceExecutor.history st ++ evs ->
            serial w r0 h0 (ThreadResourceExecutor.step a st)).
  { intros evs th' Hevs Hth' Hres Hh. exists (since ++ evs), th', cs.
    split; [rewrite Hh, Hsince, app_assoc; reflexivity|].
    split; [exact Hth'|]. rewrite calls_by_app, Hevs, app_nil_r, Hres.
    split; [|exact Hseq].
    eapply Forall2_impl; [exact Hsigs|]. intros ref c. apply sig_step. }
  assert (Hcall : forall ref future o r pc evs,
            ThreadResourceWorker.at_ th = ThreadResourceWorker.AtTry ref ->
            ThreadResourceExecutor.heap st !! ref = Some future ->
            TaskFuture._task future (ThreadResourceWorker._resource th)
              (TaskFuture._args future) (TaskFuture._kwargs future)
            = (o, r) ->
            calls_by w evs = [] ->
            ThreadResourceExecutor._workers (ThreadResourceExecutor.step a st)
              !! w = Some (ThreadResourceWorker.mk r pc) ->
            ThreadResourceExecutor.history (ThreadResourceExecutor.step a st)
            = ThreadResourceExecutor.history st ++ EvCall w ref o :: evs ->
            serial w r0 h0 (ThreadResourceExecutor.step a st)).
  { intros ref future o r pc evs Hat Hf Hc Hevs Hth' Hh.
    exists (since ++ EvCall w ref o :: evs),
      (ThreadResourceWorker.mk r pc), (cs ++ [sig_of future]).
    split; [rewrite Hh, Hsince, app_assoc; reflexivity|].
    split; [exact Hth'|]. rewrite calls_by_app.
    change (calls_by w (EvCall w ref o :: evs))
      with (match (if Nat.eqb w w then Some (ref, o) else None) with
            | Some y => y :: calls_by w evs
            | None => calls_by w evs
            end).
    rewrite Nat.eqb_refl, Hevs, !map_app. cbn [List.map fst snd].
    split.
    - apply Forall2_app.
      + eapply Forall2_impl; [exact Hsigs|]. intros g c. apply sig_step.
      + constructor; [|constructor]. apply sig_step.
        rewrite list_lookup_fmap, Hf. reflexivity.
    - rewrite sequential_snoc, Hseq. cbn [fst snd].
      unfold run_sig, sig_of. cbn [fst snd]. rewrite Hc. reflexivity. }
  destruct a as [w'|fn args kw|].
  - cbn [ThreadResourceExecutor.step] in *.
    destruct (Nat.eq_dec w' w) as [->|Hne].
    + destruct (work_worked w st) as
        [ |th0 x rest Hth0 Hat Hqx |th0 f fut v r Hth0 Hat Hf Hc
          |th0 f fut e r Hth0 Hat Hf Hc He |th0 f fut e r Hth0 Hat Hf Hc He
          |th0 f fut Hth0 Hat Hf ];
        [exists since, th, cs; auto|..].
      all: rewrite Hth in Hth0; injection Hth0 as <-.
      all: assert (Hlt : w < length (ThreadResourceExecutor._workers st))
             by (eapply lookup_lt_Some, Hth).
      all: assert (Hins : forall t,
             ThreadResourceExecutor._workers
               (ThreadResourceExecutor.mk
                  (ThreadResourceExecutor._work_queue st)
                  (<[w := t]> (ThreadResourceExecutor._workers st))
                  (ThreadResourceExecutor.heap st)
                  (ThreadResourceExecutor.in_shutdown st)
                  (ThreadResourceExecutor.history st)) !! w = Some t)
             by (intros t; cbn [ThreadResourceExecutor._workers];
                 apply list_lookup_insert_eq, Hlt).
      * apply (Hkeep [EvGet w x] _ eq_refl (Hins _) eq_refl eq_refl).
      * apply (Hcall f fut (Returned v) r (ThreadResourceWorker.AtSet f)
                 [EvWriteResult w f v] Hat Hf Hc eq_refl (Hins _) eq_refl).
      * apply (Hcall f fut (Raised e) r (ThreadResourceWorker.AtSet f)
                 [EvWriteExcinfo w f (sys_exc_info e)] Hat Hf Hc eq_refl
                 (Hins _) eq_refl).
      * apply (Hcall f fut (Raised e) r (ThreadResourceWorker.Died e)
                 [] Hat Hf Hc eq_refl (Hins _) eq_refl).
      * apply (Hkeep [EvSet w f] _ eq_refl (Hins _) eq_refl eq_refl).
    + assert (Hw : forall ref o, call_by w (EvCall w' ref o) = None).
      { intros ref o. cbn. apply Nat.eqb_neq in Hne. rewrite Hne.
        reflexivity. }
      destruct (work_worked w' st) as
        [ |th0 x rest Hth0 Hat Hqx |th0 f fut v r Hth0 Hat Hf Hc
          |th0 f fut e r Hth0 Hat Hf Hc He |th0 f fut e r Hth0 Hat Hf Hc He
          |th0 f fut Hth0 Hat Hf ];
        [exists since, th, cs; auto|..].
      all: match goal with
           | |- serial _ _ _ (ThreadResourceExecutor.mk _ _ _ _ (_ ++ ?evs)) =>
               apply (Hkeep evs th);
                 [ unfold calls_by; cbn [omap list_omap]; rewrite ?Hw;
                   reflexivity
                 | cbn [ThreadResourceExecutor._workers];
                   rewrite list_lookup_insert_ne by exact Hne; exact Hth
                 | reflexivity
                 | reflexivity ]
           end.
  - destruct (submit_cases st fn args kw) as [[e He]|He].
    + apply (Hkeep [] th); cbn [ThreadResourceExecutor.step]; rewrite ?He;
        [reflexivity|exact Hth|reflexivity|symmetry; apply app_nil_r].
    + apply (Hkeep
               [EvPut (OTaskFuture (length (ThreadResourceExecutor.heap st)))]
               th); cbn [ThreadResourceExecutor.step]; rewrite ?He;
        [reflexivity|exact Hth|reflexivity|reflexivity].
  - cbn [ThreadResourceExecutor.step] in *.
    unfold ThreadResourceExecutor.shutdown_step in *.
    destruct (ThreadResourceExecutor.in_shutdown st) as [[|[|todo]|]|];
      try destruct (ThreadResourceExecutor.any_alive st).
    all: first [ apply (Hkeep [] th);
                   [reflexivity|exact Hth|reflexivity
                   |symmetry; apply app_nil_r]
               | apply (Hkeep [EvPut ONone] th);
                   [reflexivity|exact Hth|reflexivity|reflexivity] ].
Qed.

(** One resource, one thread. Take the pool in any state, as it was
    made or as [__enter__] or earlier work have left it, and any
    interleaving of worker statements, [submit] and [shutdown] from
    there: each thread has run the tasks it took since one after the
    other on its own resource. The outcomes of the calls it has made
    since are those of making these calls in sequence, starting from the
    resource that the thread had, each call on the resource as the call
    before left it, and the resource of the thread is what the last call
    left behind. What the other threads do does not show. *)
Theorem each_resource_runs_its_tasks_in_sequence
    (st0 : ThreadResourceExecutor.t R)
    (acts : list (ThreadResourceExecutor.action R)) (w : nat)
    (th0 : ThreadResourceWorker.t R) :
  ThreadResourceExecutor._workers st0 !! w = Some th0 ->
  let st := ThreadResourceExecutor.run acts st0 in
  exists since th cs,
    ThreadResourceExecutor.history st
    = ThreadResourceExecutor.history st0 ++ since
    /\ ThreadResourceExecutor._workers st !! w = Some th
    /\ Forall2 (fun ref c =>
                  exists future,
                    ThreadResourceExecutor.heap st !! ref = Some future
                    /\ sig_of future = c)
               (List.map fst (calls_by w since)) cs
    /\ sequential cs (ThreadResourceWorker._resource th0)
       = (List.map snd (calls_by w since), ThreadResourceWorker._resource th).
Proof.
  intros Hth0 st.
  assert (Hs : serial w (ThreadResourceWorker._resource th0)
                 (ThreadResourceExecutor.history st0) st).
  { apply (run_invariant
             (serial w (ThreadResourceWorker._resource th0)
                (ThreadResourceExecutor.history st0))
             (serial_step w _ _)).
    exists [], th0, [].
    split; [symmetry; apply app_nil_r|].
    split; [exact Hth0|]. split; [constructor|reflexivity]. }
  destruct Hs as (since & th & cs & Hsince & Hth & Hsigs & Hseq).
  exists since, th, cs. split; [exact Hsince|]. split; [exact Hth|].
  split; [|exact Hseq].
  eapply Forall2_impl; [exact Hsigs|]. intros ref c Hc. cbv beta in Hc.
  rewrite list_lookup_fmap in Hc.
  destruct (ThreadResourceExecutor.heap st !! ref) as [future|];
    [|discriminate Hc].
  exists future. split; [reflexivity|]. cbn in Hc. congruence.
Qed.

End Serial.

(** Two workers whose resources [__enter__] has opened, and two tasks:
    what worker 1 has done to its resource since. *)
Lemma each_resource_runs_its_tasks_in_sequence_witness :
  let st0 :=
    snd (ThreadResourceExecutor.__enter__
           (ThreadResourceExecutor.__init__ [Handle 0 0; Handle 1 0])) in
  let acts :=
    [ThreadResourceExecutor.Submit tick [] [];
     ThreadResourceExecutor.Submit tick [] [];
     ThreadResourceExecutor.Work 0; ThreadResourceExecutor.Work 1;
     ThreadResourceExecutor.Work 1; ThreadResourceExecutor.Work 0;
     ThreadResourceExecutor.Work 1] in
  let th0 := ThreadResourceWorker.mk (Handle 2 0) ThreadResourceWorker.AtGet
  in
  let st := ThreadResourceExecutor.run acts st0 in
  ThreadResourceExecutor._workers st0 !! 1 = Some th0
  /\ exists since th cs,
       ThreadResourceExecutor.history st
       = ThreadResourceExecutor.history st0 ++ since
       /\ ThreadResourceExecutor._workers st !! 1 = Some th
       /\ Forall2 (fun ref c =>
                     exists future,
                       ThreadResourceExecutor.heap st !! ref = Some future
                       /\ sig_of future = c)
                  (List.map fst (calls_by 1 since)) cs
       /\ sequential cs (ThreadResourceWorker._resource th0)
          = (List.map snd (calls_by 1 since),
             ThreadResourceWorker._resource th).
Proof.
  intros st0 acts th0 st.
  assert (H1 : ThreadResourceExecutor._workers st0 !! 1 = Some th0)
    by reflexivity.
  split; [exact H1|].
  exact (each_resource_runs_its_tasks_in_sequence st0 acts 1 th0 H1).
Defined.
